(** * Breeding-match service: lifecycle and outcome verification

    A shallow embedding of the match service of DaBreeder
    (createMatchRequest, mapMatchRecord, updateMatchStatus,
    acceptMatchRequest, submitMatchOutcome) together with the part of the
    JavaScript runtime and of the Supabase/PostgREST client they rely on.

    Layout:
    - [Js]: strings, truthiness, numbers as IEEE 754 binary64 data;
    - the backend: the tables, the clocks, and the promise monad [Async];
    - the service: one definition per function of the source;
    - the properties, grouped by function. *)

From Stdlib Require Import ZArith List String Ascii Bool Lia.
From Stdlib Require Import Floats.SpecFloat Sorting.Sorted Sorting.Permutation.
From stdpp Require Import base option strings gmap.

Import ListNotations.
Local Open Scope string_scope.

(* ===================================================================== *)
(** ** The JavaScript values the service manipulates *)
(* ===================================================================== *)

Module Js.

(** Strings.  A character of a Rocq [string] stands for one code unit in
    the range U+0000..U+00FF (Latin-1); code units above that range are
    outside the model. *)

Definition code (c : ascii) : N := N_of_ascii c.

(** [String.prototype.toLowerCase] on that range: A..Z and the accented
    capitals U+00C0..U+00DE (U+00D7, the multiplication sign, excepted)
    move up by 32. *)
Definition lower_unit (c : ascii) : ascii :=
  let n := code c in
  if ((65 <=? n) && (n <=? 90))%N
     || ((192 <=? n) && (n <=? 222) && negb (n =? 215))%N
  then ascii_of_N (n + 32)
  else c.

Fixpoint toLowerCase (s : string) : string :=
  match s with
  | EmptyString => EmptyString
  | String c r => String (lower_unit c) (toLowerCase r)
  end.

(** White space and line terminators removed by [trim]: TAB, LF, VT, FF,
    CR, SPACE and NO-BREAK SPACE. *)
Definition is_white_space (c : ascii) : bool :=
  let n := code c in
  ((9 <=? n) && (n <=? 13) || (n =? 32) || (n =? 160))%N.

Fixpoint trimStart (s : string) : string :=
  match s with
  | EmptyString => EmptyString
  | String c r => if is_white_space c then trimStart r else s
  end.

Fixpoint trimEnd (s : string) : string :=
  match s with
  | EmptyString => EmptyString
  | String c r =>
      match trimEnd r with
      | EmptyString => if is_white_space c then EmptyString else String c EmptyString
      | r' => String c r'
      end
  end.

Definition trim (s : string) : string := trimEnd (trimStart s).

(** A string is truthy unless it is empty. *)
Definition nonempty (s : string) : bool := negb (String.eqb s "").

(** Identifiers and free text reach the service as a string or [null]. *)
Definition present (v : option string) : bool :=
  match v with
  | Some s => nonempty s
  | None => false
  end.

(** [v || d] on such a value. *)
Definition or_else (v : option string) (d : string) : string :=
  match v with
  | Some s => if nonempty s then s else d
  | None => d
  end.

(** [s || null] on a string. *)
Definition or_null (s : string) : option string :=
  if nonempty s then Some s else None.

(** [String(v)]. *)
Definition String_ (v : option string) : string :=
  match v with
  | Some s => s
  | None => "null"
  end.

(** Numbers are IEEE 754 binary64 values, in the representation of the
    Standard Library's [spec_float]: a finite non-zero value is
    [S754_finite sign m e] with [2^52 <= m < 2^53] (or subnormal) and
    denotes [(-1)^sign * m * 2^e]. *)
Definition number := spec_float.

Definition zero : number := S754_zero false.
Definition one : number := S754_finite false 4503599627370496 (-52).

Definition isFinite (n : number) : bool :=
  match n with
  | S754_zero _ | S754_finite _ _ _ => true
  | S754_infinity _ | S754_nan => false
  end.

(** [a < b] and [a <= b]. *)
Definition lt (a b : number) : bool := SFltb a b.
Definition le (a b : number) : bool := SFleb a b.

(** [Number.isInteger]: a finite value with no fractional part. *)
Definition isInteger (n : number) : bool :=
  match n with
  | S754_zero _ => true
  | S754_finite _ m e =>
      (0 <=? e)%Z || (Z.pos m mod 2 ^ (- e) =? 0)%Z
  | _ => false
  end.

(** The sign bit is clear or the value is a zero. *)
Definition nonNegative (n : number) : bool :=
  match n with
  | S754_zero _ => true
  | S754_finite s _ _ | S754_infinity s => negb s
  | S754_nan => false
  end.

(** The values [litterSize] can hold when it reaches the service. *)
Inductive value :=
| Undefined
| Null
| Boolean (b : bool)
| Num (n : number)
| Str (s : string).

(** [Number(v)] (the ToNumber conversion).  The conversion of a string,
    the built-in StringToNumber with its rounding to binary64, is a
    parameter. *)
Definition Number (StringToNumber : string -> number) (v : value) : number :=
  match v with
  | Undefined => S754_nan
  | Null => zero
  | Boolean b => if b then one else zero
  | Num n => n
  | Str s => StringToNumber s
  end.

End Js.

(* ===================================================================== *)
(** ** The backend: tables, clocks, and promises *)
(* ===================================================================== *)

Definition Id := string.

(** An instant; [toISOString] renders instants injectively, so that the
    rendering is left out. *)
Definition Timestamp := Z.

(** Rows of the table [dogs], with the columns the service reads (the
    statistics columns of DOG_FIELDS are carried along unread). *)
Module Dog.
Record row := {
  id : Id;
  name : option string;
  gender : option string;
  user_id : option Id;
}.
End Dog.

(** Rows of the table [dog_match_outcomes]. *)
Module Outcome.
Record row := {
  id : Id;
  match_id : Id;
  verified_by_user_id : Id;
  verified_by_dog_id : Id;
  outcome : string;
  litter_size : option Js.number;
  notes : option string;
  verified_at : option Timestamp;
}.

(** The object handed to [insert]. *)
Record payload := {
  p_match_id : Id;
  p_verified_by_user_id : Id;
  p_verified_by_dog_id : Id;
  p_outcome : string;
  p_litter_size : option Js.number;
  p_notes : option string;
}.
End Outcome.

(** Rows of the table [dog_match_requests]. *)
Module Match.
Record row := {
  id : Id;
  status : string;
  contact_id : Id;
  requester_user_id : Id;
  requested_user_id : Id;
  requester_dog_id : Id;
  requested_dog_id : Id;
  requested_at : option Timestamp;
  accepted_at : option Timestamp;
  declined_at : option Timestamp;
  cancelled_at : option Timestamp;
  awaiting_confirmation_at : option Timestamp;
  completed_at : option Timestamp;
  last_status_changed_at : option Timestamp;
  requester_notes : option string;
  responder_notes : option string;
}.

(** The object handed to [insert] by createMatchRequest. *)
Record payload := {
  p_contact_id : Id;
  p_requester_dog_id : Id;
  p_requested_dog_id : Id;
  p_requester_user_id : Id;
  p_requested_user_id : Id;
  p_requester_notes : option string;
}.

(** The projection "id, status, requester_dog_id, requested_dog_id,
    requested_at" selected by getActiveRequestForContact. *)
Record active := {
  a_id : Id;
  a_status : string;
  a_requester_dog_id : Id;
  a_requested_dog_id : Id;
  a_requested_at : option Timestamp;
}.

Definition project (r : row) : active :=
  {| a_id := id r;
     a_status := status r;
     a_requester_dog_id := requester_dog_id r;
     a_requested_dog_id := requested_dog_id r;
     a_requested_at := requested_at r |}.

(** A row as MATCH_SELECT returns it: the columns, the outcomes that
    reference it, and the two dogs it references. *)
Record record := {
  columns : row;
  dog_match_outcomes : list Outcome.row;
  requester_dog : option Dog.row;
  requested_dog : option Dog.row;
}.
End Match.

(** The error objects of the Supabase client. *)
Record PostgrestError := { pg_code : string; pg_message : string }.
Record AuthError := { auth_message : string }.

(** What a rejected promise carries: an [Error] built by the service, with
    its message and the two properties createMatchRequest may attach, or an
    error object of the client thrown as it came. *)
Inductive Exn :=
| Error (message : string) (code : option string) (activeRequest : option Match.active)
| Postgrest (e : PostgrestError)
| Auth (e : AuthError).

(** [new Error(message)]. *)
Definition new_Error (message : string) : Exn := Error message None None.

Inductive Completion (A : Type) :=
| Fulfilled (a : A)
| Rejected (e : Exn).
Arguments Fulfilled {A} a.
Arguments Rejected {A} e.

(** The [{ data, error }] object a query resolves to. *)
Record Response (A : Type) := { data : option A; error : option PostgrestError }.
Arguments data {A} _.
Arguments error {A} _.

Definition answer {A} (a : A) : Response A := {| data := Some a; error := None |}.
Definition no_data {A} : Response A := {| data := None; error := None |}.
Definition refusal {A} (e : PostgrestError) : Response A :=
  {| data := None; error := Some e |}.

(** What [supabase.auth.getUser()] resolves to. *)
Record User := { uid : option Id }.
Record AuthResponse := { user : option User; auth_error : option AuthError }.

(** The state the service runs against.  [tick] counts the effects
    performed so far; the three oracles give, per tick, the reading of the
    browser's clock, the reading of the database's clock, and whether the
    backend refuses the request issued then (transport failure, constraint
    or row-level-security violation). *)
Record World := {
  dogs : list Dog.row;
  dog_match_requests : list Match.row;
  dog_match_outcomes : list Outcome.row;
  session : AuthResponse;
  tick : nat;
  browser_clock : nat -> Timestamp;
  database_clock : nat -> Timestamp;
  fresh_id : nat -> Id;
  refused : nat -> option PostgrestError;
}.

Definition step (w : World) : World :=
  {| dogs := dogs w;
     dog_match_requests := dog_match_requests w;
     dog_match_outcomes := dog_match_outcomes w;
     session := session w;
     tick := S (tick w);
     browser_clock := browser_clock w;
     database_clock := database_clock w;
     fresh_id := fresh_id w;
     refused := refused w |}.

Definition with_requests (rows : list Match.row) (w : World) : World :=
  {| dogs := dogs w;
     dog_match_requests := rows;
     dog_match_outcomes := dog_match_outcomes w;
     session := session w;
     tick := tick w;
     browser_clock := browser_clock w;
     database_clock := database_clock w;
     fresh_id := fresh_id w;
     refused := refused w |}.

Definition with_outcomes (rows : list Outcome.row) (w : World) : World :=
  {| dogs := dogs w;
     dog_match_requests := dog_match_requests w;
     dog_match_outcomes := rows;
     session := session w;
     tick := tick w;
     browser_clock := browser_clock w;
     database_clock := database_clock w;
     fresh_id := fresh_id w;
     refused := refused w |}.

(** The backend answers every request from tick [n] on. *)
Definition reliable_from (n : nat) (w : World) : Prop :=
  forall k, n <= k -> refused w k = None.

(** *** Promises *)

Definition Async (A : Type) : Type := World -> Completion A * World.

#[global] Instance Async_ret : MRet Async :=
  fun A a w => (Fulfilled a, w).

#[global] Instance Async_bind : MBind Async :=
  fun A B k m w =>
    match m w with
    | (Fulfilled a, w') => k a w'
    | (Rejected e, w') => (Rejected e, w')
    end.

Definition throw {A} (e : Exn) : Async A := fun w => (Rejected e, w).

(** [if (!ok) throw e;] *)
Definition unless_throw (ok : bool) (e : Exn) : Async unit :=
  if ok then mret tt else throw e.

(** [if (bad) throw e;] *)
Definition throw_when (bad : bool) (e : Exn) : Async unit :=
  if bad then throw e else mret tt.

(** [new Date().toISOString()]. *)
Definition new_Date : Async Timestamp :=
  fun w => (Fulfilled (browser_clock w (tick w)), step w).

(** A request to the backend: refused when the oracle says so, and served
    by [serve] otherwise.  Awaiting it never throws; the refusal comes back
    in the [error] field. *)
Definition request {A} (serve : World -> Response A * World) : Async (Response A) :=
  fun w =>
    match refused w (tick w) with
    | Some e => (Fulfilled (refusal e), step w)
    | None => let (r, w') := serve (step w) in (Fulfilled r, w')
    end.

(** [supabase.auth.getUser()]. *)
Definition auth_getUser : Async AuthResponse :=
  fun w => (Fulfilled (session w), step w).

(** *** Queries *)

(** PGRST116: the result of [.single()] is not exactly one row. *)
Definition PGRST116 : PostgrestError :=
  {| pg_code := "PGRST116";
     pg_message := "JSON object requested, multiple (or no) rows returned" |}.

Definition single {A} (rows : list A) : Response A :=
  match rows with
  | [r] => answer r
  | _ => refusal PGRST116
  end.

Definition maybeSingle {A} (rows : list A) : Response A :=
  match rows with
  | [] => no_data
  | [r] => answer r
  | _ => refusal PGRST116
  end.

(** [from("dogs").select(..).eq("id", dogId)] *)
Definition dogs_with_id (dogId : Id) (w : World) : list Dog.row :=
  List.filter (fun d => String.eqb (Dog.id d) dogId) (dogs w).

Definition select_dog_single (dogId : Id) : Async (Response Dog.row) :=
  request (fun w => (single (dogs_with_id dogId w), w)).

Definition select_dog_maybeSingle (dogId : Id) : Async (Response Dog.row) :=
  request (fun w => (maybeSingle (dogs_with_id dogId w), w)).

(** [from("dog_match_requests").select(..).eq("id", matchId)] *)
Definition matches_with_id (matchId : Id) (w : World) : list Match.row :=
  List.filter (fun m => String.eqb (Match.id m) matchId) (dog_match_requests w).

Definition select_match_single (matchId : Id) : Async (Response Match.row) :=
  request (fun w => (single (matches_with_id matchId w), w)).

(** [.order("requested_at", { ascending: false })]: ORDER BY requested_at
    DESC, which puts NULL first; rows with equal keys keep their order. *)
Definition strictly_newer (a b : option Timestamp) : bool :=
  match a, b with
  | None, None => false
  | None, Some _ => true
  | Some _, None => false
  | Some x, Some y => (y <? x)%Z
  end.

Fixpoint insert_desc (r : Match.row) (l : list Match.row) : list Match.row :=
  match l with
  | [] => [r]
  | x :: t =>
      if strictly_newer (Match.requested_at x) (Match.requested_at r)
      then x :: insert_desc r t
      else r :: l
  end.

Definition order_requested_at_desc (l : list Match.row) : list Match.row :=
  fold_right insert_desc [] l.

(** [.in("status", statuses)] *)
Definition status_in (statuses : list string) (m : Match.row) : bool :=
  existsb (String.eqb (Match.status m)) statuses.

(** [.limit(n)] *)
Definition limit {A} (n : nat) (l : list A) : list A := firstn n l.

(** [.update(patch)]: a patch maps column names to the cells it sets. *)
Inductive Cell :=
| Text (s : string)
| Instant (t : Timestamp).

Definition set_text (patch : gmap string Cell) (column : string) (old : string) : string :=
  match patch !! column with
  | Some (Text s) => s
  | _ => old
  end.

Definition set_instant (patch : gmap string Cell) (column : string)
    (old : option Timestamp) : option Timestamp :=
  match patch !! column with
  | Some (Instant t) => Some t
  | _ => old
  end.

(** The row after the patch: a column named by the patch takes the cell's
    value, every other column keeps its own. *)
Definition apply_patch (patch : gmap string Cell) (r : Match.row) : Match.row :=
  {| Match.id := Match.id r;
     Match.status := set_text patch "status" (Match.status r);
     Match.contact_id := Match.contact_id r;
     Match.requester_user_id := Match.requester_user_id r;
     Match.requested_user_id := Match.requested_user_id r;
     Match.requester_dog_id := Match.requester_dog_id r;
     Match.requested_dog_id := Match.requested_dog_id r;
     Match.requested_at := set_instant patch "requested_at" (Match.requested_at r);
     Match.accepted_at := set_instant patch "accepted_at" (Match.accepted_at r);
     Match.declined_at := set_instant patch "declined_at" (Match.declined_at r);
     Match.cancelled_at := set_instant patch "cancelled_at" (Match.cancelled_at r);
     Match.awaiting_confirmation_at :=
       set_instant patch "awaiting_confirmation_at" (Match.awaiting_confirmation_at r);
     Match.completed_at := set_instant patch "completed_at" (Match.completed_at r);
     Match.last_status_changed_at :=
       set_instant patch "last_status_changed_at" (Match.last_status_changed_at r);
     Match.requester_notes := Match.requester_notes r;
     Match.responder_notes := Match.responder_notes r |}.

(** [from("dog_match_requests").update(patch).eq("id", matchId).select().single()]:
    the rows with that id are patched; unless exactly one row comes back
    the request fails with PGRST116 and the table is left as it was. *)
Definition update_match_single (patch : gmap string Cell) (matchId : Id)
    : Async (Response Match.row) :=
  request (fun w =>
    let hit := fun m => String.eqb (Match.id m) matchId in
    match List.filter hit (dog_match_requests w) with
    | [r] =>
        let rows := map (fun m => if hit m then apply_patch patch m else m)
                        (dog_match_requests w) in
        (answer (apply_patch patch r), with_requests rows w)
    | _ => (refusal PGRST116, w)
    end).

(** Modelled from the spec: the column defaults of [dog_match_requests],
    declared in the database schema and not in the service.  A request is
    persisted "in pending status with requestedAt set to current time";
    the other instants and the responder's notes start as null. *)
Definition new_request (id : Id) (now : Timestamp) (p : Match.payload) : Match.row :=
  {| Match.id := id;
     Match.status := "pending";
     Match.contact_id := Match.p_contact_id p;
     Match.requester_user_id := Match.p_requester_user_id p;
     Match.requested_user_id := Match.p_requested_user_id p;
     Match.requester_dog_id := Match.p_requester_dog_id p;
     Match.requested_dog_id := Match.p_requested_dog_id p;
     Match.requested_at := Some now;
     Match.accepted_at := None;
     Match.declined_at := None;
     Match.cancelled_at := None;
     Match.awaiting_confirmation_at := None;
     Match.completed_at := None;
     Match.last_status_changed_at := None;
     Match.requester_notes := Match.p_requester_notes p;
     Match.responder_notes := None |}.

(** The embedded resources of MATCH_SELECT. *)
Definition embed (w : World) (r : Match.row) : Match.record :=
  {| Match.columns := r;
     Match.dog_match_outcomes :=
       List.filter (fun o => String.eqb (Outcome.match_id o) (Match.id r))
                   (dog_match_outcomes w);
     Match.requester_dog := head (dogs_with_id (Match.requester_dog_id r) w);
     Match.requested_dog := head (dogs_with_id (Match.requested_dog_id r) w) |}.

(** [from("dog_match_requests").insert([payload]).select(MATCH_SELECT).single()] *)
Definition insert_request_single (p : Match.payload) : Async (Response Match.record) :=
  request (fun w =>
    let r := new_request (fresh_id w (tick w)) (database_clock w (tick w)) p in
    let w' := with_requests (dog_match_requests w ++ [r]) w in
    (single [embed w' r], w')).

(** Modelled from the spec: a MatchOutcome has an [id] and a [verifiedAt]
    that the payload does not carry; the database fills them in.  The
    columns the payload carries are stored as they are given: the schema of
    the table is not among the sources, and the specification has the
    litter size of a success "stored as given". *)
Definition new_outcome (id : Id) (now : Timestamp) (p : Outcome.payload) : Outcome.row :=
  {| Outcome.id := id;
     Outcome.match_id := Outcome.p_match_id p;
     Outcome.verified_by_user_id := Outcome.p_verified_by_user_id p;
     Outcome.verified_by_dog_id := Outcome.p_verified_by_dog_id p;
     Outcome.outcome := Outcome.p_outcome p;
     Outcome.litter_size := Outcome.p_litter_size p;
     Outcome.notes := Outcome.p_notes p;
     Outcome.verified_at := Some now |}.

(** [from("dog_match_outcomes").insert([payload]).select().single()] *)
Definition insert_outcome_single (p : Outcome.payload) : Async (Response Outcome.row) :=
  request (fun w =>
    let r := new_outcome (fresh_id w (tick w)) (database_clock w (tick w)) p in
    (single [r], with_outcomes (dog_match_outcomes w ++ [r]) w)).

(** [.eq("contact_id", contactId).in("status", statuses)
     .order("requested_at", { ascending: false }).limit(1)] *)
Definition select_active (contactId : Id) (statuses : list string)
    : Async (Response (list Match.active)) :=
  request (fun w =>
    let rows :=
      List.filter (fun m => String.eqb (Match.contact_id m) contactId && status_in statuses m)
                  (dog_match_requests w) in
    (answer (map Match.project (limit 1 (order_requested_at_desc rows))), w)).

(** [if (error) throw error;] *)
Definition throw_if_error {A} (r : Response A) : Async unit :=
  match error r with
  | Some e => throw (Postgrest e)
  | None => mret tt
  end.

(* ===================================================================== *)
(** ** The service *)
(* ===================================================================== *)

Definition STATUS_SET : gset string :=
  list_to_set
    ["pending"; "accepted"; "declined"; "cancelled"; "awaiting_confirmation";
     "completed_success"; "completed_failed"].

Definition ACTIVE_STATUS_LIST : list string :=
  ["pending"; "accepted"; "awaiting_confirmation"].

Definition ACTIVE_REQUEST_STATUSES : gset string := list_to_set ACTIVE_STATUS_LIST.

(** [set.has(x)] *)
Definition has (set : gset string) (x : string) : bool := bool_decide (x ∈ set).

(** The string a present value holds. *)
Definition the (v : option string) : string := default "" v.

(** [v || null] *)
Definition truthy_or_null (v : option string) : option string :=
  if Js.present v then v else None.

(** lookupDogOwnerId *)
Definition lookupDogOwnerId (dogId : option Id) : Async (option Id) :=
  if negb (Js.present dogId) then mret None
  else
    r ← select_dog_maybeSingle (the dogId);
    _ ← throw_if_error r;
    mret (truthy_or_null (data r ≫= Dog.user_id)).

(** getActiveRequestForContact *)
Definition getActiveRequestForContact (contactId : option Id) : Async (option Match.active) :=
  if negb (Js.present contactId) then mret None
  else
    r ← select_active (the contactId) ACTIVE_STATUS_LIST;
    _ ← throw_if_error r;
    mret (match data r with
          | Some (first :: _) => Some first
          | _ => None
          end).

Module Create.
Record args := {
  contactId : option Id;
  requesterDogId : option Id;
  requestedDogId : option Id;
  requesterUserId : option Id;
  requestedUserId : option Id;
  notes : option string;
}.
End Create.

Definition MATCH_REQUEST_EXISTS (active : Match.active) : Exn :=
  Error "A breeding request is already awaiting a response in this chat."
        (Some "MATCH_REQUEST_EXISTS") (Some active).

(** createMatchRequest, the payload it builds for the owner [targetUserId]. *)
Definition request_payload (a : Create.args) (targetUserId : option Id) : Match.payload :=
  {| Match.p_contact_id := the (Create.contactId a);
     Match.p_requester_dog_id := the (Create.requesterDogId a);
     Match.p_requested_dog_id := the (Create.requestedDogId a);
     Match.p_requester_user_id := the (Create.requesterUserId a);
     Match.p_requested_user_id := the targetUserId;
     Match.p_requester_notes := truthy_or_null (Create.notes a) |}.

(** createMatchRequest *)
Definition createMatchRequest (a : Create.args) : Async (option Match.record) :=
  _ ← unless_throw (Js.present (Create.contactId a)) (new_Error "contactId is required");
  _ ← throw_when (negb (Js.present (Create.requesterDogId a))
                  || negb (Js.present (Create.requestedDogId a)))
        (new_Error "Both dogs must be provided to request breeding");
  _ ← unless_throw (Js.present (Create.requesterUserId a))
        (new_Error "requesterUserId is required");
  _ ← throw_when (String.eqb (the (Create.requesterDogId a)) (the (Create.requestedDogId a)))
        (new_Error "Dogs must be different");
  active ← getActiveRequestForContact (Create.contactId a);
  _ ← match active with
      | Some act =>
          if has ACTIVE_REQUEST_STATUSES (Match.a_status act)
          then throw (MATCH_REQUEST_EXISTS act)
          else mret tt
      | None => mret tt
      end;
  targetUserId ← (if Js.present (Create.requestedUserId a)
                  then mret (Create.requestedUserId a)
                  else lookupDogOwnerId (Create.requestedDogId a));
  _ ← unless_throw (Js.present targetUserId)
        (new_Error "Unable to determine the other owner. Please refresh and try again.");
  let payload := request_payload a targetUserId in
  r ← insert_request_single payload;
  _ ← throw_if_error r;
  mret (data r).

Module View.
(** The object mapMatchRecord returns: the row it was given, spread, and
    the derived properties. *)
Record t := {
  row : Match.record;
  myDog : option Dog.row;
  partnerDog : option Dog.row;
  iAmRequester : bool;
  awaitingMyOutcome : bool;
  isMaleDogOwner : bool;
  requiresResponse : bool;
  canCancel : bool;
  outcome : option Outcome.row;
  userStatus : string;
  direction : string;
  isCompleted : bool;
  isHistory : bool;
}.
End View.

(** mapMatchRecord *)
Definition mapMatchRecord (row : option Match.record) (userId : option Id) : option View.t :=
  match row with
  | None => None
  | Some row =>
      let status := Match.status (Match.columns row) in
      let requesterId := Match.requester_user_id (Match.columns row) in
      let myselfIsRequester :=
        if Js.present userId
        then String.eqb (Js.String_ (Some requesterId)) (Js.String_ userId)
        else false in
      let myDog := if myselfIsRequester then Match.requester_dog row else Match.requested_dog row in
      let partnerDog := if myselfIsRequester then Match.requested_dog row else Match.requester_dog row in
      let myDogGender := Js.toLowerCase (Js.or_else (myDog ≫= Dog.gender) "") in
      let awaitingMyOutcome :=
        String.eqb status "awaiting_confirmation"
        && (String.eqb myDogGender "female" || String.eqb myDogGender "male") in
      let isMaleDogOwner := String.eqb myDogGender "male" in
      let userStatus := status in
      let outcome := head (Match.dog_match_outcomes row) in
      let isCompleted :=
        String.eqb status "completed_success" || String.eqb status "completed_failed" in
      let isHistory :=
        isCompleted || String.eqb status "declined" || String.eqb status "cancelled" in
      let requiresResponse := String.eqb status "pending" && negb myselfIsRequester in
      let canCancel :=
        myselfIsRequester
        && (String.eqb status "pending" || String.eqb status "accepted"
            || String.eqb status "awaiting_confirmation") in
      Some {| View.row := row;
              View.myDog := myDog;
              View.partnerDog := partnerDog;
              View.iAmRequester := myselfIsRequester;
              View.awaitingMyOutcome := awaitingMyOutcome;
              View.isMaleDogOwner := isMaleDogOwner;
              View.requiresResponse := requiresResponse;
              View.canCancel := canCancel;
              View.outcome := outcome;
              View.userStatus := userStatus;
              View.direction := if myselfIsRequester then "sent" else "received";
              View.isCompleted := isCompleted;
              View.isHistory := isHistory |}
  end.

Definition timestampFields : gmap string string :=
  list_to_map
    [("accepted", "accepted_at"); ("declined", "declined_at");
     ("cancelled", "cancelled_at"); ("awaiting_confirmation", "awaiting_confirmation_at")].

(** updateMatchStatus *)
Definition updateMatchStatus (matchId : option Id) (status : string)
    : Async (option Match.row) :=
  _ ← unless_throw (Js.present matchId) (new_Error "matchId is required");
  _ ← unless_throw (has STATUS_SET status) (new_Error "Unsupported match status");
  let patch : gmap string Cell := {[ "status" := Text status ]} in
  patch ← match timestampFields !! status with
          | Some tsField => now ← new_Date; mret (<[ tsField := Instant now ]> patch)
          | None => mret patch
          end;
  patch ← (if String.eqb status "completed_success" || String.eqb status "completed_failed"
           then now ← new_Date; mret (<[ "completed_at" := Instant now ]> patch)
           else mret patch);
  r ← update_match_single patch (the matchId);
  _ ← throw_if_error r;
  mret (data r).

(** acceptMatchRequest, the patch it builds at the instant [now]. *)
Definition accept_patch (now : Timestamp) : gmap string Cell :=
  list_to_map
    [("status", Text "awaiting_confirmation");
     ("accepted_at", Instant now);
     ("awaiting_confirmation_at", Instant now);
     ("last_status_changed_at", Instant now)].

(** acceptMatchRequest *)
Definition acceptMatchRequest (matchId : option Id) : Async (option Match.row) :=
  _ ← unless_throw (Js.present matchId) (new_Error "matchId is required");
  now ← new_Date;
  let patch := accept_patch now in
  r ← update_match_single patch (the matchId);
  _ ← throw_if_error r;
  mret (data r).

Module Submit.
Record args := {
  matchId : option Id;
  outcome : string;
  verifiedDogId : option Id;
  litterSize : Js.value;
  notes : option string;
}.

(** The default [litterSize = null] of the parameter list. *)
Definition defaulted (v : Js.value) : Js.value :=
  match v with
  | Js.Undefined => Js.Null
  | _ => v
  end.
End Submit.

Definition OUTCOMES : list string := ["success"; "failed"; "no_show"].

(** [array.includes(x)] *)
Definition includes (array : list string) (x : string) : bool :=
  existsb (String.eqb x) array.

(** submitMatchOutcome, from its first line to the end of step 2: the
    arguments are checked, the caller is authenticated, the verifying dog
    is fetched and must be the caller's, the match is fetched and must
    involve the dog.  The caller's id, the dog and the match are what the
    rest of the function uses. *)
Definition ensureOwnDogInMatch (a : Submit.args) : Async (Id * Dog.row * Match.row) :=
  _ ← unless_throw (Js.present (Submit.matchId a)) (new_Error "matchId is required");
  _ ← unless_throw (Js.present (Submit.verifiedDogId a)) (new_Error "verifiedDogId is required");
  _ ← unless_throw (includes OUTCOMES (Submit.outcome a)) (new_Error "Invalid outcome");
  auth ← auth_getUser;
  _ ← match auth_error auth with
      | Some e => throw (Auth e)
      | None => mret tt
      end;
  _ ← unless_throw (Js.present (user auth ≫= uid)) (new_Error "Not authenticated");
  let user_id := the (user auth ≫= uid) in
  r ← select_dog_single (the (Submit.verifiedDogId a));
  _ ← throw_if_error r;
  match data r with
  | None => throw (new_Error "Dog not found")
  | Some dog =>
      _ ← throw_when (negb (String.eqb (Js.String_ (Dog.user_id dog)) (Js.String_ (Some user_id))))
            (new_Error "You can only submit outcomes for your own dog");
      r ← select_match_single (the (Submit.matchId a));
      _ ← throw_if_error r;
      match data r with
      | None => throw (new_Error "Match not found")
      | Some match_ =>
          _ ← throw_when
                (negb (String.eqb (Js.String_ (Some (Match.requester_dog_id match_)))
                                  (Js.String_ (Submit.verifiedDogId a)))
                 && negb (String.eqb (Js.String_ (Some (Match.requested_dog_id match_)))
                                     (Js.String_ (Submit.verifiedDogId a))))
                (new_Error "Selected dog is not part of this match");
          mret (user_id, dog, match_)
      end
  end.

Definition ForbiddenOutcome : Exn :=
  new_Error "Male dog's owner may only submit the 'Didn't show up' outcome".

Definition InvalidLitterSize : Exn :=
  new_Error "For success, litter size must be at least 1".

Definition NotesRequired_success : Exn :=
  new_Error "Notes are required for successful breeding".

Definition NotesRequired_no_show : Exn :=
  new_Error "Notes are required for no show outcome".

(** The payload built at the end of step 4. *)
Definition outcome_payload (a : Submit.args) (user_id : Id)
    (finalLitterSize : option Js.number) (trimmedNotes : string) : Outcome.payload :=
  {| Outcome.p_match_id := the (Submit.matchId a);
     Outcome.p_verified_by_user_id := user_id;
     Outcome.p_verified_by_dog_id := the (Submit.verifiedDogId a);
     Outcome.p_outcome := Submit.outcome a;
     Outcome.p_litter_size := finalLitterSize;
     Outcome.p_notes := Js.or_null trimmedNotes |}.

(** submitMatchOutcome, step 4 and the insertion: the litter size and the
    notes by outcome, the payload, the insert. *)
Definition normalizeAndRecord (StringToNumber : string -> Js.number)
    (a : Submit.args) (user_id : Id) : Async (option Outcome.row) :=
  let outcome := Submit.outcome a in
  let trimmedNotes := Js.trim (Js.or_else (Submit.notes a) "") in
  finalLitterSize ←
    (if String.eqb outcome "success" then
       let n := Js.Number StringToNumber (Submit.defaulted (Submit.litterSize a)) in
       _ ← throw_when (negb (Js.isFinite n) || Js.lt n Js.one) InvalidLitterSize;
       _ ← unless_throw (Js.nonempty trimmedNotes) NotesRequired_success;
       mret (Some n)
     else if String.eqb outcome "failed" then
       mret (Some Js.zero)
     else if String.eqb outcome "no_show" then
       _ ← unless_throw (Js.nonempty trimmedNotes) NotesRequired_no_show;
       mret (Some Js.zero)
     else mret None);
  r ← insert_outcome_single (outcome_payload a user_id finalLitterSize trimmedNotes);
  _ ← throw_if_error r;
  mret (data r).

(** submitMatchOutcome, the condition of step 3:
    [dogGender === "male" && outcome !== "no_show"]. *)
Definition gate_closed (a : Submit.args) (dog : Dog.row) : bool :=
  let dogGender := Js.toLowerCase (Js.or_else (Dog.gender dog) "") in
  String.eqb dogGender "male" && negb (String.eqb (Submit.outcome a) "no_show").

(** submitMatchOutcome: the checks up to step 2, the gender gate of step 3,
    then step 4 and the insertion. *)
Definition submitMatchOutcome (StringToNumber : string -> Js.number)
    (a : Submit.args) : Async (option Outcome.row) :=
  '(user_id, dog, _) ← ensureOwnDogInMatch a;
  _ ← throw_when (gate_closed a dog) ForbiddenOutcome;
  normalizeAndRecord StringToNumber a user_id.

(** [.or(`requester_user_id.eq.${userId},requested_user_id.eq.${userId}`)],
    for an id of letters, digits, "-" and "_": the id is interpolated
    unescaped, and an id with a character the filter syntax reserves (a
    comma, a dot, a parenthesis, ...) is read by the backend as something
    else, which this definition does not follow. *)
Definition involves_user (userId : Id) (m : Match.row) : bool :=
  String.eqb (Match.requester_user_id m) userId
  || String.eqb (Match.requested_user_id m) userId.

(** [from("dog_match_requests").select(MATCH_SELECT).or(..)
     .order("requested_at", { ascending: false })] *)
Definition select_matches_of_user (userId : Id) : Async (Response (list Match.record)) :=
  request (fun w =>
    (answer (map (embed w)
               (order_requested_at_desc
                  (List.filter (involves_user userId) (dog_match_requests w)))),
     w)).

(** fetchMatchesForUser *)
Definition fetchMatchesForUser (userId : option Id) : Async (list Match.record) :=
  if negb (Js.present userId) then mret []
  else
    r ← select_matches_of_user (the userId);
    _ ← throw_if_error r;
    mret (default [] (data r)).

(** [.select("requester_dog_id, requested_dog_id")
     .eq("status", "awaiting_confirmation")
     .or(`requester_dog_id.in.(${list}),requested_dog_id.in.(${list})`)],
    where [list] is the ids joined by commas, for ids of letters, digits,
    "-" and "_": an id with a comma is read by the backend as several ids,
    and one with another reserved character as something else, which this
    definition does not follow. *)
Definition awaiting_with (ids : list Id) (m : Match.row) : bool :=
  String.eqb (Match.status m) "awaiting_confirmation"
  && (existsb (String.eqb (Match.requester_dog_id m)) ids
      || existsb (String.eqb (Match.requested_dog_id m)) ids).

Definition select_awaiting_dogs (ids : list Id) : Async (Response (list (Id * Id))) :=
  request (fun w =>
    (answer (map (fun m => (Match.requester_dog_id m, Match.requested_dog_id m))
               (List.filter (awaiting_with ids) (dog_match_requests w))),
     w)).

(** fetchAwaitingDogIds, the body of its [forEach]: the two ids of the row
    are added to the set when they are truthy. *)
Definition add_dogs (awaiting : gset string) (row : Id * Id) : gset string :=
  let awaiting := if Js.nonempty (fst row) then {[ fst row ]} ∪ awaiting else awaiting in
  if Js.nonempty (snd row) then {[ snd row ]} ∪ awaiting else awaiting.

(** fetchAwaitingDogIds; [None] stands for an argument that is not an
    array. *)
Definition fetchAwaitingDogIds (dogIds : option (list (option Id))) : Async (gset string) :=
  match dogIds with
  | None | Some [] => mret ∅
  | Some ids =>
      let filtered := remove_dups (map Js.String_ (List.filter Js.present ids)) in
      if Nat.eqb (length filtered) 0 then mret ∅
      else
        r ← select_awaiting_dogs filtered;
        _ ← throw_if_error r;
        mret (foldl add_dogs ∅ (default [] (data r)))
  end.

(* ===================================================================== *)
(** ** The outcome modal *)
(* ===================================================================== *)

Module Modal.

(** The state of MatchOutcomeModal: its four [useState] cells. *)
Record state := {
  outcome : string;
  litterSize : string;
  notes : string;
  busy : bool;
}.

(** The detail of a "toast" event. *)
Record Toast := { message : string; type : string }.

Definition setLitterSize (v : string) (s : state) : state :=
  {| outcome := outcome s; litterSize := v; notes := notes s; busy := busy s |}.

Definition setBusy (b : bool) (s : state) : state :=
  {| outcome := outcome s; litterSize := litterSize s; notes := notes s; busy := b |}.

(** The effect on [open, match]. *)
Definition onOpen (open : bool) (match_ : option View.t) (s : state) : state :=
  if open then
    if from_option View.isMaleDogOwner false match_
    then {| outcome := "no_show"; litterSize := ""; notes := ""; busy := busy s |}
    else {| outcome := "success"; litterSize := "1"; notes := ""; busy := busy s |}
  else s.

(** The values of the radio buttons the form renders. *)
Definition options (match_ : View.t) : list string :=
  if View.isMaleDogOwner match_ then ["no_show"]
  else ["success"; "failed"; "no_show"].

(** The effect on [outcome]. *)
Definition onOutcome (StringToNumber : string -> Js.number) (s : state) : state :=
  if String.eqb (outcome s) "failed" then setLitterSize "0" s
  else if String.eqb (outcome s) "no_show" then setLitterSize "" s
  else if String.eqb (outcome s) "success" then
    let v := litterSize s in
    let n := Js.Number StringToNumber (Js.Str v) in
    if negb (Js.nonempty v) || negb (Js.isFinite n) || Js.lt n Js.one
    then setLitterSize "1" s
    else setLitterSize v s
  else s.

(** The [onChange] of the litter size input. *)
Definition onLitterSizeChange (StringToNumber : string -> Js.number)
    (val : string) (s : state) : state :=
  if String.eqb (outcome s) "success" then
    let n := Js.Number StringToNumber (Js.Str val) in
    if negb (Js.isFinite n) || Js.lt n Js.one
    then setLitterSize "1" s
    else setLitterSize val s
  else setLitterSize val s.

(** [!notes || notes.trim().length === 0] *)
Definition blank (notes : string) : bool :=
  negb (Js.nonempty notes) || Nat.eqb (String.length (Js.trim notes)) 0.

(** The [disabled] of the submit button. *)
Definition submitDisabled (StringToNumber : string -> Js.number)
    (match_ : View.t) (s : state) : bool :=
  busy s
  || negb (Js.present (Dog.id <$> View.myDog match_))
  || (String.eqb (outcome s) "success"
      && (String.eqb (litterSize s) ""
          || Js.lt (Js.Number StringToNumber (Js.Str (litterSize s))) Js.one
          || blank (notes s)))
  || (String.eqb (outcome s) "no_show" && blank (notes s)).

Definition warning (message : string) : Toast :=
  {| message := message; type := "warning" |}.

(** handleSubmit, from the validation to the argument of [onSubmit]: the
    warning it shows, or the object it submits. *)
Definition validate (StringToNumber : string -> Js.number)
    (match_ : View.t) (s : state) : Toast + Submit.args :=
  if String.eqb (outcome s) "success"
     && (String.eqb (litterSize s) ""
         || Js.lt (Js.Number StringToNumber (Js.Str (litterSize s))) Js.one)
  then inl (warning "For success, litter size must be at least 1")
  else if String.eqb (outcome s) "success" && blank (notes s)
  then inl (warning "Notes are required for successful breeding")
  else if String.eqb (outcome s) "no_show" && blank (notes s)
  then inl (warning "Notes are required for no show outcome")
  else
    let finalLitterSize :=
      if String.eqb (outcome s) "no_show" then Js.zero
      else if String.eqb (outcome s) "failed" then Js.zero
      else Js.Number StringToNumber (Js.Str (litterSize s)) in
    inr {| Submit.matchId := Some (Match.id (Match.columns (View.row match_)));
           Submit.outcome := outcome s;
           Submit.verifiedDogId := Dog.id <$> View.myDog match_;
           Submit.litterSize := Js.Num finalLitterSize;
           Submit.notes := Some (Js.or_else (Some (Js.trim (notes s))) "") |}.

(** [err.message] *)
Definition err_message (e : Exn) : string :=
  match e with
  | Error message _ _ => message
  | Postgrest e => pg_message e
  | Auth e => auth_message e
  end.

(** What one run of handleSubmit leaves behind: the toasts dispatched,
    whether [onClose] was called, and the state. *)
Record handled := { toasts : list Toast; closed : bool; after : state }.

(** handleSubmit, for the [onSubmit] the parent passed. *)
Definition handleSubmit {A} (StringToNumber : string -> Js.number)
    (onSubmit : Submit.args -> Async A) (match_ : View.t) (s : state)
    : World -> handled * World :=
  fun w =>
    if busy s then ({| toasts := []; closed := false; after := s |}, w)
    else
      match validate StringToNumber match_ s with
      | inl toast =>
          ({| toasts := [toast]; closed := false; after := setBusy false s |}, w)
      | inr a =>
          match onSubmit a w with
          | (Fulfilled _, w') =>
              ({| toasts := [{| message := "Outcome recorded"; type := "success" |}];
                  closed := true;
                  after := setBusy false s |}, w')
          | (Rejected err, w') =>
              ({| toasts :=
                    [{| message := Js.or_else (Some (err_message err))
                                     "Failed to record outcome";
                        type := "error" |}];
                  closed := false;
                  after := setBusy false s |}, w')
          end
      end.

End Modal.

(* ===================================================================== *)
(** ** Sample data *)
(* ===================================================================== *)

Module Sample.

(** An instance of the StringToNumber parameter for the examples: on a
    string of decimal digits it is the built-in (the integer, rounded to
    the nearest binary64, ties to even); on every other string it answers
    NaN, which the built-in does not always do. *)
Definition digit (c : ascii) : option Z :=
  let n := Js.code c in
  if ((48 <=? n) && (n <=? 57))%N then Some (Z.of_N n - 48)%Z else None.

Fixpoint digits (acc : Z) (s : string) : option Z :=
  match s with
  | EmptyString => Some acc
  | String c r =>
      match digit c with
      | Some d => digits (10 * acc + d)%Z r
      | None => None
      end
  end.

Definition StringToNumber (s : string) : Js.number :=
  match s with
  | EmptyString => S754_nan
  | _ =>
      match digits 0 s with
      | Some z => binary_normalize 53 1024 z 0 false
      | None => S754_nan
      end
  end.

(** 4 and 2.5 *)
Definition four : Js.number := S754_finite false 4503599627370496 (-50).
Definition two_and_a_half : Js.number := S754_finite false 5629499534213120 (-51).

Definition rex : Dog.row :=
  {| Dog.id := "dog-rex"; Dog.name := Some "Rex";
     Dog.gender := Some "male"; Dog.user_id := Some "user-bob" |}.

Definition luna : Dog.row :=
  {| Dog.id := "dog-luna"; Dog.name := Some "Luna";
     Dog.gender := Some "female"; Dog.user_id := Some "user-ann" |}.

(** Dogs whose gender is spelled in capitals, and not recorded. *)
Definition duke : Dog.row :=
  {| Dog.id := "dog-duke"; Dog.name := Some "Duke";
     Dog.gender := Some "MALE"; Dog.user_id := Some "user-bob" |}.

Definition pixie : Dog.row :=
  {| Dog.id := "dog-pixie"; Dog.name := Some "Pixie";
     Dog.gender := None; Dog.user_id := Some "user-ann" |}.

(** A request of Bob, for [requester] to be paired with [requested], in
    the chat "chat-1". *)
Definition request (requester requested : Dog.row) (status : string) : Match.row :=
  {| Match.id := "match-1";
     Match.status := status;
     Match.contact_id := "chat-1";
     Match.requester_user_id := "user-bob";
     Match.requested_user_id := "user-ann";
     Match.requester_dog_id := Dog.id requester;
     Match.requested_dog_id := Dog.id requested;
     Match.requested_at := Some 1000%Z;
     Match.accepted_at := None;
     Match.declined_at := None;
     Match.cancelled_at := None;
     Match.awaiting_confirmation_at := None;
     Match.completed_at := None;
     Match.last_status_changed_at := None;
     Match.requester_notes := None;
     Match.responder_notes := None |}.

Definition signed_in (who : Id) : AuthResponse :=
  {| user := Some {| uid := Some who |}; auth_error := None |}.

(** A world with the four dogs and the given requests, [who] signed in,
    clocks that advance by one per tick, and a backend that answers. *)
Definition world (who : Id) (requests : list Match.row) : World :=
  {| dogs := [rex; luna; duke; pixie];
     dog_match_requests := requests;
     dog_match_outcomes := [];
     session := signed_in who;
     tick := 0;
     browser_clock := fun n => (5000 + Z.of_nat n)%Z;
     database_clock := fun n => (5000 + Z.of_nat n)%Z;
     fresh_id := fun _ => "row-new";
     refused := fun _ => None |}.

(** Rex and Luna were paired and their owners are to report. *)
Definition awaiting (who : Id) : World :=
world who [request rex luna "awaiting_confirmation"].

Definition submission (dog : Dog.row) (outcome : string) (litterSize : Js.value)
    (notes : option string) : Submit.args :=
  {| Submit.matchId := Some "match-1";
     Submit.outcome := outcome;
     Submit.verifiedDogId := Some (Dog.id dog);
     Submit.litterSize := litterSize;
     Submit.notes := notes |}.

(** The request between [requester] and [requested] as MATCH_SELECT
    returns it. *)
Definition record (requester requested : Dog.row) (status : string) : Match.record :=
{| Match.columns := request requester requested status;
   Match.dog_match_outcomes := [];
   Match.requester_dog := Some requester;
   Match.requested_dog := Some requested |}.

(** The world once the checks of submitMatchOutcome have run: three
    requests went out. *)
Definition checked (w : World) : World := step (step (step w)).

(** The request of Bob when it was made at [at_], with the id [id]. *)
Definition request_at (id : Id) (status : string) (at_ : Z) : Match.row :=
{| Match.id := id;
   Match.status := status;
   Match.contact_id := "chat-1";
   Match.requester_user_id := "user-bob";
   Match.requested_user_id := "user-ann";
   Match.requester_dog_id := "dog-rex";
   Match.requested_dog_id := "dog-luna";
   Match.requested_at := Some at_;
   Match.accepted_at := None;
   Match.declined_at := None;
   Match.cancelled_at := None;
   Match.awaiting_confirmation_at := None;
   Match.completed_at := None;
   Match.last_status_changed_at := None;
   Match.requester_notes := None;
   Match.responder_notes := None |}.

Definition record_at (id : Id) (status : string) (at_ : Z) : Match.record :=
{| Match.columns := request_at id status at_;
   Match.dog_match_outcomes := [];
   Match.requester_dog := Some rex;
   Match.requested_dog := Some luna |}.

(** Bob's request, declined at 4000. *)
Definition declined_at_4000 : Match.row :=
apply_patch {[ "declined_at" := Instant 4000%Z ]} (request rex luna "declined").

Definition proposal (contact : Id) (requester requested : Dog.row) : Create.args :=
  {| Create.contactId := Some contact;
     Create.requesterDogId := Some (Dog.id requester);
     Create.requestedDogId := Some (Dog.id requested);
     Create.requesterUserId := Some "user-bob";
     Create.requestedUserId := None;
     Create.notes := Some "Hello" |}.

End Sample.

(* ===================================================================== *)
(** ** Vocabulary of the properties *)
(* ===================================================================== *)

(** The row an insert of [p] into [dog_match_outcomes] creates when it is
    issued in [w]. *)
Definition stored_outcome (w : World) (p : Outcome.payload) : Outcome.row :=
  new_outcome (fresh_id w (S (tick w))) (database_clock w (S (tick w))) p.

(** The world after that insert. *)
Definition after_outcome (w : World) (p : Outcome.payload) : World :=
  with_outcomes (dog_match_outcomes w ++ [stored_outcome w p]) (step w).

(** [trimmedNotes] and [n] of step 4. *)
Definition trimmedNotes (a : Submit.args) : string :=
  Js.trim (Js.or_else (Submit.notes a) "").

Definition parsedLitterSize (StringToNumber : string -> Js.number) (a : Submit.args)
    : Js.number :=
  Js.Number StringToNumber (Submit.defaulted (Submit.litterSize a)).

(** The gender the gate compares with "male". *)
Definition dogGender (dog : Dog.row) : string :=
  Js.toLowerCase (Js.or_else (Dog.gender dog) "").

(** The row an insert of [p] into [dog_match_requests] creates when it is
    issued in [w], and the world after that insert. *)
Definition stored_request (w : World) (p : Match.payload) : Match.row :=
  new_request (fresh_id w (S (tick w))) (database_clock w (S (tick w))) p.

Definition after_request (w : World) (p : Match.payload) : World :=
  with_requests (dog_match_requests w ++ [stored_request w p]) (step w).

(** The requests of a chat that are in an active status. *)
Definition active_requests (contactId : Id) (w : World) : list Match.row :=
  List.filter
    (fun m => String.eqb (Match.contact_id m) contactId && status_in ACTIVE_STATUS_LIST m)
    (dog_match_requests w).

(** The arguments pass the four checks at the head of createMatchRequest. *)
Definition well_formed (a : Create.args) : Prop :=
  Js.present (Create.contactId a) = true
  ∧ Js.present (Create.requesterDogId a) = true
  ∧ Js.present (Create.requestedDogId a) = true
  ∧ Js.present (Create.requesterUserId a) = true
  ∧ the (Create.requesterDogId a) ≠ the (Create.requestedDogId a).

(** The other owner can be determined: it is given, or the requested dog
    is in the table with an owner. *)
Definition owner_known (a : Create.args) (w : World) : Prop :=
  Js.present (Create.requestedUserId a) = true
  ∨ ∃ dog, dogs_with_id (the (Create.requestedDogId a)) w = [dog]
           ∧ Js.present (Dog.user_id dog) = true.



(** The reading of a timestamp column of a request, by name. *)
Definition timestamp_column (column : string) (r : Match.row) : option Timestamp :=
  if String.eqb column "requested_at" then Match.requested_at r
  else if String.eqb column "accepted_at" then Match.accepted_at r
  else if String.eqb column "declined_at" then Match.declined_at r
  else if String.eqb column "cancelled_at" then Match.cancelled_at r
  else if String.eqb column "awaiting_confirmation_at" then Match.awaiting_confirmation_at r
  else if String.eqb column "completed_at" then Match.completed_at r
  else if String.eqb column "last_status_changed_at" then Match.last_status_changed_at r
  else None.

(** The table after [.update(patch).eq("id", matchId)]. *)
Definition patched_requests (patch : gmap string Cell) (matchId : Id) (w : World)
    : list Match.row :=
  map (fun m => if String.eqb (Match.id m) matchId then apply_patch patch m else m)
      (dog_match_requests w).

(** The gender mapMatchRecord compares with "female" and "male". *)
Definition myDogGender (v : View.t) : string :=
  Js.toLowerCase (Js.or_else (View.myDog v ≫= Dog.gender) "").

(** The errors submitMatchOutcome makes itself and can end with. *)
Definition submitMatchOutcome_errors : list Exn :=
  [ new_Error "matchId is required";
    new_Error "verifiedDogId is required";
    new_Error "Invalid outcome";
    new_Error "Not authenticated";
    new_Error "You can only submit outcomes for your own dog";
    new_Error "Selected dog is not part of this match";
    ForbiddenOutcome;
    InvalidLitterSize;
    NotesRequired_success;
    NotesRequired_no_show ].

(** Between [w] and [w'] nothing was written: the tables, the session and
    the oracles are the same, and only the count of effects moved on. *)
Definition only_time_passed (w w' : World) : Prop :=
  dogs w' = dogs w
  ∧ dog_match_requests w' = dog_match_requests w
  ∧ dog_match_outcomes w' = dog_match_outcomes w
  ∧ session w' = session w
  ∧ browser_clock w' = browser_clock w
  ∧ database_clock w' = database_clock w
  ∧ fresh_id w' = fresh_id w
  ∧ refused w' = refused w
  ∧ tick w <= tick w'.

(** A computation that writes nothing, however it ends. *)
Definition read_only {A} (m : Async A) : Prop :=
  ∀ w c w', m w = (c, w') → only_time_passed w w'.

(** [b] is not strictly newer than [a]. *)
Definition not_newer (a b : Match.row) : Prop :=
  strictly_newer (Match.requested_at b) (Match.requested_at a) = false.

(** A list of requests in which no request is followed by a newer one. *)
Definition newest_first (l : list Match.row) : Prop := StronglySorted not_newer l.

(** The ids the application has are UUIDs and the like: letters, digits,
    "-" and "_".  The client puts such an id into the text of a filter and
    the backend reads it back as itself.  The characters to which the
    syntax of filters gives a meaning (comma, dot, colon, parentheses,
    quotes, backslash, white space) are not among them: what the
    backend makes of an id with one of those is outside the model, and the
    properties of the two queries that interpolate ids are stated for
    plain ids. *)
Definition id_char (c : ascii) : bool :=
  let n := Js.code c in
  ((48 <=? n) && (n <=? 57) || (65 <=? n) && (n <=? 90) || (97 <=? n) && (n <=? 122)
   || (n =? 45) || (n =? 95))%N.

Fixpoint plain_id (s : string) : bool :=
  match s with
  | EmptyString => true
  | String c r => id_char c && plain_id r
  end.

(** The requests [userId] takes part in. *)
Definition requests_of_user (userId : Id) (w : World) : list Match.row :=
  List.filter (involves_user userId) (dog_match_requests w).

(** The columns of a request no update of the service names: [m'] has
    those of [m]. *)
Definition same_request (m m' : Match.row) : Prop :=
  Match.id m' = Match.id m
  ∧ Match.contact_id m' = Match.contact_id m
  ∧ Match.requester_user_id m' = Match.requester_user_id m
  ∧ Match.requested_user_id m' = Match.requested_user_id m
  ∧ Match.requester_dog_id m' = Match.requester_dog_id m
  ∧ Match.requested_dog_id m' = Match.requested_dog_id m
  ∧ Match.requested_at m' = Match.requested_at m
  ∧ Match.requester_notes m' = Match.requester_notes m
  ∧ Match.responder_notes m' = Match.responder_notes m.

(** The table [rows'] is the table [rows] with, at most, the status and
    the instants of the requests whose id is [matchId] changed. *)
Definition only_updated (matchId : Id) (rows rows' : list Match.row) : Prop :=
  Forall2 (fun m m' => same_request m m' ∧ (Match.id m ≠ matchId → m' = m)) rows rows'.

(* ===================================================================== *)
(** ** Promises: running a sequence of awaits *)
(* ===================================================================== *)

Section Promises.
Context {A B : Type}.
Implicit Types (m : Async A) (k : A → Async B) (w : World).

Lemma bind_run m k w :
  (m ≫= k) w =
  match m w with
  | (Fulfilled a, w') => k a w'
  | (Rejected e, w') => (Rejected e, w')
  end.
Proof. reflexivity. Qed.

Lemma bind_fulfilled_l m k w a w1 :
  m w = (Fulfilled a, w1) → (m ≫= k) w = k a w1.
Proof. intros H. rewrite bind_run, H. reflexivity. Qed.

Lemma bind_rejected_l m k w e w1 :
  m w = (Rejected e, w1) → (m ≫= k) w = (Rejected e, w1).
Proof. intros H. rewrite bind_run, H. reflexivity. Qed.

Lemma bind_fulfilled_inv m k w b w' :
  (m ≫= k) w = (Fulfilled b, w') →
  ∃ a w1, m w = (Fulfilled a, w1) ∧ k a w1 = (Fulfilled b, w').
Proof.
  rewrite bind_run. destruct (m w) as [[a|e] w1]; intros H.
  - exists a, w1. split; [reflexivity | exact H].
  - discriminate H.
Qed.
End Promises.

Lemma unless_throw_inv ok e u w w' :
  unless_throw ok e w = (Fulfilled u, w') → ok = true ∧ w' = w.
Proof.
  destruct ok; intros H; [|discriminate H].
  injection H as _ <-. split; reflexivity.
Qed.

Lemma throw_when_inv bad e u w w' :
  throw_when bad e w = (Fulfilled u, w') → bad = false ∧ w' = w.
Proof.
  destruct bad; intros H; [discriminate H|].
  injection H as _ <-. split; reflexivity.
Qed.

Lemma throw_if_error_inv {A} (r : Response A) u w w' :
  throw_if_error r w = (Fulfilled u, w') → error r = None ∧ w' = w.
Proof.
  unfold throw_if_error. destruct (error r); intros H; [discriminate H|].
  injection H as _ <-. split; reflexivity.
Qed.

(** Peels the first statement off a sequence that ran to fulfilment: [H]
    becomes the run of the rest, [H1] what the statement established. *)
Ltac await_as H H1 :=
  let a := fresh "x" in
  let w := fresh "w" in
  apply bind_fulfilled_inv in H as (a & w & H1 & H);
  first
    [ apply unless_throw_inv in H1 as [H1 ->]
    | apply throw_when_inv in H1 as [H1 ->]
    | apply throw_if_error_inv in H1 as [H1 ->]
    | idtac ].

Tactic Notation "await" hyp(H) "as" ident(H1) := await_as H H1.
Tactic Notation "await" hyp(H) := let H1 := fresh "Hstep" in await_as H H1.

(** Runs a check that passes. *)
Ltac run_check :=
  rewrite bind_run; cbn [unless_throw throw_when mret Async_ret negb orb andb].

(* ===================================================================== *)
(** ** Strings and numbers *)
(* ===================================================================== *)

Lemma nonempty_false s : Js.nonempty s = false ↔ s = "".
Proof.
  unfold Js.nonempty. rewrite negb_false_iff. apply String.eqb_eq.
Qed.

Lemma nonempty_true s : Js.nonempty s = true ↔ s ≠ "".
Proof.
  unfold Js.nonempty. rewrite negb_true_iff. apply String.eqb_neq.
Qed.

(** The literal 1 is the binary64 value the runtime computes for it. *)
Lemma one_is_SFone : Js.one = SFone 53 1024.
Proof. reflexivity. Qed.

(** On numbers that are not NaN, [1 <= n] is the negation of [n < 1]. *)
Lemma le_one_not_lt n :
  n ≠ S754_nan → Js.le Js.one n = negb (Js.lt n Js.one).
Proof.
  unfold Js.le, Js.lt, SFleb, SFltb, Js.one.
  destruct n as [s|s| |s m e]; intros Hn.
  - destruct s; reflexivity.
  - destruct s; reflexivity.
  - congruence.
  - destruct s; [reflexivity|].
    unfold SFcompare.
    rewrite (Z.compare_antisym e (-52)).
    pose proof (Pos.compare_cont_antisym m 4503599627370496 Eq) as Hm.
    cbn [CompOpp] in Hm. rewrite <- Hm.
    destruct (e ?= -52)%Z; try reflexivity.
    destruct (Pos.compare_cont Eq m 4503599627370496); reflexivity.
Qed.

(** What the guard of the success branch lets through. *)
Lemma litter_guard n :
  negb (Js.isFinite n) || Js.lt n Js.one = false ↔
  Js.isFinite n = true ∧ Js.le Js.one n = true.
Proof.
  rewrite orb_false_iff, negb_false_iff. split.
  - intros [Hf Hlt]. split; [exact Hf|].
    rewrite le_one_not_lt, Hlt; [reflexivity|].
    intros ->. discriminate Hf.
  - intros [Hf Hle]. split; [exact Hf|].
    rewrite le_one_not_lt in Hle.
    + apply negb_true_iff in Hle. exact Hle.
    + intros ->. discriminate Hf.
Qed.

(** A number that is not below 1 is not negative. *)
Lemma le_one_nonNegative n : Js.le Js.one n = true → Js.nonNegative n = true.
Proof.
  unfold Js.le, SFleb, Js.one.
  destruct n as [s|s| |s m e]; try discriminate; try reflexivity.
  - destruct s; [discriminate | reflexivity].
  - destruct s; [discriminate | reflexivity].
Qed.

(** The sample numbers are the binary64 values of 4 and of 5 / 2. *)
Lemma four_is_4 : Sample.four = binary_normalize 53 1024 4 0 false.
Proof. reflexivity. Qed.

Lemma two_and_a_half_is_5_over_2 :
  Sample.two_and_a_half
  = SFdiv 53 1024 (binary_normalize 53 1024 5 0 false) (binary_normalize 53 1024 2 0 false).
Proof. reflexivity. Qed.

Example trim_both_ends : Js.trim "  went well " = "went well".
Proof. reflexivity. Qed.

Example trim_blanks : Js.trim (String (ascii_of_nat 9) (String (ascii_of_nat 160) " ")) = "".
Proof. reflexivity. Qed.

Example toLowerCase_mixed : Js.toLowerCase "MaLe" = "male".
Proof. reflexivity. Qed.

(** The characters [toLowerCase] sends to a given small letter of "male"
    are that letter and its capital. *)
Lemma lower_unit_male c :
  (Js.lower_unit c = "m"%char → c = "m"%char ∨ c = "M"%char)
  ∧ (Js.lower_unit c = "a"%char → c = "a"%char ∨ c = "A"%char)
  ∧ (Js.lower_unit c = "l"%char → c = "l"%char ∨ c = "L"%char)
  ∧ (Js.lower_unit c = "e"%char → c = "e"%char ∨ c = "E"%char).
Proof.
  destruct c as [[] [] [] [] [] [] [] []];
    (repeat split; intros H; first [discriminate H | left; reflexivity | right; reflexivity]).
Qed.

(** The strings whose lower case is "male" are its sixteen spellings in
    small letters and capitals. *)
Lemma toLowerCase_male g :
  Js.toLowerCase g = "male" ↔
  ∃ c1 c2 c3 c4,
    g = String c1 (String c2 (String c3 (String c4 "")))
    ∧ (c1 = "m"%char ∨ c1 = "M"%char) ∧ (c2 = "a"%char ∨ c2 = "A"%char)
    ∧ (c3 = "l"%char ∨ c3 = "L"%char) ∧ (c4 = "e"%char ∨ c4 = "E"%char).
Proof.
  split.
  - destruct g as [|c1 [|c2 [|c3 [|c4 [|c5 g]]]]]; cbn [Js.toLowerCase];
      intros H; try discriminate H.
    injection H as H1 H2 H3 H4.
    exists c1, c2, c3, c4. split; [reflexivity|].
    repeat split; apply lower_unit_male; assumption.
  - intros (c1 & c2 & c3 & c4 & -> & H1 & H2 & H3 & H4).
    destruct H1 as [-> | ->], H2 as [-> | ->], H3 as [-> | ->], H4 as [-> | ->];
      reflexivity.
Qed.

(* ===================================================================== *)
(** ** submitMatchOutcome *)
(* ===================================================================== *)

Lemma includes_OUTCOMES x :
  includes OUTCOMES x = true ↔ x = "success" ∨ x = "failed" ∨ x = "no_show".
Proof.
  unfold includes, OUTCOMES. cbn [existsb].
  rewrite orb_false_r, !orb_true_iff, !String.eqb_eq. tauto.
Qed.

(** A request the backend does not refuse is served. *)
Lemma request_served {A} (serve : World → Response A * World) w :
  refused w (tick w) = None →
  request serve w = (Fulfilled (serve (step w)).1, (serve (step w)).2).
Proof.
  intros H. unfold request. rewrite H. destruct (serve (step w)); reflexivity.
Qed.

Lemma request_refused {A} (serve : World → Response A * World) w e :
  refused w (tick w) = Some e →
  request serve w = (Fulfilled (refusal e), step w).
Proof. intros H. unfold request. rewrite H. reflexivity. Qed.

(** A request whose answer carries no error was served. *)
Lemma request_inv {A} (serve : World → Response A * World) w r w' :
  request serve w = (Fulfilled r, w') → error r = None →
  refused w (tick w) = None ∧ serve (step w) = (r, w').
Proof.
  unfold request. destruct (refused w (tick w)) as [e|].
  - intros H Hr. injection H as <- _. discriminate Hr.
  - destruct (serve (step w)) as [r0 w0]. intros H _.
    injection H as <- <-. split; reflexivity.
Qed.

Lemma single_answer {A} (rows : list A) r :
  data (single rows) = Some r → rows = [r].
Proof.
  destruct rows as [|x [|y rows]]; cbn; intros H; try discriminate H.
  congruence.
Qed.

Section SubmitMatchOutcome.
Variable StringToNumber : string → Js.number.

Lemma submitMatchOutcome_after_checks a w user_id dog match_ w1 :
  ensureOwnDogInMatch a w = (Fulfilled (user_id, dog, match_), w1) →
  submitMatchOutcome StringToNumber a w =
    if gate_closed a dog then (Rejected ForbiddenOutcome, w1)
    else normalizeAndRecord StringToNumber a user_id w1.
Proof.
  intros H. unfold submitMatchOutcome.
  rewrite (bind_fulfilled_l _ _ _ _ _ H). rewrite bind_run.
  destruct (gate_closed a dog); reflexivity.
Qed.

Lemma submitMatchOutcome_fulfilled_inv a w r w' :
  submitMatchOutcome StringToNumber a w = (Fulfilled r, w') →
  ∃ user_id dog match_ w1,
    ensureOwnDogInMatch a w = (Fulfilled (user_id, dog, match_), w1)
    ∧ gate_closed a dog = false
    ∧ normalizeAndRecord StringToNumber a user_id w1 = (Fulfilled r, w').
Proof.
  intros H. unfold submitMatchOutcome in H.
  apply bind_fulfilled_inv in H as ([[user_id dog] match_] & w1 & Hchecks & H).
  await H.
  exists user_id, dog, match_, w1. auto.
Qed.

(** What the checks up to step 2 establish. *)
Lemma ensureOwnDogInMatch_inv a w user_id dog match_ w1 :
  ensureOwnDogInMatch a w = (Fulfilled (user_id, dog, match_), w1) →
  Js.present (Submit.matchId a) = true
  ∧ Js.present (Submit.verifiedDogId a) = true
  ∧ includes OUTCOMES (Submit.outcome a) = true
  ∧ In dog (dogs w)
  ∧ Dog.id dog = the (Submit.verifiedDogId a)
  ∧ Js.String_ (Dog.user_id dog) = user_id
  ∧ In match_ (dog_match_requests w)
  ∧ Match.id match_ = the (Submit.matchId a).
Proof.
  intros H. unfold ensureOwnDogInMatch in H.
  await H. await H. await H.
  apply bind_fulfilled_inv in H as (auth & w2 & Hauth & H).
  injection Hauth as <- <-.
  apply bind_fulfilled_inv in H as (? & ? & Hae & H).
  destruct (auth_error (session w)); [discriminate Hae|]. injection Hae as _ <-.
  await H. cbv zeta in H.
  apply bind_fulfilled_inv in H as (rd & w3 & Hdog & H).
  await H.
  apply request_inv in Hdog as [_ Hdog]; [|assumption].
  injection Hdog as <- <-.
  destruct (data (single _)) as [d|] eqn:Hd; [|discriminate H].
  apply single_answer in Hd.
  await H as Howner. apply negb_false_iff, String.eqb_eq in Howner.
  apply bind_fulfilled_inv in H as (rm & w4 & Hmatch & H).
  await H.
  apply request_inv in Hmatch as [_ Hmatch]; [|assumption].
  injection Hmatch as <- <-.
  destruct (data (single _)) as [m|] eqn:Hm; [|discriminate H].
  apply single_answer in Hm.
  await H. injection H as <- <- <- <-.
  assert (Hind : In d (dogs_with_id (the (Submit.verifiedDogId a)) (step (step w))))
    by (rewrite Hd; left; reflexivity).
  assert (Hinm : In m (matches_with_id (the (Submit.matchId a)) (step (step (step w)))))
    by (rewrite Hm; left; reflexivity).
  apply filter_In in Hind as [Hind Hdid], Hinm as [Hinm Hmid].
  apply String.eqb_eq in Hdid, Hmid.
  repeat split; assumption.
Qed.
End SubmitMatchOutcome.

Lemma String_the v : Js.present v = true → Js.String_ v = the v.
Proof. destruct v; [reflexivity | discriminate]. Qed.

(** When the checks up to step 2 pass: the arguments are there, the caller
    is signed in and owns the one dog with the given id, that dog is one of
    the two of the one match with the given id, and the backend answers. *)
Lemma ensureOwnDogInMatch_passes a w caller dog match_ :
  Js.present (Submit.matchId a) = true →
  Js.present (Submit.verifiedDogId a) = true →
  includes OUTCOMES (Submit.outcome a) = true →
  session w = {| user := Some {| uid := Some caller |}; auth_error := None |} →
  Js.nonempty caller = true →
  reliable_from (tick w) w →
  dogs_with_id (the (Submit.verifiedDogId a)) w = [dog] →
  Js.String_ (Dog.user_id dog) = caller →
  matches_with_id (the (Submit.matchId a)) w = [match_] →
  Match.requester_dog_id match_ = the (Submit.verifiedDogId a)
  ∨ Match.requested_dog_id match_ = the (Submit.verifiedDogId a) →
  ensureOwnDogInMatch a w = (Fulfilled (caller, dog, match_), step (step (step w))).
Proof.
  intros Hm Hd Ho Hsession Hcaller Hreliable Hdog Howner Hmatch Hpart.
  unfold ensureOwnDogInMatch. rewrite Hm, Hd, Ho. do 3 run_check.
  rewrite bind_run. cbn [auth_getUser]. rewrite Hsession. cbn [auth_error user].
  run_check. cbn [mbind option_bind uid Js.present]. rewrite Hcaller. run_check.
  rewrite bind_run. unfold select_dog_single.
  rewrite (request_served _ (step w)); [|apply (Hreliable (S (tick w))); lia].
  cbn [fst snd].
  change (dogs_with_id _ (step (step w))) with (dogs_with_id (the (Submit.verifiedDogId a)) w).
  rewrite Hdog. cbn [single answer]. run_check. cbn [throw_if_error error data answer mret Async_ret].
  rewrite Howner. cbn [the default Js.String_]. rewrite String.eqb_refl. run_check.
  rewrite bind_run. unfold select_match_single.
  rewrite (request_served _ (step (step w))); [|apply (Hreliable (S (S (tick w)))); lia].
  cbn [fst snd].
  change (matches_with_id _ (step (step (step w))))
    with (matches_with_id (the (Submit.matchId a)) w).
  rewrite Hmatch. cbn [single answer]. run_check. cbn [throw_if_error error data answer mret Async_ret].
  rewrite (String_the _ Hd).
  assert (Hin : negb (Match.requester_dog_id match_ =? the (Submit.verifiedDogId a))
                && negb (Match.requested_dog_id match_ =? the (Submit.verifiedDogId a))
                = false).
  { apply andb_false_iff. rewrite !negb_false_iff, !String.eqb_eq. exact Hpart. }
  cbn [Js.String_]. rewrite Hin. run_check. reflexivity.
Qed.


Lemma gate_closed_true a dog :
  gate_closed a dog = true ↔ dogGender dog = "male" ∧ Submit.outcome a ≠ "no_show".
Proof.
  unfold gate_closed, dogGender. cbv zeta.
  rewrite andb_true_iff, negb_true_iff, String.eqb_eq, String.eqb_neq. tauto.
Qed.

Lemma gate_closed_false a dog :
  gate_closed a dog = false ↔ dogGender dog ≠ "male" ∨ Submit.outcome a = "no_show".
Proof.
  unfold gate_closed, dogGender. cbv zeta.
  rewrite andb_false_iff, negb_false_iff, String.eqb_eq, String.eqb_neq. tauto.
Qed.

(** The insert that ends submitMatchOutcome, when the backend serves it. *)
Lemma record_served p w :
  refused w (tick w) = None →
  (r ← insert_outcome_single p; _ ← throw_if_error r; mret (data r)) w
  = (Fulfilled (Some (stored_outcome w p)), after_outcome w p).
Proof.
  intros H. rewrite bind_run. unfold insert_outcome_single.
  rewrite (request_served _ _ H). reflexivity.
Qed.

Lemma record_inv p w r w' :
  (r ← insert_outcome_single p; _ ← throw_if_error r; mret (data r)) w
  = (Fulfilled r, w') →
  refused w (tick w) = None ∧ r = Some (stored_outcome w p) ∧ w' = after_outcome w p.
Proof.
  intros H. await H as Hreq. await H as Herr.
  apply request_inv in Hreq as [Hserved Hreq]; [|assumption].
  injection Hreq as <- <-. injection H as <- <-. auto.
Qed.

Section NormalizeAndRecord.
Variable StringToNumber : string → Js.number.
Implicit Types (a : Submit.args) (user_id : Id) (w : World).

Local Abbreviation n a := (parsedLitterSize StringToNumber a).

Lemma normalizeAndRecord_success a user_id w :
  Submit.outcome a = "success" →
  normalizeAndRecord StringToNumber a user_id w =
    if negb (Js.isFinite (n a)) || Js.lt (n a) Js.one
    then (Rejected InvalidLitterSize, w)
    else if Js.nonempty (trimmedNotes a)
    then (r ← insert_outcome_single
                (outcome_payload a user_id (Some (n a)) (trimmedNotes a));
          _ ← throw_if_error r; mret (data r)) w
    else (Rejected NotesRequired_success, w).
Proof.
  intros Ho. unfold normalizeAndRecord, n, parsedLitterSize, trimmedNotes.
  cbv zeta. rewrite Ho. change ("success" =? "success") with true. cbv iota.
  rewrite !bind_run. unfold throw_when, unless_throw.
  destruct (_ || _); [reflexivity|].
  destruct (Js.nonempty _); reflexivity.
Qed.

Lemma normalizeAndRecord_failed a user_id w :
  Submit.outcome a = "failed" →
  normalizeAndRecord StringToNumber a user_id w =
    (r ← insert_outcome_single
           (outcome_payload a user_id (Some Js.zero) (trimmedNotes a));
     _ ← throw_if_error r; mret (data r)) w.
Proof.
  intros Ho. unfold normalizeAndRecord, trimmedNotes.
  cbv zeta. rewrite Ho. reflexivity.
Qed.

Lemma normalizeAndRecord_no_show a user_id w :
  Submit.outcome a = "no_show" →
  normalizeAndRecord StringToNumber a user_id w =
    if Js.nonempty (trimmedNotes a)
    then (r ← insert_outcome_single
                (outcome_payload a user_id (Some Js.zero) (trimmedNotes a));
          _ ← throw_if_error r; mret (data r)) w
    else (Rejected NotesRequired_no_show, w).
Proof.
  intros Ho. unfold normalizeAndRecord, trimmedNotes.
  cbv zeta. rewrite Ho. change ("no_show" =? "success") with false.
  change ("no_show" =? "failed") with false. change ("no_show" =? "no_show") with true.
  cbv iota. rewrite !bind_run. unfold unless_throw.
  destruct (Js.nonempty _); reflexivity.
Qed.

(** Step 4 never raises the error of the gate. *)
Lemma normalizeAndRecord_not_forbidden a user_id w w' :
  includes OUTCOMES (Submit.outcome a) = true →
  normalizeAndRecord StringToNumber a user_id w ≠ (Rejected ForbiddenOutcome, w').
Proof.
  intros Ho H. apply includes_OUTCOMES in Ho as [Ho | [Ho | Ho]].
  - rewrite (normalizeAndRecord_success _ _ _ Ho) in H.
    destruct (_ || _); [discriminate H|].
    destruct (Js.nonempty _); [|discriminate H].
    rewrite bind_run in H. unfold insert_outcome_single, request in H.
    destruct (refused w (tick w)); discriminate H.
  - rewrite (normalizeAndRecord_failed _ _ _ Ho) in H.
    rewrite bind_run in H. unfold insert_outcome_single, request in H.
    destruct (refused w (tick w)); discriminate H.
  - rewrite (normalizeAndRecord_no_show _ _ _ Ho) in H.
    destruct (Js.nonempty _); [|discriminate H].
    rewrite bind_run in H. unfold insert_outcome_single, request in H.
    destruct (refused w (tick w)); discriminate H.
Qed.

(** What a fulfilled step 4 stored. *)
Lemma normalizeAndRecord_inv a user_id w r w' :
  includes OUTCOMES (Submit.outcome a) = true →
  normalizeAndRecord StringToNumber a user_id w = (Fulfilled r, w') →
  ∃ size,
    r = Some (stored_outcome w (outcome_payload a user_id (Some size) (trimmedNotes a)))
    ∧ w' = after_outcome w (outcome_payload a user_id (Some size) (trimmedNotes a))
    ∧ refused w (tick w) = None
    ∧ ((Submit.outcome a = "success" ∧ size = n a
        ∧ Js.isFinite size = true ∧ Js.le Js.one size = true
        ∧ trimmedNotes a ≠ "")
       ∨ (Submit.outcome a = "failed" ∧ size = Js.zero)
       ∨ (Submit.outcome a = "no_show" ∧ size = Js.zero ∧ trimmedNotes a ≠ "")).
Proof.
  intros Ho H. apply includes_OUTCOMES in Ho as [Ho | [Ho | Ho]].
  - rewrite (normalizeAndRecord_success _ _ _ Ho) in H.
    destruct (_ || _) eqn:Hguard; [discriminate H|].
    destruct (Js.nonempty _) eqn:Hnotes; [|discriminate H].
    apply litter_guard in Hguard as [Hfin Hle]. apply nonempty_true in Hnotes.
    apply record_inv in H as (Hserved & -> & ->).
    exists (n a). repeat split; try assumption. left. auto.
  - rewrite (normalizeAndRecord_failed _ _ _ Ho) in H.
    apply record_inv in H as (Hserved & -> & ->).
    exists Js.zero. repeat split; try assumption. right. left. auto.
  - rewrite (normalizeAndRecord_no_show _ _ _ Ho) in H.
    destruct (Js.nonempty _) eqn:Hnotes; [|discriminate H].
    apply nonempty_true in Hnotes.
    apply record_inv in H as (Hserved & -> & ->).
    exists Js.zero. repeat split; try assumption. right. right. auto.
Qed.
End NormalizeAndRecord.

Lemma stored_outcome_in w p : In (stored_outcome w p) (dog_match_outcomes (after_outcome w p)).
Proof. unfold after_outcome. cbn. apply in_or_app. right. left. reflexivity. Qed.

Section SubmitMatchOutcomeProperties.
Variable StringToNumber : string → Js.number.
Implicit Types (a : Submit.args) (w : World) (dog : Dog.row).

Local Abbreviation submit := (submitMatchOutcome StringToNumber).
Local Abbreviation n a := (parsedLitterSize StringToNumber a).

(** What a fulfilled call went through and stored. *)
Lemma submitMatchOutcome_inv a w r w' :
  submit a w = (Fulfilled r, w') →
  ∃ user_id dog match_ w1 size,
    ensureOwnDogInMatch a w = (Fulfilled (user_id, dog, match_), w1)
    ∧ gate_closed a dog = false
    ∧ r = Some (stored_outcome w1 (outcome_payload a user_id (Some size) (trimmedNotes a)))
    ∧ w' = after_outcome w1 (outcome_payload a user_id (Some size) (trimmedNotes a))
    ∧ ((Submit.outcome a = "success" ∧ size = n a
        ∧ Js.isFinite size = true ∧ Js.le Js.one size = true
        ∧ trimmedNotes a ≠ "")
       ∨ (Submit.outcome a = "failed" ∧ size = Js.zero)
       ∨ (Submit.outcome a = "no_show" ∧ size = Js.zero ∧ trimmedNotes a ≠ "")).
Proof.
  intros H.
  apply submitMatchOutcome_fulfilled_inv in H as (user_id & dog & match_ & w1 & Hc & Hg & H).
  pose proof (ensureOwnDogInMatch_inv _ _ _ _ _ _ Hc) as (_ & _ & Ho & _).
  apply (normalizeAndRecord_inv _ _ _ _ _ _ Ho) in H as (size & -> & -> & _ & Hsize).
  exists user_id, dog, match_, w1, size. auto.
Qed.

(** C1: when the verifying dog's gender is male, submitOutcome succeeds
    only with the outcome no_show, and with success or failed it fails
    with ForbiddenOutcome; when the verifying dog is female the gate does
    nothing: the call goes on to step 4 and never fails with
    ForbiddenOutcome.  The verifying dog is the one the checks of steps 1
    and 2 fetched. *)
Theorem submitMatchOutcome_role_gate a w user_id dog match_ w1 :
  ensureOwnDogInMatch a w = (Fulfilled (user_id, dog, match_), w1) →
  (Dog.gender dog = Some "male" →
     (∀ r w', submit a w = (Fulfilled r, w') → Submit.outcome a = "no_show")
     ∧ (Submit.outcome a = "success" ∨ Submit.outcome a = "failed" →
        submit a w = (Rejected ForbiddenOutcome, w1)))
  ∧ (Dog.gender dog = Some "female" →
     submit a w = normalizeAndRecord StringToNumber a user_id w1
     ∧ ∀ w', submit a w ≠ (Rejected ForbiddenOutcome, w')).
Proof.
  intros Hc. pose proof (submitMatchOutcome_after_checks StringToNumber _ _ _ _ _ _ Hc) as Hrun.
  split; intros Hg.
  - assert (Hmale : dogGender dog = "male") by (unfold dogGender; rewrite Hg; reflexivity).
    split.
    + intros r w' H. rewrite H in Hrun.
      destruct (gate_closed a dog) eqn:Hgate; [discriminate Hrun|].
      apply gate_closed_false in Hgate as [Hgate | Hgate]; [contradiction | exact Hgate].
    + intros Ho. rewrite Hrun.
      assert (Hgate : gate_closed a dog = true).
      { apply gate_closed_true. split; [exact Hmale|].
        destruct Ho as [-> | ->]; discriminate. }
      rewrite Hgate. reflexivity.
  - assert (Hgate : gate_closed a dog = false).
    { apply gate_closed_false. left. unfold dogGender. rewrite Hg. discriminate. }
    rewrite Hgate in Hrun. split; [exact Hrun|].
    intros w'. rewrite Hrun. apply normalizeAndRecord_not_forbidden.
    apply (ensureOwnDogInMatch_inv _ _ _ _ _ _ Hc).
Qed.

(** C10: the gate looks at nothing but the dog's gender put in lower
    case: if that is "male" (whatever the case of the letters stored) any
    outcome other than no_show is refused with ForbiddenOutcome; if it is
    anything else (female, empty, missing, any other value) or the
    outcome is no_show, the call goes on to step 4, which does not depend
    on the dog, and never fails with ForbiddenOutcome. *)
Theorem submitMatchOutcome_gate_lowercased_male a w user_id dog match_ w1 :
  ensureOwnDogInMatch a w = (Fulfilled (user_id, dog, match_), w1) →
  (Js.toLowerCase (Js.or_else (Dog.gender dog) "") = "male" →
     Submit.outcome a ≠ "no_show" →
     submit a w = (Rejected ForbiddenOutcome, w1))
  ∧ (Js.toLowerCase (Js.or_else (Dog.gender dog) "") ≠ "male" ∨ Submit.outcome a = "no_show" →
     submit a w = normalizeAndRecord StringToNumber a user_id w1
     ∧ ∀ w', submit a w ≠ (Rejected ForbiddenOutcome, w')).
Proof.
  intros Hc. pose proof (submitMatchOutcome_after_checks StringToNumber _ _ _ _ _ _ Hc) as Hrun.
  split.
  - intros Hmale Ho. rewrite Hrun.
    assert (Hgate : gate_closed a dog = true) by (apply gate_closed_true; auto).
    rewrite Hgate. reflexivity.
  - intros Hopen.
    assert (Hgate : gate_closed a dog = false) by (apply gate_closed_false; exact Hopen).
    rewrite Hgate in Hrun. split; [exact Hrun|].
    intros w'. rewrite Hrun. apply normalizeAndRecord_not_forbidden.
    apply (ensureOwnDogInMatch_inv _ _ _ _ _ _ Hc).
Qed.
End SubmitMatchOutcomeProperties.

Section LitterSizeAndNotes.
Variable StringToNumber : string → Js.number.
Implicit Types (a : Submit.args) (w : World) (dog : Dog.row).

Local Abbreviation submit := (submitMatchOutcome StringToNumber).
Local Abbreviation n a := (parsedLitterSize StringToNumber a).

(** C2: a fulfilled call has stored a row; with the outcome success its
    litter size is the parsed input, which is finite and at least 1; with
    failed or no_show it is 0 whatever the input.  A success submission
    that reaches step 4 with an input that does not parse as a finite
    number at least 1 fails with InvalidLitterSize. *)
Theorem submitMatchOutcome_litter_size a w :
  (∀ r w', submit a w = (Fulfilled r, w') →
     ∃ row, r = Some row ∧ In row (dog_match_outcomes w')
       ∧ (Submit.outcome a = "success" →
          Outcome.litter_size row = Some (n a)
          ∧ Js.isFinite (n a) = true ∧ Js.le Js.one (n a) = true)
       ∧ (Submit.outcome a = "failed" ∨ Submit.outcome a = "no_show" →
          Outcome.litter_size row = Some Js.zero))
  ∧ (∀ user_id dog match_ w1,
       ensureOwnDogInMatch a w = (Fulfilled (user_id, dog, match_), w1) →
       dogGender dog ≠ "male" →
       Submit.outcome a = "success" →
       Js.isFinite (n a) && Js.le Js.one (n a) = false →
       submit a w = (Rejected InvalidLitterSize, w1)).
Proof.
  split.
  - intros r w' H.
    apply submitMatchOutcome_inv in H
      as (user_id & dog & match_ & w1 & size & _ & _ & -> & -> & Hsize).
    eexists. split; [reflexivity|]. split; [apply stored_outcome_in|].
    destruct Hsize as [(Ho & -> & Hfin & Hle & _) | [(Ho & ->) | (Ho & -> & _)]];
      rewrite Ho; (split; [intros H | intros [H | H]]);
      try discriminate H; auto.
  - intros user_id dog match_ w1 Hc Hg Ho Hbad.
    rewrite (submitMatchOutcome_after_checks _ _ _ _ _ _ _ Hc).
    assert (Hgate : gate_closed a dog = false) by (apply gate_closed_false; auto).
    rewrite Hgate, (normalizeAndRecord_success _ _ _ _ Ho).
    destruct (_ || _) eqn:Hguard; [reflexivity|].
    apply litter_guard in Hguard as [Hfin Hle].
    rewrite Hfin, Hle in Hbad. discriminate Hbad.
Qed.

(** C5: no call with the outcome success or no_show is fulfilled with
    notes that are empty once trimmed: when it reaches the notes check it
    fails with NotesRequired.  A failed submission that reaches step 4 is
    recorded whatever its notes, when the backend serves the insert; its
    notes are stored trimmed, or null when that leaves nothing. *)
Theorem submitMatchOutcome_notes a w :
  (∀ r w', submit a w = (Fulfilled r, w') →
     Submit.outcome a = "success" ∨ Submit.outcome a = "no_show" →
     trimmedNotes a ≠ "")
  ∧ (∀ user_id dog match_ w1,
       ensureOwnDogInMatch a w = (Fulfilled (user_id, dog, match_), w1) →
       (Submit.outcome a = "success" → dogGender dog ≠ "male" →
        Js.isFinite (n a) && Js.le Js.one (n a) = true →
        trimmedNotes a = "" →
        submit a w = (Rejected NotesRequired_success, w1))
       ∧ (Submit.outcome a = "no_show" → trimmedNotes a = "" →
          submit a w = (Rejected NotesRequired_no_show, w1))
       ∧ (Submit.outcome a = "failed" → dogGender dog ≠ "male" →
          refused w1 (tick w1) = None →
          ∃ row w',
            submit a w = (Fulfilled (Some row), w')
            ∧ In row (dog_match_outcomes w')
            ∧ Outcome.litter_size row = Some Js.zero
            ∧ (trimmedNotes a = "" → Outcome.notes row = None)
            ∧ (trimmedNotes a ≠ "" → Outcome.notes row = Some (trimmedNotes a)))).
Proof.
  split.
  - intros r w' H Ho.
    apply submitMatchOutcome_inv in H
      as (user_id & dog & match_ & w1 & size & _ & _ & _ & _ & Hsize).
    destruct Hsize as [(_ & _ & _ & _ & Hn) | [(Hf & _) | (_ & _ & Hn)]]; try exact Hn.
    rewrite Hf in Ho. destruct Ho as [Ho | Ho]; discriminate Ho.
  - intros user_id dog match_ w1 Hc.
    pose proof (submitMatchOutcome_after_checks StringToNumber _ _ _ _ _ _ Hc) as Hrun.
    repeat split.
    + intros Ho Hg Hsize Hblank.
      assert (Hgate : gate_closed a dog = false) by (apply gate_closed_false; auto).
      rewrite Hrun, Hgate, (normalizeAndRecord_success _ _ _ _ Ho).
      apply andb_true_iff in Hsize. apply litter_guard in Hsize. rewrite Hsize.
      apply nonempty_false in Hblank. rewrite Hblank. reflexivity.
    + intros Ho Hblank.
      assert (Hgate : gate_closed a dog = false) by (apply gate_closed_false; auto).
      rewrite Hrun, Hgate, (normalizeAndRecord_no_show _ _ _ _ Ho).
      apply nonempty_false in Hblank. rewrite Hblank. reflexivity.
    + intros Ho Hg Hserved.
      assert (Hgate : gate_closed a dog = false) by (apply gate_closed_false; auto).
      rewrite Hrun, Hgate, (normalizeAndRecord_failed _ _ _ _ Ho).
      rewrite (record_served _ _ Hserved).
      eexists. eexists. split; [reflexivity|].
      split; [apply stored_outcome_in|]. split; [reflexivity|].
      cbn. unfold Js.or_null. split.
      * intros Hblank. apply nonempty_false in Hblank. rewrite Hblank. reflexivity.
      * intros Hnotes. apply nonempty_true in Hnotes. rewrite Hnotes. reflexivity.
Qed.

(** C7, as the code has it: the litter size of a record created by a
    fulfilled call is a finite number that is not negative: for failed and
    no_show it is 0, and for success it is the parsed input, which is at
    least 1.  It is an integer for failed and no_show, and for success
    exactly when the parsed input is one; the code does not ask for
    that. *)
Theorem submitMatchOutcome_litter_size_range a w r w' :
  submit a w = (Fulfilled r, w') →
  ∃ row size,
    r = Some row ∧ In row (dog_match_outcomes w')
    ∧ Outcome.litter_size row = Some size
    ∧ Js.isFinite size = true ∧ Js.nonNegative size = true
    ∧ ((Submit.outcome a = "success" ∧ size = n a ∧ Js.le Js.one size = true)
       ∨ ((Submit.outcome a = "failed" ∨ Submit.outcome a = "no_show")
          ∧ size = Js.zero))
    ∧ (Submit.outcome a = "success" → size = n a ∧ Js.le Js.one size = true)
    ∧ (Submit.outcome a ≠ "success" → size = Js.zero ∧ Js.isInteger size = true)
    ∧ (Submit.outcome a = "success" → Js.isInteger size = Js.isInteger (n a)).
Proof.
  intros H.
  apply submitMatchOutcome_inv in H
    as (user_id & dog & match_ & w1 & size & _ & _ & -> & -> & Hsize).
  eexists. exists size. split; [reflexivity|].
  split; [apply stored_outcome_in|]. split; [reflexivity|].
  destruct Hsize as [(Ho & -> & Hfin & Hle & _) | [(Ho & ->) | (Ho & -> & _)]].
  - split; [exact Hfin|]. split; [apply le_one_nonNegative; exact Hle|].
    split; [left; auto|]. split; [auto|]. split; [contradiction|reflexivity].
  - split; [reflexivity|]. split; [reflexivity|].
    split; [right; auto|]. rewrite Ho. split; [discriminate|]. split; [auto|discriminate].
  - split; [reflexivity|]. split; [reflexivity|].
    split; [right; auto|]. rewrite Ho. split; [discriminate|]. split; [auto|discriminate].
Qed.
End LitterSizeAndNotes.

(* ===================================================================== *)
(** ** submitMatchOutcome on the sample data *)
(* ===================================================================== *)

(** Bob, owner of the male Rex, reports a success: refused at the gate.
    Ann, owner of the female Luna, does: the gate lets her through. *)
Lemma submitMatchOutcome_role_gate_witness :
  submitMatchOutcome Sample.StringToNumber
    (Sample.submission Sample.rex "success" (Js.Str "4") (Some "went well"))
    (Sample.awaiting "user-bob")
  = (Rejected ForbiddenOutcome, Sample.checked (Sample.awaiting "user-bob"))
  ∧ ∀ w',
      submitMatchOutcome Sample.StringToNumber
        (Sample.submission Sample.luna "success" (Js.Str "4") (Some "went well"))
        (Sample.awaiting "user-ann")
      ≠ (Rejected ForbiddenOutcome, w').
Proof.
  split.
  - destruct (submitMatchOutcome_role_gate Sample.StringToNumber
                (Sample.submission Sample.rex "success" (Js.Str "4") (Some "went well"))
                (Sample.awaiting "user-bob") "user-bob" Sample.rex
                (Sample.request Sample.rex Sample.luna "awaiting_confirmation")
                (Sample.checked (Sample.awaiting "user-bob")))
      as [Hmale _]; [reflexivity|].
    destruct (Hmale eq_refl) as [_ H]. apply H. left. reflexivity.
  - destruct (submitMatchOutcome_role_gate Sample.StringToNumber
                (Sample.submission Sample.luna "success" (Js.Str "4") (Some "went well"))
                (Sample.awaiting "user-ann") "user-ann" Sample.luna
                (Sample.request Sample.rex Sample.luna "awaiting_confirmation")
                (Sample.checked (Sample.awaiting "user-ann")))
      as [_ Hfemale]; [reflexivity|].
    destruct (Hfemale eq_refl) as [_ H]. exact H.
Defined.

(** Scenario 3 of the specification, second half: Bob reports a no-show
    with notes and is recorded with a litter size of 0. *)
Example male_owner_records_no_show :
  ∃ row w',
    submitMatchOutcome Sample.StringToNumber
      (Sample.submission Sample.rex "no_show" Js.Null (Some "She never came"))
      (Sample.awaiting "user-bob")
    = (Fulfilled (Some row), w')
    ∧ Outcome.outcome row = "no_show"
    ∧ Outcome.litter_size row = Some Js.zero.
Proof. eexists. eexists. split; [reflexivity|]. split; reflexivity. Qed.

(** Scenario 2 of the specification: Ann reports a success with the litter
    size "4" and the notes "went well". *)
Example female_owner_records_success :
  ∃ row w',
    submitMatchOutcome Sample.StringToNumber
      (Sample.submission Sample.luna "success" (Js.Str "4") (Some "went well"))
      (Sample.awaiting "user-ann")
    = (Fulfilled (Some row), w')
    ∧ Outcome.outcome row = "success"
    ∧ Outcome.litter_size row = Some Sample.four
    ∧ Outcome.notes row = Some "went well".
Proof. eexists. eexists. split; [reflexivity|]. repeat split; reflexivity. Qed.

(** Duke's gender is stored as "MALE": a failed report is refused.  Pixie's
    gender is not recorded: the same report goes on to step 4. *)
Lemma submitMatchOutcome_gate_lowercased_male_witness :
  submitMatchOutcome Sample.StringToNumber
    (Sample.submission Sample.duke "failed" Js.Null None)
    (Sample.world "user-bob" [Sample.request Sample.duke Sample.pixie "awaiting_confirmation"])
  = (Rejected ForbiddenOutcome,
     Sample.checked (Sample.world "user-bob"
       [Sample.request Sample.duke Sample.pixie "awaiting_confirmation"]))
  ∧ ∀ w',
      submitMatchOutcome Sample.StringToNumber
        (Sample.submission Sample.pixie "failed" Js.Null None)
        (Sample.world "user-ann" [Sample.request Sample.duke Sample.pixie "awaiting_confirmation"])
      ≠ (Rejected ForbiddenOutcome, w').
Proof.
  split.
  - destruct (submitMatchOutcome_gate_lowercased_male Sample.StringToNumber
                (Sample.submission Sample.duke "failed" Js.Null None)
                (Sample.world "user-bob"
                   [Sample.request Sample.duke Sample.pixie "awaiting_confirmation"])
                "user-bob" Sample.duke
                (Sample.request Sample.duke Sample.pixie "awaiting_confirmation")
                (Sample.checked (Sample.world "user-bob"
                   [Sample.request Sample.duke Sample.pixie "awaiting_confirmation"])))
      as [Hmale _]; [reflexivity|].
    apply Hmale; [reflexivity | discriminate].
  - destruct (submitMatchOutcome_gate_lowercased_male Sample.StringToNumber
                (Sample.submission Sample.pixie "failed" Js.Null None)
                (Sample.world "user-ann"
                   [Sample.request Sample.duke Sample.pixie "awaiting_confirmation"])
                "user-ann" Sample.pixie
                (Sample.request Sample.duke Sample.pixie "awaiting_confirmation")
                (Sample.checked (Sample.world "user-ann"
                   [Sample.request Sample.duke Sample.pixie "awaiting_confirmation"])))
      as [_ Hother]; [reflexivity|].
    destruct Hother as [_ H]; [left; discriminate | exact H].
Defined.

(** Ann reports a success with a litter of "4": a row is stored with the
    litter size 4.  With a litter of "0" the call fails with
    InvalidLitterSize. *)
Lemma submitMatchOutcome_litter_size_witness :
  (∃ row w',
     submitMatchOutcome Sample.StringToNumber
       (Sample.submission Sample.luna "success" (Js.Str "4") (Some "went well"))
       (Sample.awaiting "user-ann")
     = (Fulfilled (Some row), w')
     ∧ In row (dog_match_outcomes w')
     ∧ Outcome.litter_size row = Some Sample.four
     ∧ Js.le Js.one Sample.four = true)
  ∧ submitMatchOutcome Sample.StringToNumber
      (Sample.submission Sample.luna "success" (Js.Str "0") (Some "went well"))
      (Sample.awaiting "user-ann")
    = (Rejected InvalidLitterSize, Sample.checked (Sample.awaiting "user-ann")).
Proof.
  split.
  - destruct (submitMatchOutcome_litter_size Sample.StringToNumber
                (Sample.submission Sample.luna "success" (Js.Str "4") (Some "went well"))
                (Sample.awaiting "user-ann")) as [Hstored _].
    eexists. eexists. split; [reflexivity|].
    destruct (Hstored _ _ eq_refl) as (row & Hrow & Hin & Hsuccess & _).
    injection Hrow as <-. destruct (Hsuccess eq_refl) as (Hsize & _ & Hle).
    split; [exact Hin|]. split; [exact Hsize | exact Hle].
  - destruct (submitMatchOutcome_litter_size Sample.StringToNumber
                (Sample.submission Sample.luna "success" (Js.Str "0") (Some "went well"))
                (Sample.awaiting "user-ann")) as [_ Hbad].
    apply (Hbad "user-ann" Sample.luna
             (Sample.request Sample.rex Sample.luna "awaiting_confirmation"));
      [reflexivity | discriminate | reflexivity | reflexivity].
Defined.

(** Ann reports a success, then Bob a no-show, with notes of blanks only:
    both fail with NotesRequired.  Ann reports a failure without notes: a
    row is stored with null notes. *)
Lemma submitMatchOutcome_notes_witness :
  submitMatchOutcome Sample.StringToNumber
    (Sample.submission Sample.luna "success" (Js.Str "4") (Some "   "))
    (Sample.awaiting "user-ann")
  = (Rejected NotesRequired_success, Sample.checked (Sample.awaiting "user-ann"))
  ∧ submitMatchOutcome Sample.StringToNumber
      (Sample.submission Sample.rex "no_show" Js.Null (Some "   "))
      (Sample.awaiting "user-bob")
    = (Rejected NotesRequired_no_show, Sample.checked (Sample.awaiting "user-bob"))
  ∧ ∃ row w',
      submitMatchOutcome Sample.StringToNumber
        (Sample.submission Sample.luna "failed" (Js.Str "7") None)
        (Sample.awaiting "user-ann")
      = (Fulfilled (Some row), w')
      ∧ In row (dog_match_outcomes w')
      ∧ Outcome.litter_size row = Some Js.zero
      ∧ Outcome.notes row = None.
Proof.
  split; [|split].
  - destruct (submitMatchOutcome_notes Sample.StringToNumber
                (Sample.submission Sample.luna "success" (Js.Str "4") (Some "   "))
                (Sample.awaiting "user-ann")) as [_ Hreached].
    destruct (Hreached "user-ann" Sample.luna
                (Sample.request Sample.rex Sample.luna "awaiting_confirmation")
                (Sample.checked (Sample.awaiting "user-ann")) eq_refl) as (H & _ & _).
    apply H; [reflexivity | discriminate | reflexivity | reflexivity].
  - destruct (submitMatchOutcome_notes Sample.StringToNumber
                (Sample.submission Sample.rex "no_show" Js.Null (Some "   "))
                (Sample.awaiting "user-bob")) as [_ Hreached].
    destruct (Hreached "user-bob" Sample.rex
                (Sample.request Sample.rex Sample.luna "awaiting_confirmation")
                (Sample.checked (Sample.awaiting "user-bob")) eq_refl) as (_ & H & _).
    apply H; reflexivity.
  - destruct (submitMatchOutcome_notes Sample.StringToNumber
                (Sample.submission Sample.luna "failed" (Js.Str "7") None)
                (Sample.awaiting "user-ann")) as [_ Hreached].
    destruct (Hreached "user-ann" Sample.luna
                (Sample.request Sample.rex Sample.luna "awaiting_confirmation")
                (Sample.checked (Sample.awaiting "user-ann")) eq_refl) as (_ & _ & H).
    destruct H as (row & w' & Hrun & Hin & Hsize & Hblank & _);
      [reflexivity | discriminate | reflexivity |].
    exists row, w'. repeat split; try assumption. apply Hblank. reflexivity.
Defined.

(** C7 fails on the code: Ann reports a success with a litter of 2.5; the
    call is fulfilled and the record it creates has the litter size 2.5,
    which is not an integer. *)
Lemma submitMatchOutcome_stores_fraction :
  ∃ row w',
    submitMatchOutcome Sample.StringToNumber
      (Sample.submission Sample.luna "success" (Js.Num Sample.two_and_a_half)
         (Some "went well"))
      (Sample.awaiting "user-ann")
    = (Fulfilled (Some row), w')
    ∧ In row (dog_match_outcomes w')
    ∧ Outcome.litter_size row = Some Sample.two_and_a_half
    ∧ Js.isInteger Sample.two_and_a_half = false.
Proof.
  eexists. eexists. split; [reflexivity|].
  split; [left; reflexivity|]. split; reflexivity.
Qed.

(** Ann's litter of 2.5 is stored as it is: a finite number, not negative,
    at least 1. *)
Lemma submitMatchOutcome_litter_size_range_witness :
  ∃ row w',
    submitMatchOutcome Sample.StringToNumber
      (Sample.submission Sample.luna "success" (Js.Num Sample.two_and_a_half)
         (Some "went well"))
      (Sample.awaiting "user-ann")
    = (Fulfilled (Some row), w')
    ∧ Outcome.litter_size row = Some Sample.two_and_a_half
    ∧ Js.isFinite Sample.two_and_a_half = true
    ∧ Js.nonNegative Sample.two_and_a_half = true
    ∧ Js.le Js.one Sample.two_and_a_half = true.
Proof.
  eexists. eexists. split; [reflexivity|].
  destruct (submitMatchOutcome_litter_size_range Sample.StringToNumber
              (Sample.submission Sample.luna "success" (Js.Num Sample.two_and_a_half)
                 (Some "went well"))
              (Sample.awaiting "user-ann") _ _ eq_refl)
    as (row & size & Hrow & _ & Hsize & Hfin & Hpos & _ & Hsuccess & _).
  injection Hrow as <-. injection Hsize as <-.
  split; [reflexivity|]. split; [exact Hfin|]. split; [exact Hpos|].
  exact (proj2 (Hsuccess eq_refl)).
Defined.

(* ===================================================================== *)
(** ** mapMatchRecord *)
(* ===================================================================== *)

(** C6 fails on the code: the request is awaiting confirmation and Ann is
    a participant, but her dog Pixie has no recorded gender, and the flag
    is false. *)
Lemma mapMatchRecord_awaiting_without_gender :
  ∃ v,
    mapMatchRecord (Some (Sample.record Sample.rex Sample.pixie "awaiting_confirmation"))
                   (Some "user-ann") = Some v
    ∧ Match.status (Match.columns (View.row v)) = "awaiting_confirmation"
    ∧ View.awaitingMyOutcome v = false.
Proof. eexists. split; [reflexivity|]. split; reflexivity. Qed.

(** C6, as the code has it: the flag is true exactly when the status of the
    row is awaiting_confirmation and the gender of the viewer's dog, in
    lower case, is female or male. *)
Theorem mapMatchRecord_awaitingMyOutcome (row : Match.record) (userId : option Id) :
  ∃ v,
    mapMatchRecord (Some row) userId = Some v
    ∧ View.row v = row
    ∧ (View.awaitingMyOutcome v = true ↔
       Match.status (Match.columns row) = "awaiting_confirmation"
       ∧ (myDogGender v = "female" ∨ myDogGender v = "male")).
Proof.
  eexists. split; [reflexivity|]. split; [reflexivity|].
  unfold myDogGender. cbn [View.awaitingMyOutcome View.myDog].
  rewrite andb_true_iff, orb_true_iff, !String.eqb_eq. reflexivity.
Qed.

(** Ann views the request with Luna, who is female: the flag is true. *)
Lemma mapMatchRecord_awaitingMyOutcome_witness :
  ∃ v,
    mapMatchRecord (Some (Sample.record Sample.rex Sample.luna "awaiting_confirmation"))
                   (Some "user-ann") = Some v
    ∧ View.awaitingMyOutcome v = true.
Proof.
  destruct (mapMatchRecord_awaitingMyOutcome
              (Sample.record Sample.rex Sample.luna "awaiting_confirmation")
              (Some "user-ann")) as (v & Hv & _ & Hflag).
  exists v. split; [exact Hv|].
  apply Hflag. injection Hv as <-. split; [reflexivity | left; reflexivity].
Defined.

(* ===================================================================== *)
(** ** createMatchRequest *)
(* ===================================================================== *)

Lemma insert_desc_In x r l : In x (insert_desc r l) ↔ x = r ∨ In x l.
Proof.
  induction l as [|y l IH]; cbn.
  - intuition congruence.
  - destruct (strictly_newer _ _); cbn; [rewrite IH|]; intuition congruence.
Qed.

(** Ordering keeps the rows. *)
Lemma order_requested_at_desc_In x l : In x (order_requested_at_desc l) ↔ In x l.
Proof.
  induction l as [|y l IH]; cbn; [reflexivity|].
  rewrite insert_desc_In, IH. intuition congruence.
Qed.

Lemma order_requested_at_desc_nil l : order_requested_at_desc l = [] → l = [].
Proof.
  destruct l as [|y l]; [reflexivity|]. intros H.
  assert (Hin : In y (order_requested_at_desc (y :: l)))
    by (apply order_requested_at_desc_In; left; reflexivity).
  rewrite H in Hin. destruct Hin.
Qed.

Lemma has_ACTIVE status :
  has ACTIVE_REQUEST_STATUSES status = true ↔ In status ACTIVE_STATUS_LIST.
Proof.
  unfold has, ACTIVE_REQUEST_STATUSES.
  rewrite bool_decide_eq_true, elem_of_list_to_set. apply list_elem_of_In.
Qed.

Lemma status_in_In statuses m :
  status_in statuses m = true ↔ In (Match.status m) statuses.
Proof.
  unfold status_in. rewrite existsb_exists. split.
  - intros (s & Hin & Heq). apply String.eqb_eq in Heq. congruence.
  - intros Hin. exists (Match.status m). split; [exact Hin | apply String.eqb_refl].
Qed.

Lemma active_requests_In r contactId w :
  In r (active_requests contactId w) ↔
  In r (dog_match_requests w) ∧ Match.contact_id r = contactId
  ∧ In (Match.status r) ACTIVE_STATUS_LIST.
Proof.
  unfold active_requests.
  rewrite filter_In, andb_true_iff, String.eqb_eq, status_in_In. reflexivity.
Qed.

(** The statuses of ACTIVE_STATUS_LIST, one by one. *)
Lemma active_status_In status :
  In status ACTIVE_STATUS_LIST ↔
  status = "pending" ∨ status = "accepted" ∨ status = "awaiting_confirmation".
Proof.
  unfold ACTIVE_STATUS_LIST. cbn [In]. split.
  - intros [<- | [<- | [<- | []]]]; auto.
  - intros [-> | [-> | ->]]; auto.
Qed.

(** The request getActiveRequestForContact returns, when served: the first
    active request of the chat, newest first. *)
Lemma getActiveRequestForContact_served contactId w :
  Js.present contactId = true →
  refused w (tick w) = None →
  getActiveRequestForContact contactId w =
    (Fulfilled (head (map Match.project
                        (order_requested_at_desc (active_requests (the contactId) w)))),
     step w).
Proof.
  intros Hc Hserved. unfold getActiveRequestForContact. rewrite Hc. cbn [negb].
  rewrite bind_run. unfold select_active. rewrite (request_served _ _ Hserved).
  cbn [fst snd].
  change (List.filter _ (dog_match_requests (step w))) with (active_requests (the contactId) w).
  generalize (order_requested_at_desc (active_requests (the contactId) w)).
  intros [|first rest]; reflexivity.
Qed.

Lemma getActiveRequestForContact_inv contactId w active w' :
  Js.present contactId = true →
  getActiveRequestForContact contactId w = (Fulfilled active, w') →
  active = head (map Match.project
                   (order_requested_at_desc (active_requests (the contactId) w)))
  ∧ w' = step w.
Proof.
  intros Hc H. destruct (refused w (tick w)) as [e|] eqn:Hserved.
  - unfold getActiveRequestForContact in H. rewrite Hc in H. cbn [negb] in H.
    rewrite bind_run in H. unfold select_active in H.
    rewrite (request_refused _ _ _ Hserved) in H. discriminate H.
  - rewrite (getActiveRequestForContact_served _ _ Hc Hserved) in H.
    injection H as <- <-. split; reflexivity.
Qed.

(** With an active request in the chat, the request found is one of them. *)
Lemma first_active_request contactId w existing :
  In existing (active_requests contactId w) →
  ∃ r, head (map Match.project (order_requested_at_desc (active_requests contactId w)))
       = Some (Match.project r)
       ∧ In r (active_requests contactId w).
Proof.
  intros Hin. destruct (order_requested_at_desc _) as [|r rest] eqn:Hsorted.
  - apply order_requested_at_desc_nil in Hsorted. rewrite Hsorted in Hin. destruct Hin.
  - exists r. split; [reflexivity|].
    apply order_requested_at_desc_In. rewrite Hsorted. left. reflexivity.
Qed.

(** C3: when the chat of the request already has a request whose status
    is pending, accepted or awaiting_confirmation, createMatchRequest is
    never fulfilled; with arguments that pass the input checks and a
    backend that answers the lookup, it fails with an Error whose [code] is
    "MATCH_REQUEST_EXISTS" and whose [activeRequest] holds the id, the
    status, the two dogs and the instant of a request of that chat in one
    of the three statuses: the existing one when it is the only one. *)
Theorem createMatchRequest_conflict a w existing :
  In existing (dog_match_requests w) →
  Match.contact_id existing = the (Create.contactId a) →
  Match.status existing = "pending"
  ∨ Match.status existing = "accepted"
  ∨ Match.status existing = "awaiting_confirmation" →
  (∀ r w', createMatchRequest a w ≠ (Fulfilled r, w'))
  ∧ (well_formed a → refused w (tick w) = None →
     ∃ active,
       createMatchRequest a w
       = (Rejected
            (Error "A breeding request is already awaiting a response in this chat."
               (Some "MATCH_REQUEST_EXISTS")
               (Some {| Match.a_id := Match.id active;
                        Match.a_status := Match.status active;
                        Match.a_requester_dog_id := Match.requester_dog_id active;
                        Match.a_requested_dog_id := Match.requested_dog_id active;
                        Match.a_requested_at := Match.requested_at active |})),
          step w)
       ∧ In active (dog_match_requests w)
       ∧ Match.contact_id active = the (Create.contactId a)
       ∧ (Match.status active = "pending"
          ∨ Match.status active = "accepted"
          ∨ Match.status active = "awaiting_confirmation")
       ∧ ((∀ other, In other (dog_match_requests w) →
             Match.contact_id other = the (Create.contactId a) →
             Match.status other = "pending"
             ∨ Match.status other = "accepted"
             ∨ Match.status other = "awaiting_confirmation" →
             other = existing) →
          active = existing)).
Proof.
  intros Hin Hcontact Hstatus.
  assert (Hactive : In existing (active_requests (the (Create.contactId a)) w)).
  { apply active_requests_In. split; [exact Hin|]. split; [exact Hcontact|].
    apply active_status_In. exact Hstatus. }
  destruct (first_active_request _ _ _ Hactive) as (first & Hfirst & Hfirst_in).
  assert (Hhas : has ACTIVE_REQUEST_STATUSES (Match.a_status (Match.project first)) = true).
  { apply has_ACTIVE. apply active_requests_In in Hfirst_in. apply Hfirst_in. }
  split.
  - intros r w' H. unfold createMatchRequest in H.
    await H as Hc. await H. await H. await H.
    apply bind_fulfilled_inv in H as (active & w1 & Hget & H).
    apply (getActiveRequestForContact_inv _ _ _ _ Hc) in Hget as [-> ->].
    rewrite Hfirst in H. apply bind_fulfilled_inv in H as (? & ? & Hthrow & _).
    rewrite Hhas in Hthrow. discriminate Hthrow.
  - intros (Hc & Hd1 & Hd2 & Hu & Hne) Hserved. exists first.
    apply active_requests_In in Hfirst_in as (Htable & Hchat & Hthree).
    apply active_status_In in Hthree.
    split; [|split; [exact Htable|split; [exact Hchat|split; [exact Hthree|]]]].
    + unfold createMatchRequest. rewrite Hc, Hd1, Hd2, Hu.
      apply String.eqb_neq in Hne. rewrite Hne. do 4 run_check.
      rewrite bind_run, (getActiveRequestForContact_served _ _ Hc Hserved), Hfirst.
      cbv beta iota. rewrite bind_run, Hhas. reflexivity.
    + intros Honly. exact (Honly first Htable Hchat Hthree).
Qed.

(** The insert that ends createMatchRequest, when the backend serves it. *)
Lemma insert_request_served p w :
  refused w (tick w) = None →
  (r ← insert_request_single p; _ ← throw_if_error r; mret (data r)) w
  = (Fulfilled (Some (embed (after_request w p) (stored_request w p))), after_request w p).
Proof.
  intros H. rewrite bind_run. unfold insert_request_single.
  rewrite (request_served _ _ H). reflexivity.
Qed.

(** lookupDogOwnerId on a dog that is in the table, when served. *)
Lemma lookupDogOwnerId_served dogId dog w :
  Js.present dogId = true →
  refused w (tick w) = None →
  dogs_with_id (the dogId) w = [dog] →
  lookupDogOwnerId dogId w = (Fulfilled (truthy_or_null (Dog.user_id dog)), step w).
Proof.
  intros Hd Hserved Hdog. unfold lookupDogOwnerId. rewrite Hd. cbn [negb].
  rewrite bind_run. unfold select_dog_maybeSingle. rewrite (request_served _ _ Hserved).
  cbn [fst snd].
  change (dogs_with_id (the dogId) (step w)) with (dogs_with_id (the dogId) w).
  rewrite Hdog. reflexivity.
Qed.

(** The run of createMatchRequest up to the resolution of the owner. *)
Lemma createMatchRequest_no_conflict a w :
  well_formed a →
  active_requests (the (Create.contactId a)) w = [] →
  refused w (tick w) = None →
  createMatchRequest a w =
    (targetUserId ← (if Js.present (Create.requestedUserId a)
                     then mret (Create.requestedUserId a)
                     else lookupDogOwnerId (Create.requestedDogId a));
     _ ← unless_throw (Js.present targetUserId)
           (new_Error "Unable to determine the other owner. Please refresh and try again.");
     r ← insert_request_single (request_payload a targetUserId);
     _ ← throw_if_error r;
     mret (data r)) (step w).
Proof.
  intros (Hc & Hd1 & Hd2 & Hu & Hne) Hnone Hserved.
  unfold createMatchRequest. rewrite Hc, Hd1, Hd2, Hu.
  apply String.eqb_neq in Hne. rewrite Hne. do 4 run_check.
  rewrite bind_run, (getActiveRequestForContact_served _ _ Hc Hserved), Hnone.
  reflexivity.
Qed.

(** C9: a call whose arguments pass the input checks, in a chat without
    active request, with an owner for the requested dog and a backend that
    answers, is fulfilled with a new request that is appended to the
    table, whose status is pending and whose requested_at is the reading of
    the database clock when the insert is served. *)
Theorem createMatchRequest_persists_pending a w :
  well_formed a →
  active_requests (the (Create.contactId a)) w = [] →
  owner_known a w →
  reliable_from (tick w) w →
  ∃ record w',
    createMatchRequest a w = (Fulfilled (Some record), w')
    ∧ dog_match_requests w' = (dog_match_requests w ++ [Match.columns record])%list
    ∧ Match.status (Match.columns record) = "pending"
    ∧ Match.requested_at (Match.columns record) = Some (database_clock w (tick w'))
    ∧ Match.contact_id (Match.columns record) = the (Create.contactId a)
    ∧ Match.requester_dog_id (Match.columns record) = the (Create.requesterDogId a)
    ∧ Match.requested_dog_id (Match.columns record) = the (Create.requestedDogId a)
    ∧ Match.requester_user_id (Match.columns record) = the (Create.requesterUserId a).
Proof.
  intros Hwf Hnone Howner Hreliable.
  rewrite (createMatchRequest_no_conflict _ _ Hwf Hnone (Hreliable _ (le_n _))).
  destruct (Js.present (Create.requestedUserId a)) eqn:Hgiven.
  - run_check. rewrite Hgiven. run_check.
    rewrite (insert_request_served _ (step w)).
    + eexists. eexists. split; [reflexivity|]. repeat split.
    + apply (Hreliable (S (tick w))). lia.
  - destruct Howner as [Hgiven' | (dog & Hdog & Hpresent)]; [congruence|].
    destruct Hwf as (_ & _ & Hd2 & _).
    rewrite bind_run, (lookupDogOwnerId_served _ dog (step w) Hd2).
    + cbv beta iota.
      assert (Ht : truthy_or_null (Dog.user_id dog) = Dog.user_id dog)
        by (unfold truthy_or_null; rewrite Hpresent; reflexivity).
      rewrite Ht, bind_run, Hpresent. cbn [unless_throw mret Async_ret].
      rewrite (insert_request_served _ (step (step w))).
      * eexists. eexists. split; [reflexivity|]. repeat split.
      * apply (Hreliable (S (S (tick w)))). lia.
    + apply (Hreliable (S (tick w))). lia.
    + exact Hdog.
Qed.

(** Bob proposes Rex to Luna in "chat-1", where their earlier request is
    awaiting confirmation: the error has the code and carries that
    request. *)
Lemma createMatchRequest_conflict_witness :
  createMatchRequest (Sample.proposal "chat-1" Sample.rex Sample.luna)
    (Sample.world "user-bob" [Sample.request Sample.rex Sample.luna "awaiting_confirmation"])
  = (Rejected
       (Error "A breeding request is already awaiting a response in this chat."
          (Some "MATCH_REQUEST_EXISTS")
          (Some {| Match.a_id := "match-1";
                   Match.a_status := "awaiting_confirmation";
                   Match.a_requester_dog_id := "dog-rex";
                   Match.a_requested_dog_id := "dog-luna";
                   Match.a_requested_at := Some 1000%Z |})),
     step (Sample.world "user-bob"
             [Sample.request Sample.rex Sample.luna "awaiting_confirmation"])).
Proof.
  destruct (createMatchRequest_conflict
              (Sample.proposal "chat-1" Sample.rex Sample.luna)
              (Sample.world "user-bob"
                 [Sample.request Sample.rex Sample.luna "awaiting_confirmation"])
              (Sample.request Sample.rex Sample.luna "awaiting_confirmation"))
    as [_ H]; [left; reflexivity | reflexivity | right; right; reflexivity |].
  destruct H as (active & Hrun & _ & _ & _ & Honly).
  - repeat split; discriminate.
  - reflexivity.
  - rewrite (Honly (λ other Hin _ _,
                      match Hin with
                      | or_introl Heq => eq_sym Heq
                      | or_intror Hnil => match Hnil with end
                      end)) in Hrun.
    exact Hrun.
Defined.

(** Bob proposes Rex to Luna in "chat-2", where nothing is going on: the
    request is stored as pending, stamped by the database. *)
Lemma createMatchRequest_persists_pending_witness :
  ∃ record w',
    createMatchRequest (Sample.proposal "chat-2" Sample.rex Sample.luna)
      (Sample.world "user-bob" [Sample.request Sample.rex Sample.luna "accepted"])
    = (Fulfilled (Some record), w')
    ∧ Match.status (Match.columns record) = "pending"
    ∧ Match.requested_at (Match.columns record) = Some 5003%Z
    ∧ dog_match_requests w'
      = [Sample.request Sample.rex Sample.luna "accepted"; Match.columns record].
Proof.
  destruct (createMatchRequest_persists_pending
              (Sample.proposal "chat-2" Sample.rex Sample.luna)
              (Sample.world "user-bob" [Sample.request Sample.rex Sample.luna "accepted"]))
    as (record & w' & Hrun & Htable & Hstatus & Hat & _).
  - repeat split; discriminate.
  - reflexivity.
  - right. exists Sample.luna. split; reflexivity.
  - intros k _. reflexivity.
  - exists record, w'. split; [exact Hrun|]. split; [exact Hstatus|].
    split; [|exact Htable].
    rewrite Hat. 
    assert (Hw : w' = snd (createMatchRequest (Sample.proposal "chat-2" Sample.rex Sample.luna)
      (Sample.world "user-bob" [Sample.request Sample.rex Sample.luna "accepted"])))
      by (rewrite Hrun; reflexivity).
    rewrite Hw. reflexivity.
Defined.

(* ===================================================================== *)
(** ** updateMatchStatus and acceptMatchRequest *)
(* ===================================================================== *)

(** The update that ends both functions, when the backend serves it and
    the id names one row. *)
Lemma update_match_single_served patch matchId w r :
  refused w (tick w) = None →
  matches_with_id matchId w = [r] →
  (res ← update_match_single patch matchId; _ ← throw_if_error res; mret (data res)) w
  = (Fulfilled (Some (apply_patch patch r)),
     with_requests (patched_requests patch matchId w) (step w)).
Proof.
  intros Hserved Hrow. rewrite bind_run. unfold update_match_single.
  rewrite (request_served _ _ Hserved). cbn [fst snd].
  change (List.filter _ (dog_match_requests (step w))) with (matches_with_id matchId w).
  rewrite Hrow. reflexivity.
Qed.

(** The patched row is in the patched table. *)
Lemma patched_requests_In patch matchId w r :
  matches_with_id matchId w = [r] →
  In (apply_patch patch r) (patched_requests patch matchId w).
Proof.
  intros Hrow.
  assert (Hin : In r (matches_with_id matchId w)) by (rewrite Hrow; left; reflexivity).
  apply filter_In in Hin as [Hin Hid].
  unfold patched_requests. apply in_map_iff. exists r. rewrite Hid. auto.
Qed.

Lemma acceptMatchRequest_run matchId w r :
  Js.present matchId = true →
  matches_with_id (the matchId) w = [r] →
  refused w (S (tick w)) = None →
  acceptMatchRequest matchId w
  = (Fulfilled (Some (apply_patch (accept_patch (browser_clock w (tick w))) r)),
     with_requests
       (patched_requests (accept_patch (browser_clock w (tick w))) (the matchId) w)
       (step (step w))).
Proof.
  intros Hid Hrow Hserved. unfold acceptMatchRequest. rewrite Hid. run_check.
  rewrite bind_run. cbn [new_Date].
  apply (update_match_single_served _ _ (step w)); assumption.
Qed.

(** C4 fails on the code: the request was declined, and acceptMatchRequest
    is fulfilled all the same and moves it to awaiting_confirmation. *)
Lemma acceptMatchRequest_from_declined :
  ∃ r' w',
    matches_with_id "match-1"
      (Sample.world "user-ann" [Sample.request Sample.rex Sample.luna "declined"])
    = [Sample.request Sample.rex Sample.luna "declined"]
    ∧ acceptMatchRequest (Some "match-1")
        (Sample.world "user-ann" [Sample.request Sample.rex Sample.luna "declined"])
      = (Fulfilled (Some r'), w')
    ∧ Match.status r' = "awaiting_confirmation"
    ∧ dog_match_requests w' = [r'].
Proof.
  eexists. eexists. split; [reflexivity|]. split; [vm_compute; reflexivity|].
  split; reflexivity.
Qed.

(** C4, as the code has it: acceptMatchRequest does not look at the status
    the request is in.  Whenever the id names one request and the backend
    serves the update, the call is fulfilled with that request, now stored
    with the status awaiting_confirmation and with accepted_at,
    awaiting_confirmation_at and last_status_changed_at all set to the one
    reading of the clock the call made; the other columns are kept. *)
Theorem acceptMatchRequest_stamps matchId w r :
  Js.present matchId = true →
  matches_with_id (the matchId) w = [r] →
  refused w (S (tick w)) = None →
  ∃ r' w',
    acceptMatchRequest matchId w = (Fulfilled (Some r'), w')
    ∧ In r' (dog_match_requests w')
    ∧ Match.status r' = "awaiting_confirmation"
    ∧ Match.accepted_at r' = Some (browser_clock w (tick w))
    ∧ Match.awaiting_confirmation_at r' = Some (browser_clock w (tick w))
    ∧ Match.last_status_changed_at r' = Some (browser_clock w (tick w))
    ∧ Match.id r' = Match.id r
    ∧ Match.contact_id r' = Match.contact_id r
    ∧ Match.requester_user_id r' = Match.requester_user_id r
    ∧ Match.requested_user_id r' = Match.requested_user_id r
    ∧ Match.requester_dog_id r' = Match.requester_dog_id r
    ∧ Match.requested_dog_id r' = Match.requested_dog_id r
    ∧ Match.requested_at r' = Match.requested_at r
    ∧ Match.declined_at r' = Match.declined_at r
    ∧ Match.cancelled_at r' = Match.cancelled_at r
    ∧ Match.completed_at r' = Match.completed_at r
    ∧ Match.requester_notes r' = Match.requester_notes r
    ∧ Match.responder_notes r' = Match.responder_notes r
    ∧ dogs w' = dogs w
    ∧ dog_match_outcomes w' = dog_match_outcomes w
    ∧ ∀ other, In other (dog_match_requests w) → Match.id other ≠ the matchId →
        In other (dog_match_requests w').
Proof.
  intros Hid Hrow Hserved.
  rewrite (acceptMatchRequest_run _ _ _ Hid Hrow Hserved).
  eexists. eexists. split; [reflexivity|].
  split; [apply (patched_requests_In _ _ _ _ Hrow)|].
  repeat split.
  intros other Hin Hother.
  cbn [dog_match_requests with_requests]. unfold patched_requests.
  apply in_map_iff. exists other. split; [|exact Hin].
  apply String.eqb_neq in Hother. rewrite Hother. reflexivity.
Qed.

(** Ann accepts the pending request of Bob at 5000: the three instants
    are 5000, and the chat, the users, the dogs and the instant of the
    request are what they were. *)
Lemma acceptMatchRequest_stamps_witness :
  ∃ r' w',
    acceptMatchRequest (Some "match-1")
      (Sample.world "user-ann" [Sample.request Sample.rex Sample.luna "pending"])
    = (Fulfilled (Some r'), w')
    ∧ Match.status r' = "awaiting_confirmation"
    ∧ Match.accepted_at r' = Some 5000%Z
    ∧ Match.awaiting_confirmation_at r' = Some 5000%Z
    ∧ Match.last_status_changed_at r' = Some 5000%Z
    ∧ Match.contact_id r' = "chat-1"
    ∧ Match.requester_user_id r' = "user-bob"
    ∧ Match.requested_user_id r' = "user-ann"
    ∧ Match.requester_dog_id r' = "dog-rex"
    ∧ Match.requested_dog_id r' = "dog-luna"
    ∧ Match.requested_at r' = Some 1000%Z
    ∧ Match.requester_notes r' = None.
Proof.
  destruct (acceptMatchRequest_stamps (Some "match-1")
              (Sample.world "user-ann" [Sample.request Sample.rex Sample.luna "pending"])
              (Sample.request Sample.rex Sample.luna "pending"))
    as (r' & w' & Hrun & _ & Hstatus & Hacc & Hawait & Hlast & _ & Hchat & Hu1 & Hu2
        & Hd1 & Hd2 & Hat & _ & _ & _ & Hnotes & _);
    [reflexivity | reflexivity | reflexivity |].
  exists r', w'. repeat split; assumption.
Defined.





(* ===================================================================== *)
(** ** What a computation leaves untouched *)
(* ===================================================================== *)

Lemma only_time_passed_refl w : only_time_passed w w.
Proof. unfold only_time_passed. repeat split; reflexivity. Qed.

Lemma only_time_passed_step w : only_time_passed w (step w).
Proof. unfold only_time_passed. cbn. repeat split; try reflexivity. lia. Qed.

Lemma only_time_passed_trans w1 w2 w3 :
  only_time_passed w1 w2 → only_time_passed w2 w3 → only_time_passed w1 w3.
Proof.
  unfold only_time_passed.
  intros (H1 & H2 & H3 & H4 & H5 & H6 & H7 & H8 & H9)
         (G1 & G2 & G3 & G4 & G5 & G6 & G7 & G8 & G9).
  repeat split; try congruence. lia.
Qed.

(** The two ways a sequence ends: its first statement was rejected, or it
    was fulfilled and the rest ran. *)
Lemma bind_cases {A B} (m : Async A) (k : A → Async B) w c w' :
  (m ≫= k) w = (c, w') →
  (∃ e, m w = (Rejected e, w') ∧ c = Rejected e)
  ∨ (∃ a w1, m w = (Fulfilled a, w1) ∧ k a w1 = (c, w')).
Proof.
  rewrite bind_run. destruct (m w) as [[a|e] w1]; intros H.
  - right. exists a, w1. auto.
  - left. injection H as <- <-. exists e. auto.
Qed.

Section ReadOnly.
Context {A B : Type}.

Lemma read_only_ret (a : A) : read_only (mret a).
Proof. intros w c w' [= <- <-]. apply only_time_passed_refl. Qed.

Lemma read_only_throw (e : Exn) : read_only (throw (A := A) e).
Proof. intros w c w' [= <- <-]. apply only_time_passed_refl. Qed.

Lemma read_only_bind (m : Async A) (k : A → Async B) :
  read_only m → (∀ a, read_only (k a)) → read_only (m ≫= k).
Proof.
  intros Hm Hk w c w' H.
  apply bind_cases in H as [(e & H & _) | (a & w1 & H1 & H2)].
  - exact (Hm _ _ _ H).
  - exact (only_time_passed_trans _ _ _ (Hm _ _ _ H1) (Hk _ _ _ _ H2)).
Qed.

Lemma read_only_if (b : bool) (m1 m2 : Async A) :
  read_only m1 → read_only m2 → read_only (if b then m1 else m2).
Proof. destruct b; auto. Qed.

(** A request whose service leaves the world alone. *)
Lemma read_only_request (answer_of : World → Response A) :
  read_only (request (λ w, (answer_of w, w))).
Proof.
  intros w c w'. unfold request.
  destruct (refused w (tick w)); intros [= <- <-]; apply only_time_passed_step.
Qed.
End ReadOnly.

Lemma read_only_unless_throw ok e : read_only (unless_throw ok e).
Proof. destruct ok; [apply read_only_ret | apply read_only_throw]. Qed.

Lemma read_only_throw_when bad e : read_only (throw_when bad e).
Proof. destruct bad; [apply read_only_throw | apply read_only_ret]. Qed.

Lemma read_only_throw_if_error {A} (r : Response A) : read_only (throw_if_error r).
Proof.
  unfold throw_if_error. destruct (error r); [apply read_only_throw | apply read_only_ret].
Qed.

Lemma read_only_new_Date : read_only new_Date.
Proof. intros w c w' [= <- <-]. apply only_time_passed_step. Qed.

Lemma read_only_auth_getUser : read_only auth_getUser.
Proof. intros w c w' [= <- <-]. apply only_time_passed_step. Qed.

(** Proves that a sequence of reads and checks is read-only. *)
Ltac read_only :=
  repeat first
    [ apply read_only_ret | apply read_only_throw
    | apply read_only_unless_throw | apply read_only_throw_when
    | apply read_only_throw_if_error | apply read_only_new_Date
    | apply read_only_auth_getUser | apply read_only_request
    | apply read_only_if
    | apply read_only_bind; [|intros ?]
    | match goal with
      | |- read_only (match ?x with _ => _ end) => destruct x
      end ].

Lemma read_only_lookupDogOwnerId dogId : read_only (lookupDogOwnerId dogId).
Proof. unfold lookupDogOwnerId, select_dog_maybeSingle. read_only. Qed.

Lemma read_only_getActiveRequestForContact contactId :
  read_only (getActiveRequestForContact contactId).
Proof. unfold getActiveRequestForContact, select_active. read_only. Qed.

Lemma read_only_fetchMatchesForUser userId : read_only (fetchMatchesForUser userId).
Proof. unfold fetchMatchesForUser, select_matches_of_user. read_only. Qed.

Lemma read_only_fetchAwaitingDogIds dogIds : read_only (fetchAwaitingDogIds dogIds).
Proof.
  unfold fetchAwaitingDogIds, select_awaiting_dogs.
  destruct dogIds as [[|id ids]|]; read_only.
Qed.

Lemma read_only_ensureOwnDogInMatch a : read_only (ensureOwnDogInMatch a).
Proof.
  unfold ensureOwnDogInMatch, select_dog_single, select_match_single. read_only.
Qed.

(* ===================================================================== *)
(** ** createMatchRequest: errors, writes, sequences *)
(* ===================================================================== *)

(** A read-only statement at the head of a sequence: the sequence stops
    there, rejected, or goes on from a world where only time has passed. *)
Lemma read_then {A B} (m : Async A) (k : A → Async B) w c w' :
  read_only m →
  (m ≫= k) w = (c, w') →
  (only_time_passed w w' ∧ ∃ e, c = Rejected e)
  ∨ (∃ a w1, only_time_passed w w1 ∧ m w = (Fulfilled a, w1) ∧ k a w1 = (c, w')).
Proof.
  intros Hm H. apply bind_cases in H as [(e & H & ->) | (a & w1 & H1 & H2)].
  - left. split; [exact (Hm _ _ _ H) | eauto].
  - right. exists a, w1. split; [exact (Hm _ _ _ H1) | auto].
Qed.

(** The two ways the insert that ends createMatchRequest goes. *)
Lemma insert_request_cases p w c w' :
  (r ← insert_request_single p; _ ← throw_if_error r; mret (data r)) w = (c, w') →
  (∃ e, refused w (tick w) = Some e ∧ c = Rejected (Postgrest e) ∧ w' = step w)
  ∨ (refused w (tick w) = None
     ∧ c = Fulfilled (Some (embed (after_request w p) (stored_request w p)))
     ∧ w' = after_request w p).
Proof.
  destruct (refused w (tick w)) as [e|] eqn:Hserved; intros H.
  - left. exists e. rewrite bind_run in H. unfold insert_request_single in H.
    rewrite (request_refused _ _ _ Hserved) in H. injection H as <- <-. auto.
  - right. rewrite (insert_request_served _ _ Hserved) in H. injection H as <- <-. auto.
Qed.

(** X1: every way createMatchRequest ends leaves the dogs and the outcomes
    as they were; rejected, it leaves the requests as they were; fulfilled,
    it has appended one request to the table, pending, in the chat asked
    for and between the two dogs asked for, and changed no other row. *)
Theorem createMatchRequest_writes a w c w' :
  createMatchRequest a w = (c, w') →
  dogs w' = dogs w
  ∧ dog_match_outcomes w' = dog_match_outcomes w
  ∧ match c with
    | Fulfilled r =>
        ∃ record,
          r = Some record
          ∧ dog_match_requests w' = (dog_match_requests w ++ [Match.columns record])%list
          ∧ Match.status (Match.columns record) = "pending"
          ∧ Match.contact_id (Match.columns record) = the (Create.contactId a)
          ∧ Match.requester_dog_id (Match.columns record) = the (Create.requesterDogId a)
          ∧ Match.requested_dog_id (Match.columns record) = the (Create.requestedDogId a)
    | Rejected _ => dog_match_requests w' = dog_match_requests w
    end.
Proof.
  intros H. unfold createMatchRequest in H.
  match goal with
  | |- ?G =>
      assert (Hstop : ∀ w0 e, only_time_passed w w0 → only_time_passed w0 w' →
                c = Rejected e → G)
  end.
  { intros w0 e H1 H2 ->.
    destruct (only_time_passed_trans _ _ _ H1 H2) as (? & ? & ? & _). auto. }
  pose proof (only_time_passed_refl w) as Hp.
  apply read_then in H as [(Hq & e & ->) | (? & w1 & Hq & _ & H)];
    [eauto | | apply read_only_unless_throw].
  pose proof (only_time_passed_trans _ _ _ Hp Hq) as Hp1. clear Hp Hq.
  apply read_then in H as [(Hq & e & ->) | (? & w2 & Hq & _ & H)];
    [eauto | | apply read_only_throw_when].
  pose proof (only_time_passed_trans _ _ _ Hp1 Hq) as Hp2. clear Hp1 Hq.
  apply read_then in H as [(Hq & e & ->) | (? & w3 & Hq & _ & H)];
    [eauto | | apply read_only_unless_throw].
  pose proof (only_time_passed_trans _ _ _ Hp2 Hq) as Hp3. clear Hp2 Hq.
  apply read_then in H as [(Hq & e & ->) | (? & w4 & Hq & _ & H)];
    [eauto | | apply read_only_throw_when].
  pose proof (only_time_passed_trans _ _ _ Hp3 Hq) as Hp4. clear Hp3 Hq.
  apply read_then in H as [(Hq & e & ->) | (active & w5 & Hq & _ & H)];
    [eauto | | apply read_only_getActiveRequestForContact].
  pose proof (only_time_passed_trans _ _ _ Hp4 Hq) as Hp5. clear Hp4 Hq.
  apply read_then in H as [(Hq & e & ->) | (? & w6 & Hq & _ & H)];
    [eauto | | destruct active; read_only].
  pose proof (only_time_passed_trans _ _ _ Hp5 Hq) as Hp6. clear Hp5 Hq.
  apply read_then in H as [(Hq & e & ->) | (target & w7 & Hq & _ & H)];
    [eauto | | apply read_only_if; [apply read_only_ret | apply read_only_lookupDogOwnerId]].
  pose proof (only_time_passed_trans _ _ _ Hp6 Hq) as Hp7. clear Hp6 Hq.
  apply read_then in H as [(Hq & e & ->) | (? & w8 & Hq & _ & H)];
    [eauto | | apply read_only_unless_throw].
  pose proof (only_time_passed_trans _ _ _ Hp7 Hq) as Hp8. clear Hp7 Hq.
  cbv zeta in H.
  destruct Hp8 as (Hdogs & Hreq & Hout & _).
  apply insert_request_cases in H as [(e & _ & -> & ->) | (_ & -> & ->)].
  - cbn. auto.
  - cbn. split; [exact Hdogs|]. split; [exact Hout|].
    eexists. split; [reflexivity|]. cbn. rewrite Hreq. repeat split.
Qed.

(** Bob's proposal in "chat-2" appends one pending request; the dogs and
    the outcomes stay. *)
Lemma createMatchRequest_writes_witness :
  let run :=
    createMatchRequest (Sample.proposal "chat-2" Sample.rex Sample.luna)
      (Sample.world "user-bob" [Sample.request Sample.rex Sample.luna "accepted"]) in
  dogs (snd run) = [Sample.rex; Sample.luna; Sample.duke; Sample.pixie]
  ∧ dog_match_outcomes (snd run) = []
  ∧ ∃ record,
      fst run = Fulfilled (Some record)
      ∧ dog_match_requests (snd run)
        = [Sample.request Sample.rex Sample.luna "accepted"; Match.columns record]
      ∧ Match.status (Match.columns record) = "pending".
Proof.
  intros run.
  destruct (createMatchRequest_writes _ _ _ _ (surjective_pairing run))
    as (Hdogs & Houtcomes & record & Hrecord & Htable & Hstatus & _).
  split; [exact Hdogs|]. split; [exact Houtcomes|].
  exists record. split; [|split; [exact Htable | exact Hstatus]].
  rewrite <- Hrecord. reflexivity.
Defined.

(** X2: the four checks on the arguments, in their order; each failure is
    a plain Error and happens before anything is asked of the backend (the
    world is returned as it was given). *)
Theorem createMatchRequest_input_errors a w :
  (Js.present (Create.contactId a) = false →
   createMatchRequest a w = (Rejected (new_Error "contactId is required"), w))
  ∧ (Js.present (Create.contactId a) = true →
     Js.present (Create.requesterDogId a) = false
     ∨ Js.present (Create.requestedDogId a) = false →
     createMatchRequest a w
     = (Rejected (new_Error "Both dogs must be provided to request breeding"), w))
  ∧ (Js.present (Create.contactId a) = true →
     Js.present (Create.requesterDogId a) = true →
     Js.present (Create.requestedDogId a) = true →
     Js.present (Create.requesterUserId a) = false →
     createMatchRequest a w = (Rejected (new_Error "requesterUserId is required"), w))
  ∧ (Js.present (Create.contactId a) = true →
     Js.present (Create.requesterDogId a) = true →
     Js.present (Create.requestedDogId a) = true →
     Js.present (Create.requesterUserId a) = true →
     the (Create.requesterDogId a) = the (Create.requestedDogId a) →
     createMatchRequest a w = (Rejected (new_Error "Dogs must be different"), w)).
Proof.
  repeat split.
  - intros Hc. unfold createMatchRequest. rewrite Hc. reflexivity.
  - intros Hc Hd. unfold createMatchRequest. rewrite Hc. run_check.
    assert (Hbad : negb (Js.present (Create.requesterDogId a))
                   || negb (Js.present (Create.requestedDogId a)) = true).
    { destruct Hd as [-> | ->]; [reflexivity | apply orb_true_r]. }
    rewrite Hbad. reflexivity.
  - intros Hc Hd1 Hd2 Hu. unfold createMatchRequest. rewrite Hc, Hd1, Hd2, Hu.
    do 2 run_check. reflexivity.
  - intros Hc Hd1 Hd2 Hu Hsame. unfold createMatchRequest. rewrite Hc, Hd1, Hd2, Hu.
    apply String.eqb_eq in Hsame. rewrite Hsame. do 3 run_check. reflexivity.
Qed.

(** Bob proposes Rex to Rex; then with an empty chat id. *)
Lemma createMatchRequest_input_errors_witness :
  createMatchRequest (Sample.proposal "chat-2" Sample.rex Sample.rex)
    (Sample.world "user-bob" [])
  = (Rejected (new_Error "Dogs must be different"), Sample.world "user-bob" [])
  ∧ createMatchRequest (Sample.proposal "" Sample.rex Sample.luna)
      (Sample.world "user-bob" [])
    = (Rejected (new_Error "contactId is required"), Sample.world "user-bob" []).
Proof.
  split.
  - destruct (createMatchRequest_input_errors
                (Sample.proposal "chat-2" Sample.rex Sample.rex)
                (Sample.world "user-bob" [])) as (_ & _ & _ & H).
    apply H; reflexivity.
  - destruct (createMatchRequest_input_errors
                (Sample.proposal "" Sample.rex Sample.luna)
                (Sample.world "user-bob" [])) as (H & _).
    apply H; reflexivity.
Defined.

(** X3: when the other owner is not given and cannot be looked up (the
    requested dog is not in the table, or has no owner), a well-formed
    proposal in a free chat fails with "Unable to determine the other
    owner" and nothing is written. *)
Theorem createMatchRequest_unknown_owner a w :
  well_formed a →
  active_requests (the (Create.contactId a)) w = [] →
  reliable_from (tick w) w →
  Js.present (Create.requestedUserId a) = false →
  dogs_with_id (the (Create.requestedDogId a)) w = []
  ∨ (∃ dog, dogs_with_id (the (Create.requestedDogId a)) w = [dog]
            ∧ Js.present (Dog.user_id dog) = false) →
  createMatchRequest a w
  = (Rejected
       (new_Error "Unable to determine the other owner. Please refresh and try again."),
     step (step w)).
Proof.
  intros Hwf Hnone Hreliable Hgiven Hdog.
  rewrite (createMatchRequest_no_conflict _ _ Hwf Hnone (Hreliable _ (le_n _))).
  rewrite Hgiven. destruct Hwf as (_ & _ & Hd2 & _).
  assert (Hserved : refused (step w) (tick (step w)) = None)
    by (apply (Hreliable (S (tick w))); lia).
  assert (Hlookup : ∃ owner, lookupDogOwnerId (Create.requestedDogId a) (step w)
                             = (Fulfilled owner, step (step w))
                             ∧ Js.present owner = false).
  { destruct Hdog as [Hdog | (dog & Hdog & Howner)].
    - exists None. split; [|reflexivity].
      unfold lookupDogOwnerId. rewrite Hd2. cbn [negb]. rewrite bind_run.
      unfold select_dog_maybeSingle. rewrite (request_served _ _ Hserved). cbn [fst snd].
      change (dogs_with_id _ (step (step w)))
        with (dogs_with_id (the (Create.requestedDogId a)) w).
      rewrite Hdog. reflexivity.
    - exists (truthy_or_null (Dog.user_id dog)). split.
      + apply lookupDogOwnerId_served; assumption.
      + unfold truthy_or_null. rewrite Howner. reflexivity. }
  destruct Hlookup as (owner & Hlookup & Howner).
  rewrite bind_run, Hlookup. cbv beta iota. rewrite bind_run, Howner. reflexivity.
Qed.

(** Bob proposes Rex to a dog that is not in the table. *)
Lemma createMatchRequest_unknown_owner_witness :
  createMatchRequest
    {| Create.contactId := Some "chat-2";
       Create.requesterDogId := Some "dog-rex";
       Create.requestedDogId := Some "dog-ghost";
       Create.requesterUserId := Some "user-bob";
       Create.requestedUserId := None;
       Create.notes := None |}
    (Sample.world "user-bob" [])
  = (Rejected
       (new_Error "Unable to determine the other owner. Please refresh and try again."),
     step (step (Sample.world "user-bob" []))).
Proof.
  apply createMatchRequest_unknown_owner.
  - repeat split; discriminate.
  - reflexivity.
  - intros k _. reflexivity.
  - reflexivity.
  - left. reflexivity.
Defined.

(** A well-formed proposal in a chat with an active request, when the
    lookup is served. *)
Lemma createMatchRequest_blocked a w first :
  well_formed a →
  refused w (tick w) = None →
  head (map Match.project
          (order_requested_at_desc (active_requests (the (Create.contactId a)) w)))
  = Some (Match.project first) →
  In first (active_requests (the (Create.contactId a)) w) →
  createMatchRequest a w = (Rejected (MATCH_REQUEST_EXISTS (Match.project first)), step w).
Proof.
  intros (Hc & Hd1 & Hd2 & Hu & Hne) Hserved Hfirst Hin.
  assert (Hhas : has ACTIVE_REQUEST_STATUSES (Match.a_status (Match.project first)) = true).
  { apply has_ACTIVE. apply active_requests_In in Hin. apply Hin. }
  unfold createMatchRequest. rewrite Hc, Hd1, Hd2, Hu.
  apply String.eqb_neq in Hne. rewrite Hne. do 4 run_check.
  rewrite bind_run, (getActiveRequestForContact_served _ _ Hc Hserved), Hfirst.
  cbv beta iota. rewrite bind_run, Hhas. reflexivity.
Qed.

(** What a fulfilled createMatchRequest went through. *)
Lemma createMatchRequest_fulfilled_inv a w r w' :
  createMatchRequest a w = (Fulfilled r, w') →
  well_formed a
  ∧ active_requests (the (Create.contactId a)) w = []
  ∧ ∃ target w0,
      only_time_passed w w0
      ∧ r = Some (embed (after_request w0 (request_payload a target))
                        (stored_request w0 (request_payload a target)))
      ∧ w' = after_request w0 (request_payload a target).
Proof.
  intros H. unfold createMatchRequest in H.
  await H as Hc. await H as Hd. await H as Hu. await H as Hne.
  apply orb_false_iff in Hd as [Hd1 Hd2]. apply negb_false_iff in Hd1, Hd2.
  apply String.eqb_neq in Hne.
  apply bind_fulfilled_inv in H as (active & w1 & Hget & H).
  pose proof (read_only_getActiveRequestForContact _ _ _ _ Hget) as Hp1.
  apply (getActiveRequestForContact_inv _ _ _ _ Hc) in Hget as [-> ->].
  apply bind_fulfilled_inv in H as (? & w2 & Hfree & H).
  assert (Hnone : active_requests (the (Create.contactId a)) w = []).
  { destruct (active_requests (the (Create.contactId a)) w) as [|m l] eqn:Hl; [reflexivity|].
    assert (Hin : In m (active_requests (the (Create.contactId a)) w))
      by (rewrite Hl; left; reflexivity).
    rewrite <- Hl in Hfree.
    destruct (first_active_request _ _ _ Hin) as (first & Hfirst & Hfirst_in).
    rewrite Hfirst in Hfree.
    assert (Hhas : has ACTIVE_REQUEST_STATUSES (Match.a_status (Match.project first)) = true).
    { apply has_ACTIVE. apply active_requests_In in Hfirst_in. apply Hfirst_in. }
    rewrite Hhas in Hfree. discriminate Hfree. }
  rewrite Hnone in Hfree. injection Hfree as _ <-.
  apply bind_fulfilled_inv in H as (target & w3 & Htarget & H).
  assert (Hp2 : only_time_passed (step w) w3).
  { revert Htarget. apply read_only_if; [apply read_only_ret | apply read_only_lookupDogOwnerId]. }
  await H as Hpresent. cbv zeta in H.
  apply insert_request_cases in H as [(e & _ & [=] & _) | (_ & [= ->] & ->)].
  split; [repeat split; assumption|]. split; [exact Hnone|].
  exists target, w3. split; [|auto].
  exact (only_time_passed_trans _ _ _ Hp1 Hp2).
Qed.

(** X4: a proposal that was just fulfilled blocks the same proposal made
    again: the second call fails with the Error whose [code] is
    "MATCH_REQUEST_EXISTS", and its [activeRequest] holds the id, the
    status, the two dogs and the instant of the request the first call
    created, which is in the table. *)
Theorem createMatchRequest_twice a w r w1 :
  createMatchRequest a w = (Fulfilled r, w1) →
  refused w1 (tick w1) = None →
  ∃ record,
    r = Some record
    ∧ In (Match.columns record) (dog_match_requests w1)
    ∧ createMatchRequest a w1
      = (Rejected
           (Error "A breeding request is already awaiting a response in this chat."
              (Some "MATCH_REQUEST_EXISTS")
              (Some {| Match.a_id := Match.id (Match.columns record);
                       Match.a_status := Match.status (Match.columns record);
                       Match.a_requester_dog_id :=
                         Match.requester_dog_id (Match.columns record);
                       Match.a_requested_dog_id :=
                         Match.requested_dog_id (Match.columns record);
                       Match.a_requested_at :=
                         Match.requested_at (Match.columns record) |})),
         step w1).
Proof.
  intros H Hserved.
  apply createMatchRequest_fulfilled_inv in H
    as (Hwf & Hnone & target & w0 & (_ & Hreq & _) & -> & ->).
  eexists. split; [reflexivity|].
  split; [apply in_or_app; right; left; reflexivity|].
  assert (Hnow : active_requests (the (Create.contactId a))
                   (after_request w0 (request_payload a target))
                 = [stored_request w0 (request_payload a target)]).
  { unfold active_requests in *. cbn [after_request with_requests dog_match_requests step].
    rewrite Hreq, List.filter_app, Hnone. cbn. rewrite String.eqb_refl. reflexivity. }
  pose proof (createMatchRequest_blocked a _ (stored_request w0 (request_payload a target))
                Hwf Hserved) as Hblocked.
  rewrite Hnow in Hblocked.
  exact (Hblocked eq_refl (or_introl eq_refl)).
Qed.

(** Bob proposes Rex to Luna in "chat-2" twice. *)
Lemma createMatchRequest_twice_witness :
  let first :=
    createMatchRequest (Sample.proposal "chat-2" Sample.rex Sample.luna)
      (Sample.world "user-bob" []) in
  ∃ record,
    fst first = Fulfilled (Some record)
    ∧ createMatchRequest (Sample.proposal "chat-2" Sample.rex Sample.luna) (snd first)
      = (Rejected
           (Error "A breeding request is already awaiting a response in this chat."
              (Some "MATCH_REQUEST_EXISTS")
              (Some {| Match.a_id := "row-new";
                       Match.a_status := "pending";
                       Match.a_requester_dog_id := "dog-rex";
                       Match.a_requested_dog_id := "dog-luna";
                       Match.a_requested_at :=
                         Match.requested_at (Match.columns record) |})),
         step (snd first)).
Proof.
  intros first.
  destruct (createMatchRequest_twice
              (Sample.proposal "chat-2" Sample.rex Sample.luna)
              (Sample.world "user-bob" []) _ (snd first) eq_refl eq_refl)
    as (record & Hrecord & _ & Hsecond).
  exists record. split; [rewrite <- Hrecord; reflexivity|].
  injection Hrecord as <-. exact Hsecond.
Defined.

(* ===================================================================== *)
(** ** getActiveRequestForContact and lookupDogOwnerId *)
(* ===================================================================== *)

Lemma strictly_newer_asym a b : strictly_newer a b = true → strictly_newer b a = false.
Proof.
  destruct a as [x|], b as [y|]; cbn; try reflexivity; try discriminate.
  rewrite !Z.ltb_lt, Z.ltb_ge. lia.
Qed.

(** If [c] is newer than [a], it is newer than [b] or [b] is newer than
    [a]. *)
Lemma strictly_newer_between a b c :
  strictly_newer c a = true → strictly_newer c b = true ∨ strictly_newer b a = true.
Proof.
  destruct a as [x|], b as [y|], c as [z|]; cbn; auto.
  rewrite !Z.ltb_lt. lia.
Qed.

Lemma insert_desc_newest_first r l : newest_first l → newest_first (insert_desc r l).
Proof.
  unfold newest_first. induction 1 as [|x t Hsorted IH Hx]; cbn.
  - repeat constructor.
  - destruct (strictly_newer (Match.requested_at x) (Match.requested_at r)) eqn:Hxr.
    + constructor; [exact IH|].
      apply List.Forall_forall. intros y Hy. apply insert_desc_In in Hy as [-> | Hy].
      * apply strictly_newer_asym. exact Hxr.
      * rewrite List.Forall_forall in Hx. apply Hx. exact Hy.
    + constructor; [constructor; assumption|].
      constructor; [exact Hxr|].
      apply List.Forall_forall. intros y Hy. rewrite List.Forall_forall in Hx.
      specialize (Hx y Hy). unfold not_newer in *.
      destruct (strictly_newer (Match.requested_at y) (Match.requested_at r)) eqn:Hyr;
        [|reflexivity].
      destruct (strictly_newer_between _ (Match.requested_at x) _ Hyr); congruence.
Qed.

(** Ordering puts the newest first. *)
Lemma order_requested_at_desc_newest_first l : newest_first (order_requested_at_desc l).
Proof.
  induction l as [|r l IH]; cbn.
  - constructor.
  - apply insert_desc_newest_first. exact IH.
Qed.

(** The head of an ordered list is not older than any row of the list. *)
Lemma order_requested_at_desc_head l first rest :
  order_requested_at_desc l = first :: rest →
  ∀ other, In other l → not_newer first other.
Proof.
  intros Hsorted other Hin.
  pose proof (order_requested_at_desc_newest_first l) as Hs. rewrite Hsorted in Hs.
  apply order_requested_at_desc_In in Hin. rewrite Hsorted in Hin.
  destruct Hin as [<- | Hin].
  - unfold not_newer. destruct (Match.requested_at first); cbn; [apply Z.ltb_irrefl | reflexivity].
  - apply StronglySorted_inv in Hs as [_ Hall]. rewrite List.Forall_forall in Hall. auto.
Qed.

(** X5: what getActiveRequestForContact is fulfilled with.  A request: it
    is an active request of the chat and none of the chat's active
    requests is newer.  Null: the chat id is missing or the chat has no
    active request. *)
Theorem getActiveRequestForContact_newest contactId w active w' :
  getActiveRequestForContact contactId w = (Fulfilled active, w') →
  match active with
  | Some found =>
      ∃ first,
        found = Match.project first
        ∧ In first (active_requests (the contactId) w)
        ∧ ∀ other, In other (active_requests (the contactId) w) → not_newer first other
  | None => Js.present contactId = false ∨ active_requests (the contactId) w = []
  end.
Proof.
  intros H. destruct (Js.present contactId) eqn:Hc.
  - apply (getActiveRequestForContact_inv _ _ _ _ Hc) in H as [-> _].
    destruct (order_requested_at_desc _) as [|first rest] eqn:Hsorted; cbn.
    + right. apply order_requested_at_desc_nil. exact Hsorted.
    + exists first. split; [reflexivity|]. split.
      * apply order_requested_at_desc_In. rewrite Hsorted. left. reflexivity.
      * apply (order_requested_at_desc_head _ _ _ Hsorted).
  - unfold getActiveRequestForContact in H. rewrite Hc in H. injection H as <- _.
    left. reflexivity.
Qed.

(** Of a declined request of 3000, a pending one of 1000 and an accepted
    one of 2000, the accepted one is found. *)
Lemma getActiveRequestForContact_newest_witness :
  ∃ first,
    Match.project (Sample.request_at "match-b" "accepted" 2000) = Match.project first
    ∧ In first
        (active_requests "chat-1"
           (Sample.world "user-bob"
              [Sample.request_at "match-c" "declined" 3000;
               Sample.request_at "match-a" "pending" 1000;
               Sample.request_at "match-b" "accepted" 2000]))
    ∧ not_newer first (Sample.request_at "match-a" "pending" 1000).
Proof.
  destruct (getActiveRequestForContact_newest (Some "chat-1")
              (Sample.world "user-bob"
                 [Sample.request_at "match-c" "declined" 3000;
                  Sample.request_at "match-a" "pending" 1000;
                  Sample.request_at "match-b" "accepted" 2000])
              (Some (Match.project (Sample.request_at "match-b" "accepted" 2000)))
              _ eq_refl)
    as (first & Hfirst & Hin & Hnewest).
  exists first. split; [exact Hfirst|]. split; [exact Hin|].
  apply Hnewest. left. reflexivity.
Defined.

(** X6: lookupDogOwnerId answers null without asking the backend when the
    id is missing, and null when no dog has the id; it gives the owner of
    the one dog that has it, or null when that dog has none; a refusal of
    the backend is thrown as it came. *)
Theorem lookupDogOwnerId_cases dogId w :
  (Js.present dogId = false → lookupDogOwnerId dogId w = (Fulfilled None, w))
  ∧ (Js.present dogId = true → refused w (tick w) = None →
     (dogs_with_id (the dogId) w = [] →
      lookupDogOwnerId dogId w = (Fulfilled None, step w))
     ∧ (∀ dog, dogs_with_id (the dogId) w = [dog] →
        lookupDogOwnerId dogId w = (Fulfilled (truthy_or_null (Dog.user_id dog)), step w)))
  ∧ (∀ e, Js.present dogId = true → refused w (tick w) = Some e →
     lookupDogOwnerId dogId w = (Rejected (Postgrest e), step w)).
Proof.
  split; [|split].
  - intros Hd. unfold lookupDogOwnerId. rewrite Hd. reflexivity.
  - intros Hd Hserved. split.
    + intros Hnone. unfold lookupDogOwnerId. rewrite Hd. cbn [negb]. rewrite bind_run.
      unfold select_dog_maybeSingle. rewrite (request_served _ _ Hserved). cbn [fst snd].
      change (dogs_with_id _ (step w)) with (dogs_with_id (the dogId) w).
      rewrite Hnone. reflexivity.
    + intros dog Hdog. apply lookupDogOwnerId_served; assumption.
  - intros e Hd Hrefused. unfold lookupDogOwnerId. rewrite Hd. cbn [negb]. rewrite bind_run.
    unfold select_dog_maybeSingle. rewrite (request_refused _ _ _ Hrefused). reflexivity.
Qed.

(** Luna's owner is Ann; nobody owns a dog that is not there. *)
Lemma lookupDogOwnerId_cases_witness :
  lookupDogOwnerId (Some "dog-luna") (Sample.world "user-bob" [])
  = (Fulfilled (Some "user-ann"), step (Sample.world "user-bob" []))
  ∧ lookupDogOwnerId (Some "dog-ghost") (Sample.world "user-bob" [])
    = (Fulfilled None, step (Sample.world "user-bob" []))
  ∧ lookupDogOwnerId None (Sample.world "user-bob" [])
    = (Fulfilled None, Sample.world "user-bob" []).
Proof.
  split; [|split].
  - destruct (lookupDogOwnerId_cases (Some "dog-luna") (Sample.world "user-bob" []))
      as (_ & H & _).
    destruct (H eq_refl eq_refl) as [_ Hfound]. apply (Hfound Sample.luna). reflexivity.
  - destruct (lookupDogOwnerId_cases (Some "dog-ghost") (Sample.world "user-bob" []))
      as (_ & H & _).
    destruct (H eq_refl eq_refl) as [Hnone _]. apply Hnone. reflexivity.
  - destruct (lookupDogOwnerId_cases None (Sample.world "user-bob" [])) as (H & _).
    apply H. reflexivity.
Defined.

(* ===================================================================== *)
(** ** fetchMatchesForUser and fetchAwaitingDogIds *)
(* ===================================================================== *)

Lemma insert_desc_Permutation r l : Permutation (insert_desc r l) (r :: l).
Proof.
  induction l as [|x t IH]; cbn; [reflexivity|].
  destruct (strictly_newer _ _); [|reflexivity].
  rewrite IH. apply perm_swap.
Qed.

(** Ordering neither drops nor repeats a row. *)
Lemma order_requested_at_desc_Permutation l : Permutation (order_requested_at_desc l) l.
Proof.
  induction l as [|r l IH]; cbn; [reflexivity|].
  rewrite insert_desc_Permutation, IH. reflexivity.
Qed.

Lemma requests_of_user_In m userId w :
  In m (requests_of_user userId w) ↔
  In m (dog_match_requests w)
  ∧ (Match.requester_user_id m = userId ∨ Match.requested_user_id m = userId).
Proof.
  unfold requests_of_user, involves_user.
  rewrite filter_In, orb_true_iff, !String.eqb_eq. reflexivity.
Qed.

Lemma fetchMatchesForUser_served userId w :
  Js.present userId = true →
  refused w (tick w) = None →
  fetchMatchesForUser userId w
  = (Fulfilled (map (embed w) (order_requested_at_desc (requests_of_user (the userId) w))),
     step w).
Proof.
  intros Hu Hserved. unfold fetchMatchesForUser. rewrite Hu. cbn [negb].
  rewrite bind_run. unfold select_matches_of_user. rewrite (request_served _ _ Hserved).
  reflexivity.
Qed.

(** X7: for a user id of letters, digits, "-" and "_" (the id is put
    into the filter unescaped).  fetchMatchesForUser answers the empty
    list, without asking the backend, for a missing user id.  Otherwise,
    when the backend answers, the rows it returns are the requests in which
    the user is the requester or the requested owner: each of them once,
    none else, with the two dogs and the outcomes of each embedded; a
    refusal is thrown as it came. *)
Theorem fetchMatchesForUser_result userId w :
  plain_id (the userId) = true →
  (Js.present userId = false → fetchMatchesForUser userId w = (Fulfilled [], w))
  ∧ (Js.present userId = true → refused w (tick w) = None →
     ∃ records,
       fetchMatchesForUser userId w = (Fulfilled records, step w)
       ∧ Permutation (map Match.columns records) (requests_of_user (the userId) w)
       ∧ (∀ m, In m (map Match.columns records) ↔
               In m (dog_match_requests w)
               ∧ (Match.requester_user_id m = the userId
                  ∨ Match.requested_user_id m = the userId))
       ∧ ∀ record, In record records → record = embed w (Match.columns record))
  ∧ (∀ e, Js.present userId = true → refused w (tick w) = Some e →
     fetchMatchesForUser userId w = (Rejected (Postgrest e), step w)).
Proof.
  intros _. split; [|split].
  - intros Hu. unfold fetchMatchesForUser. rewrite Hu. reflexivity.
  - intros Hu Hserved. eexists. split; [apply (fetchMatchesForUser_served _ _ Hu Hserved)|].
    assert (Hcolumns : map Match.columns
                         (map (embed w)
                            (order_requested_at_desc (requests_of_user (the userId) w)))
                       = order_requested_at_desc (requests_of_user (the userId) w)).
    { rewrite map_map. apply map_id. }
    rewrite Hcolumns. split; [apply order_requested_at_desc_Permutation|]. split.
    + intros m. rewrite order_requested_at_desc_In. apply requests_of_user_In.
    + intros record Hin. apply in_map_iff in Hin as (m & <- & _). reflexivity.
  - intros e Hu Hrefused. unfold fetchMatchesForUser. rewrite Hu. cbn [negb].
    rewrite bind_run. unfold select_matches_of_user.
    rewrite (request_refused _ _ _ Hrefused). reflexivity.
Qed.

(** X8: the rows fetchMatchesForUser returns come newest first: no row is
    followed by one with a later requested_at. *)
Theorem fetchMatchesForUser_newest_first userId w records w' :
  fetchMatchesForUser userId w = (Fulfilled records, w') →
  newest_first (map Match.columns records).
Proof.
  intros H. destruct (Js.present userId) eqn:Hu.
  - destruct (refused w (tick w)) as [e|] eqn:Hserved.
    + unfold fetchMatchesForUser in H. rewrite Hu in H. cbn [negb] in H.
      rewrite bind_run in H. unfold select_matches_of_user in H.
      rewrite (request_refused _ _ _ Hserved) in H. discriminate H.
    + rewrite (fetchMatchesForUser_served _ _ Hu Hserved) in H. injection H as <- _.
      rewrite map_map, map_id. apply order_requested_at_desc_newest_first.
  - unfold fetchMatchesForUser in H. rewrite Hu in H. injection H as <- _. constructor.
Qed.

(** Ann fetches her requests: the one of 2000 comes before the one of
    1000. *)
Lemma fetchMatchesForUser_result_witness :
  fetchMatchesForUser (Some "user-ann")
    (Sample.world "user-ann"
       [Sample.request_at "match-a" "pending" 1000;
        Sample.request_at "match-b" "accepted" 2000])
  = (Fulfilled
       [Sample.record_at "match-b" "accepted" 2000;
        Sample.record_at "match-a" "pending" 1000],
     step (Sample.world "user-ann"
             [Sample.request_at "match-a" "pending" 1000;
              Sample.request_at "match-b" "accepted" 2000]))
  ∧ fetchMatchesForUser None (Sample.world "user-ann" [])
    = (Fulfilled [], Sample.world "user-ann" []).
Proof.
  destruct (fetchMatchesForUser_result (Some "user-ann")
              (Sample.world "user-ann"
                 [Sample.request_at "match-a" "pending" 1000;
                  Sample.request_at "match-b" "accepted" 2000]) eq_refl)
    as (_ & H & _).
  destruct (H eq_refl eq_refl) as (records & Hrun & _).
  split.
  - rewrite Hrun. f_equal. f_equal.
    assert (Heq : fst (fetchMatchesForUser (Some "user-ann")
                         (Sample.world "user-ann"
                            [Sample.request_at "match-a" "pending" 1000;
                             Sample.request_at "match-b" "accepted" 2000]))
                  = Fulfilled records) by (rewrite Hrun; reflexivity).
    injection Heq as <-. reflexivity.
  - destruct (fetchMatchesForUser_result None (Sample.world "user-ann" []) eq_refl)
      as (H0 & _).
    apply H0. reflexivity.
Defined.

Lemma fetchMatchesForUser_newest_first_witness :
  newest_first
    [Sample.request_at "match-b" "accepted" 2000;
     Sample.request_at "match-a" "pending" 1000].
Proof.
  apply (fetchMatchesForUser_newest_first (Some "user-ann")
           (Sample.world "user-ann"
              [Sample.request_at "match-a" "pending" 1000;
               Sample.request_at "match-b" "accepted" 2000])
           [Sample.record_at "match-b" "accepted" 2000;
            Sample.record_at "match-a" "pending" 1000]
           (step (Sample.world "user-ann"
                    [Sample.request_at "match-a" "pending" 1000;
                     Sample.request_at "match-b" "accepted" 2000]))).
  reflexivity.
Defined.

(** The ids the query is made with: the truthy entries of the argument. *)
Lemma filtered_ids_In (ids : list (option Id)) (id : Id) :
  In id (remove_dups (map Js.String_ (List.filter Js.present ids)))
  ↔ In (Some id) ids ∧ id ≠ "".
Proof.
  rewrite <- list_elem_of_In, elem_of_remove_dups, list_elem_of_In, in_map_iff. split.
  - intros (o & <- & Hin). apply filter_In in Hin as [Hin Hpresent].
    destruct o as [s|]; [|discriminate Hpresent].
    split; [exact Hin | apply nonempty_true; exact Hpresent].
  - intros [Hin Hne]. exists (Some id). split; [reflexivity|].
    apply filter_In. split; [exact Hin | apply nonempty_true; exact Hne].
Qed.

Lemma add_dogs_elem (start : gset string) row x :
  x ∈ add_dogs start row ↔ x ∈ start ∨ (x ≠ "" ∧ (x = fst row ∨ x = snd row)).
Proof.
  unfold add_dogs.
  destruct (Js.nonempty (fst row)) eqn:H1, (Js.nonempty (snd row)) eqn:H2;
    rewrite ?elem_of_union, ?elem_of_singleton;
    try apply nonempty_true in H1; try apply nonempty_true in H2;
    try apply nonempty_false in H1; try apply nonempty_false in H2;
    intuition congruence.
Qed.

(** What the loop over the rows leaves in the set. *)
Lemma foldl_add_dogs_elem rows (start : gset string) x :
  x ∈ foldl add_dogs start rows ↔
  x ∈ start ∨ (x ≠ "" ∧ ∃ row, In row rows ∧ (x = fst row ∨ x = snd row)).
Proof.
  revert start. induction rows as [|row rows IH]; intros start; cbn [foldl].
  - split; [auto|]. intros [H | (_ & row & [] & _)]. exact H.
  - rewrite IH, add_dogs_elem. split.
    + intros [[H | [Hx Hrow]] | (Hx & r & Hr & Hxr)].
      * left. exact H.
      * right. split; [exact Hx|]. exists row. split; [left; reflexivity | exact Hrow].
      * right. split; [exact Hx|]. exists r. split; [right; exact Hr | exact Hxr].
    + intros [H | (Hx & r & [<- | Hr] & Hxr)].
      * left. left. exact H.
      * left. right. split; assumption.
      * right. split; [exact Hx|]. exists r. split; assumption.
Qed.

Lemma awaiting_with_true ids m :
  awaiting_with ids m = true ↔
  Match.status m = "awaiting_confirmation"
  ∧ (In (Match.requester_dog_id m) ids ∨ In (Match.requested_dog_id m) ids).
Proof.
  unfold awaiting_with.
  rewrite andb_true_iff, orb_true_iff, String.eqb_eq, !existsb_exists.
  split; intros [Hs Hin]; (split; [exact Hs|]).
  - destruct Hin as [(x & Hx & Heq) | (x & Hx & Heq)];
      apply String.eqb_eq in Heq; subst x; auto.
  - destruct Hin as [Hin | Hin]; [left | right]; eexists; (split; [exact Hin|]);
      apply String.eqb_refl.
Qed.

(** X9: for dog ids of letters, digits, "-" and "_" (the ids are joined
    by commas and put into the filter unescaped).  fetchAwaitingDogIds
    answers the empty set, without asking the backend, when its argument is
    not an array, is empty or holds no truthy id.  Otherwise, when the
    backend answers, an id is in the set exactly when it is a non-empty dog
    id of a request that is awaiting confirmation and that involves one of
    the truthy ids given: the set holds the given dogs that await an
    outcome and their partners. *)
Theorem fetchAwaitingDogIds_elem dogIds w :
  (∀ ids id, dogIds = Some ids → In (Some id) ids → plain_id id = true) →
  (dogIds = None → fetchAwaitingDogIds dogIds w = (Fulfilled ∅, w))
  ∧ (∀ ids, dogIds = Some ids →
       (∀ id, In (Some id) ids → id = "") →
       fetchAwaitingDogIds dogIds w = (Fulfilled ∅, w))
  ∧ (∀ ids, dogIds = Some ids → refused w (tick w) = None →
       ∃ awaiting w',
         fetchAwaitingDogIds dogIds w = (Fulfilled awaiting, w')
         ∧ ∀ x, x ∈ awaiting ↔
             x ≠ ""
             ∧ ∃ m, In m (dog_match_requests w)
                    ∧ Match.status m = "awaiting_confirmation"
                    ∧ (x = Match.requester_dog_id m ∨ x = Match.requested_dog_id m)
                    ∧ ∃ id, In (Some id) ids ∧ id ≠ ""
                            ∧ (id = Match.requester_dog_id m
                               ∨ id = Match.requested_dog_id m)).
Proof.
  assert (Hempty : ∀ ids : list (option Id),
            (∀ id, In (Some id) ids → id = "") →
            remove_dups (map Js.String_ (List.filter Js.present ids)) = []).
  { intros ids Hnone.
    destruct (remove_dups _) as [|id l] eqn:Hl; [reflexivity|].
    assert (Hin : In id (remove_dups (map Js.String_ (List.filter Js.present ids))))
      by (rewrite Hl; left; reflexivity).
    apply filtered_ids_In in Hin as [Hin Hne]. elim Hne. auto. }
  intros _. split; [|split].
  - intros ->. reflexivity.
  - intros ids -> Hnone. unfold fetchAwaitingDogIds.
    destruct ids as [|o ids]; [reflexivity|].
    rewrite (Hempty _ Hnone). reflexivity.
  - intros ids -> Hserved. unfold fetchAwaitingDogIds.
    destruct ids as [|o ids].
    { exists ∅, w. split; [reflexivity|]. intros x. split; [set_solver|].
      intros (_ & m & _ & _ & _ & id & [] & _). }
    set (given := o :: ids). cbv zeta.
    destruct (remove_dups (map Js.String_ (List.filter Js.present given)))
      as [|id0 rest] eqn:Hfiltered.
    { exists ∅, w. split; [reflexivity|]. intros x. split; [set_solver|].
      intros (_ & m & _ & _ & _ & id & Hin & Hne & _).
      assert (Hid : In id (remove_dups (map Js.String_ (List.filter Js.present given))))
        by (apply filtered_ids_In; auto).
      rewrite Hfiltered in Hid. destruct Hid. }
    cbn [length Nat.eqb]. rewrite bind_run. unfold select_awaiting_dogs.
    rewrite (request_served _ _ Hserved). cbn [fst snd].
    eexists. eexists. split; [reflexivity|].
    intros x. cbn [data answer default]. rewrite foldl_add_dogs_elem.
    rewrite <- Hfiltered. split.
    + intros [Hx | (Hx & row & Hrow & Hxrow)]; [set_solver|].
      apply in_map_iff in Hrow as (m & <- & Hm).
      apply filter_In in Hm as [Hm Hawait]. apply awaiting_with_true in Hawait as [Hs Hids].
      split; [exact Hx|]. exists m. split; [exact Hm|]. split; [exact Hs|].
      split; [exact Hxrow|].
      destruct Hids as [Hid | Hid]; apply filtered_ids_In in Hid as [Hid Hne];
        eexists; (split; [exact Hid|]); (split; [exact Hne|]); auto.
    + intros (Hx & m & Hm & Hs & Hxm & id & Hid & Hne & Hidm). right.
      split; [exact Hx|].
      exists (Match.requester_dog_id m, Match.requested_dog_id m).
      split; [|exact Hxm].
      apply in_map_iff. exists m. split; [reflexivity|].
      apply filter_In. split; [exact Hm|].
      apply awaiting_with_true. split; [exact Hs|].
      assert (Hin : In id (remove_dups (map Js.String_ (List.filter Js.present given))))
        by (apply filtered_ids_In; auto).
      destruct Hidm as [<- | <-]; auto.
Qed.

(** Asked about Rex alone, with Rex and Luna awaiting an outcome: both
    are in the set. *)
Lemma fetchAwaitingDogIds_elem_witness :
  ∃ awaiting w',
    fetchAwaitingDogIds (Some [Some "dog-rex"; None]) (Sample.awaiting "user-bob")
    = (Fulfilled awaiting, w')
    ∧ "dog-rex" ∈ awaiting ∧ "dog-luna" ∈ awaiting ∧ "dog-duke" ∉ awaiting.
Proof.
  destruct (fetchAwaitingDogIds_elem (Some [Some "dog-rex"; None])
              (Sample.awaiting "user-bob")) as (_ & _ & H).
  { intros ids id [= <-] [[= <-] | [Hnull | []]]; [reflexivity | discriminate Hnull]. }
  destruct (H _ eq_refl eq_refl) as (awaiting & w' & Hrun & Helem).
  exists awaiting, w'. split; [exact Hrun|]. split; [|split].
  - apply Helem. split; [discriminate|].
    exists (Sample.request Sample.rex Sample.luna "awaiting_confirmation").
    split; [left; reflexivity|]. split; [reflexivity|]. split; [left; reflexivity|].
    exists "dog-rex". split; [left; reflexivity|]. split; [discriminate|].
    left. reflexivity.
  - apply Helem. split; [discriminate|].
    exists (Sample.request Sample.rex Sample.luna "awaiting_confirmation").
    split; [left; reflexivity|]. split; [reflexivity|]. split; [right; reflexivity|].
    exists "dog-rex". split; [left; reflexivity|]. split; [discriminate|].
    left. reflexivity.
  - intros Hin. apply Helem in Hin as (_ & m & Hm & _ & Hx & _).
    destruct Hm as [<- | []]. destruct Hx as [Hx | Hx]; discriminate Hx.
Defined.

(* ===================================================================== *)
(** ** mapMatchRecord: the flags of a view *)
(* ===================================================================== *)

Lemma has_STATUS_SET status :
  has STATUS_SET status = true ↔
  In status
    ["pending"; "accepted"; "declined"; "cancelled"; "awaiting_confirmation";
     "completed_success"; "completed_failed"].
Proof.
  unfold has, STATUS_SET.
  rewrite bool_decide_eq_true, elem_of_list_to_set. apply list_elem_of_In.
Qed.

(** Splits on which of the seven statuses [s] is, if any. *)
Ltac by_status s :=
  destruct (String.eqb_spec s "pending") as [-> | ?];
  [| destruct (String.eqb_spec s "accepted") as [-> | ?];
     [| destruct (String.eqb_spec s "declined") as [-> | ?];
        [| destruct (String.eqb_spec s "cancelled") as [-> | ?];
           [| destruct (String.eqb_spec s "awaiting_confirmation") as [-> | ?];
              [| destruct (String.eqb_spec s "completed_success") as [-> | ?];
                 [| destruct (String.eqb_spec s "completed_failed") as [-> | ?]]]]]]].

(** X10: the viewer is the requester exactly when a user id is given and is
    the requester's; the viewer may cancel exactly when he is the requester
    and the status is one of ACTIVE_STATUS_LIST, that is, for a stored
    request, exactly when the request is one of those that block a new
    proposal in its chat. *)
Theorem mapMatchRecord_canCancel (row : Match.record) (userId : option Id) :
  ∃ v,
    mapMatchRecord (Some row) userId = Some v
    ∧ (View.iAmRequester v = true ↔
       Js.present userId = true
       ∧ Match.requester_user_id (Match.columns row) = the userId)
    ∧ (View.canCancel v = true ↔
       View.iAmRequester v = true
       ∧ In (Match.status (Match.columns row)) ACTIVE_STATUS_LIST)
    ∧ ∀ w, In (Match.columns row) (dog_match_requests w) →
        (View.canCancel v = true ↔
         View.iAmRequester v = true
         ∧ In (Match.columns row)
              (active_requests (Match.contact_id (Match.columns row)) w)).
Proof.
  eexists. split; [reflexivity|]. cbn [View.iAmRequester View.canCancel].
  assert (Hactive :
    (Match.status (Match.columns row) =? "pending")
    || (Match.status (Match.columns row) =? "accepted")
    || (Match.status (Match.columns row) =? "awaiting_confirmation") = true
    ↔ In (Match.status (Match.columns row)) ACTIVE_STATUS_LIST).
  { unfold ACTIVE_STATUS_LIST. cbn [In].
    rewrite !orb_true_iff, !String.eqb_eq. intuition congruence. }
  split; [|split].
  - destruct userId as [u|]; cbn [Js.present Js.String_ the default].
    + destruct (Js.nonempty u); rewrite ?String.eqb_eq; intuition congruence.
    + intuition congruence.
  - rewrite andb_true_iff, Hactive. reflexivity.
  - intros w Hin. rewrite andb_true_iff, Hactive, active_requests_In. intuition.
Qed.

(** X11: for each of the seven statuses of STATUS_SET the request is either
    active or history, never both: isHistory is true exactly when the
    status is not in ACTIVE_STATUS_LIST; and a completed request is
    history. *)
Theorem mapMatchRecord_isHistory (row : Match.record) (userId : option Id) :
  has STATUS_SET (Match.status (Match.columns row)) = true →
  ∃ v,
    mapMatchRecord (Some row) userId = Some v
    ∧ (View.isHistory v = true ↔ ¬ In (Match.status (Match.columns row)) ACTIVE_STATUS_LIST)
    ∧ (View.isCompleted v = true → View.isHistory v = true).
Proof.
  intros Hknown. eexists. split; [reflexivity|].
  cbn [View.isHistory View.isCompleted].
  apply has_STATUS_SET in Hknown. unfold ACTIVE_STATUS_LIST.
  set (s := Match.status (Match.columns row)) in *. clearbody s. cbn [In] in *.
  split.
  - destruct Hknown as [<- | [<- | [<- | [<- | [<- | [<- | [<- | []]]]]]]]; cbn;
      intuition congruence.
  - intros H. rewrite H. reflexivity.
Qed.

Lemma mapMatchRecord_isHistory_witness :
  ∃ v,
    mapMatchRecord (Some (Sample.record Sample.rex Sample.luna "declined"))
      (Some "user-ann") = Some v
    ∧ View.isHistory v = true.
Proof.
  destruct (mapMatchRecord_isHistory (Sample.record Sample.rex Sample.luna "declined")
              (Some "user-ann") eq_refl) as (v & Hv & Hhistory & _).
  exists v. split; [exact Hv|]. apply Hhistory.
  intros [H | [H | [H | []]]]; discriminate H.
Defined.

(** X12: the flags that call for an action exclude each other and history:
    a request never both requires the viewer's response and can be
    cancelled by him; a request in history requires no response, cannot be
    cancelled and awaits no outcome; a request that awaits the viewer's
    outcome requires no response. *)
Theorem mapMatchRecord_exclusive (row : Match.record) (userId : option Id) :
  ∃ v,
    mapMatchRecord (Some row) userId = Some v
    ∧ ¬ (View.requiresResponse v = true ∧ View.canCancel v = true)
    ∧ ¬ (View.requiresResponse v = true ∧ View.awaitingMyOutcome v = true)
    ∧ ¬ (View.isHistory v = true ∧ View.requiresResponse v = true)
    ∧ ¬ (View.isHistory v = true ∧ View.canCancel v = true)
    ∧ ¬ (View.isHistory v = true ∧ View.awaitingMyOutcome v = true).
Proof.
  eexists. split; [reflexivity|].
  cbn [View.requiresResponse View.canCancel View.awaitingMyOutcome View.isHistory].
  set (s := Match.status (Match.columns row)). clearbody s.
  set (requester := if Js.present userId then _ else false). clearbody requester.
  set (male := _ =? "male"). set (female := _ =? "female"). clearbody male female.
  by_status s; cbn; destruct requester, male, female; cbn;
    repeat split; intros [H1 H2]; discriminate.
Qed.

(** X13: a viewer who is not the requester (no user id, or another user's,
    participant or not) is shown the request as received: his dog is the
    requested dog, he cannot cancel, and a pending request requires his
    response.  A null row maps to null. *)
Theorem mapMatchRecord_not_requester (row : Match.record) (userId : option Id) :
  Js.present userId = false
  ∨ the userId ≠ Match.requester_user_id (Match.columns row) →
  mapMatchRecord None userId = None
  ∧ ∃ v,
      mapMatchRecord (Some row) userId = Some v
      ∧ View.iAmRequester v = false
      ∧ View.direction v = "received"
      ∧ View.myDog v = Match.requested_dog row
      ∧ View.partnerDog v = Match.requester_dog row
      ∧ View.canCancel v = false
      ∧ (View.requiresResponse v = true ↔ Match.status (Match.columns row) = "pending").
Proof.
  intros Hother. split; [reflexivity|].
  assert (Hnot : (if Js.present userId
                  then Js.String_ (Some (Match.requester_user_id (Match.columns row)))
                       =? Js.String_ userId
                  else false) = false).
  { destruct Hother as [-> | Hne]; [reflexivity|].
    destruct userId as [u|]; cbn in *; [|reflexivity].
    destruct (Js.nonempty u); [|reflexivity].
    apply String.eqb_neq. congruence. }
  eexists. split; [reflexivity|].
  cbn [View.iAmRequester View.direction View.myDog View.partnerDog View.canCancel
         View.requiresResponse].
  rewrite Hnot. cbn [andb negb]. rewrite andb_true_r, String.eqb_eq. repeat split; auto.
Qed.

(** A stranger views Bob's pending request to Ann. *)
Lemma mapMatchRecord_not_requester_witness :
  ∃ v,
    mapMatchRecord (Some (Sample.record Sample.rex Sample.luna "pending"))
      (Some "user-cy") = Some v
    ∧ View.direction v = "received"
    ∧ View.myDog v = Some Sample.luna
    ∧ View.requiresResponse v = true.
Proof.
  destruct (mapMatchRecord_not_requester
              (Sample.record Sample.rex Sample.luna "pending") (Some "user-cy"))
    as (_ & v & Hv & _ & Hdir & Hdog & _ & _ & Hresp); [right; discriminate|].
  exists v. split; [exact Hv|]. split; [exact Hdir|]. split; [exact Hdog|].
  apply Hresp. reflexivity.
Defined.

(** X14: the requester and the requested owner see mirrored views of a
    request: sent for one and received for the other, each one's dog the
    other's partner dog, the same history flags; and while the request is
    pending the requester can cancel and the other must respond, not the
    reverse. *)
Theorem mapMatchRecord_mirrored (row : Match.record) :
  Js.nonempty (Match.requester_user_id (Match.columns row)) = true →
  Match.requester_user_id (Match.columns row) ≠ Match.requested_user_id (Match.columns row) →
  ∃ mine theirs,
    mapMatchRecord (Some row) (Some (Match.requester_user_id (Match.columns row))) = Some mine
    ∧ mapMatchRecord (Some row) (Some (Match.requested_user_id (Match.columns row)))
      = Some theirs
    ∧ View.direction mine = "sent" ∧ View.direction theirs = "received"
    ∧ View.myDog mine = View.partnerDog theirs
    ∧ View.partnerDog mine = View.myDog theirs
    ∧ View.isHistory mine = View.isHistory theirs
    ∧ View.isCompleted mine = View.isCompleted theirs
    ∧ View.outcome mine = View.outcome theirs
    ∧ (Match.status (Match.columns row) = "pending" →
       View.canCancel mine = true ∧ View.requiresResponse mine = false
       ∧ View.canCancel theirs = false ∧ View.requiresResponse theirs = true).
Proof.
  intros Hrequester Hdiffer.
  eexists. eexists. split; [reflexivity|]. split; [reflexivity|].
  cbn [View.direction View.myDog View.partnerDog View.isHistory View.isCompleted
         View.outcome View.canCancel View.requiresResponse Js.present Js.String_].
  rewrite Hrequester, String.eqb_refl.
  assert (Hnot : (if Js.nonempty (Match.requested_user_id (Match.columns row))
                  then Match.requester_user_id (Match.columns row)
                       =? Match.requested_user_id (Match.columns row)
                  else false) = false).
  { destruct (Js.nonempty (Match.requested_user_id (Match.columns row))); [|reflexivity].
    apply String.eqb_neq. exact Hdiffer. }
  rewrite Hnot. repeat split. all: rewrite H; reflexivity.
Qed.

Lemma mapMatchRecord_mirrored_witness :
  ∃ mine theirs,
    mapMatchRecord (Some (Sample.record Sample.rex Sample.luna "pending"))
      (Some "user-bob") = Some mine
    ∧ mapMatchRecord (Some (Sample.record Sample.rex Sample.luna "pending"))
        (Some "user-ann") = Some theirs
    ∧ View.myDog mine = Some Sample.rex ∧ View.myDog theirs = Some Sample.luna
    ∧ View.canCancel mine = true ∧ View.requiresResponse theirs = true.
Proof.
  destruct (mapMatchRecord_mirrored (Sample.record Sample.rex Sample.luna "pending"))
    as (mine & theirs & Hmine & Htheirs & _ & _ & Hdog & Hpartner & _ & _ & _ & Hpending);
    [reflexivity | discriminate|].
  destruct (Hpending eq_refl) as (Hcancel & _ & _ & Hrespond).
  exists mine, theirs. split; [exact Hmine|]. split; [exact Htheirs|].
  split; [injection Hmine as <-; reflexivity|].
  split; [injection Htheirs as <-; reflexivity|].
  split; assumption.
Defined.

(** X15: the flag isMaleDogOwner of the view and the gate of
    submitMatchOutcome agree: for the viewer's dog the gate is closed
    exactly when the flag is set and the outcome is not no_show; a viewer
    without a dog is flagged neither as a male dog's owner nor as awaiting
    his outcome. *)
Theorem mapMatchRecord_agrees_with_gate (row : Match.record) (userId : option Id) :
  ∃ v,
    mapMatchRecord (Some row) userId = Some v
    ∧ (∀ dog a, View.myDog v = Some dog →
         gate_closed a dog
         = View.isMaleDogOwner v && negb (String.eqb (Submit.outcome a) "no_show"))
    ∧ (View.myDog v = None →
       View.isMaleDogOwner v = false ∧ View.awaitingMyOutcome v = false).
Proof.
  eexists. split; [reflexivity|].
  cbn [View.myDog View.isMaleDogOwner View.awaitingMyOutcome]. split.
  - intros dog a Hdog. rewrite Hdog. reflexivity.
  - intros Hdog. rewrite Hdog. cbn. split; [reflexivity | apply andb_false_r].
Qed.

(** Bob's dog Duke is "MALE": the view flags it, and the gate is closed for
    success. *)
Lemma mapMatchRecord_agrees_with_gate_witness :
  ∃ v,
    mapMatchRecord (Some (Sample.record Sample.duke Sample.pixie "awaiting_confirmation"))
      (Some "user-bob") = Some v
    ∧ View.isMaleDogOwner v = true
    ∧ gate_closed (Sample.submission Sample.duke "success" Js.Null None) Sample.duke = true.
Proof.
  destruct (mapMatchRecord_agrees_with_gate
              (Sample.record Sample.duke Sample.pixie "awaiting_confirmation")
              (Some "user-bob")) as (v & Hv & Hgate & _).
  exists v. split; [exact Hv|].
  assert (Hdog : View.myDog v = Some Sample.duke) by (injection Hv as <-; reflexivity).
  split; [injection Hv as <-; reflexivity|].
  rewrite (Hgate _ (Sample.submission Sample.duke "success" Js.Null None) Hdog).
  injection Hv as <-. reflexivity.
Defined.

(* ===================================================================== *)
(** ** updateMatchStatus and acceptMatchRequest: errors and writes *)
(* ===================================================================== *)

(** The three ways the update that ends both functions goes: refused;
    served on the one row the id names; served on no row or several, which
    [.single()] turns into PGRST116 with the table left as it was. *)
Lemma update_match_single_cases patch matchId w c w' :
  (res ← update_match_single patch matchId; _ ← throw_if_error res; mret (data res)) w
  = (c, w') →
  (∃ e, refused w (tick w) = Some e ∧ c = Rejected (Postgrest e) ∧ w' = step w)
  ∨ (refused w (tick w) = None
     ∧ ∃ r, matches_with_id matchId w = [r]
            ∧ c = Fulfilled (Some (apply_patch patch r))
            ∧ w' = with_requests (patched_requests patch matchId w) (step w))
  ∨ (refused w (tick w) = None
     ∧ (∀ r, matches_with_id matchId w ≠ [r])
     ∧ c = Rejected (Postgrest PGRST116) ∧ w' = step w).
Proof.
  destruct (refused w (tick w)) as [e|] eqn:Hserved; intros H.
  - left. exists e. rewrite bind_run in H. unfold update_match_single in H.
    rewrite (request_refused _ _ _ Hserved) in H. injection H as <- <-. auto.
  - right. destruct (matches_with_id matchId w) as [|r [|r2 rows]] eqn:Hrows.
    + right. rewrite bind_run in H. unfold update_match_single in H.
      rewrite (request_served _ _ Hserved) in H. cbn [fst snd] in H.
      change (List.filter _ (dog_match_requests (step w)))
        with (matches_with_id matchId w) in H.
      rewrite Hrows in H. injection H as <- <-. repeat split; auto; discriminate.
    + left. rewrite (update_match_single_served _ _ _ _ Hserved Hrows) in H.
      injection H as <- <-. split; [reflexivity|]. exists r. auto.
    + right. rewrite bind_run in H. unfold update_match_single in H.
      rewrite (request_served _ _ Hserved) in H. cbn [fst snd] in H.
      change (List.filter _ (dog_match_requests (step w)))
        with (matches_with_id matchId w) in H.
      rewrite Hrows in H. injection H as <- <-. repeat split; auto; discriminate.
Qed.

Lemma same_request_refl m : same_request m m.
Proof. unfold same_request. repeat split. Qed.

Lemma only_updated_refl matchId rows : only_updated matchId rows rows.
Proof.
  unfold only_updated. induction rows; constructor; auto using same_request_refl.
Qed.

(** A patch that does not name requested_at changes, in the rows with the
    id, the status and the instants only, and no other row. *)
Lemma patched_requests_only_updated patch matchId w :
  patch !! "requested_at" = None →
  only_updated matchId (dog_match_requests w) (patched_requests patch matchId w).
Proof.
  intros Hpatch. unfold only_updated, patched_requests.
  induction (dog_match_requests w) as [|m rows IH]; cbn [map]; constructor; [|exact IH].
  destruct (String.eqb_spec (Match.id m) matchId) as [Hid | Hid].
  - split; [|contradiction].
    unfold same_request. cbn. unfold set_instant. rewrite Hpatch. repeat split.
  - split; [apply same_request_refl | reflexivity].
Qed.

(** The patch updateMatchStatus has built when it comes to the update, for
    a status of STATUS_SET. *)
Lemma updateMatchStatus_known matchId status w :
  Js.present matchId = true →
  has STATUS_SET status = true →
  ∃ patch w0,
    only_time_passed w w0
    ∧ patch !! "status" = Some (Text status)
    ∧ patch !! "requested_at" = None
    ∧ patch !! "last_status_changed_at" = None
    ∧ updateMatchStatus matchId status w
      = (res ← update_match_single patch (the matchId);
         _ ← throw_if_error res; mret (data res)) w0.
Proof.
  intros Hid Hknown. apply has_STATUS_SET in Hknown.
  destruct Hknown as [<- | [<- | [<- | [<- | [<- | [<- | [<- | []]]]]]]].
  1: exists {[ "status" := Text "pending" ]}, w.
  2: exists (<[ "accepted_at" := Instant (browser_clock w (tick w)) ]>
               {[ "status" := Text "accepted" ]}), (step w).
  3: exists (<[ "declined_at" := Instant (browser_clock w (tick w)) ]>
               {[ "status" := Text "declined" ]}), (step w).
  4: exists (<[ "cancelled_at" := Instant (browser_clock w (tick w)) ]>
               {[ "status" := Text "cancelled" ]}), (step w).
  5: exists (<[ "awaiting_confirmation_at" := Instant (browser_clock w (tick w)) ]>
               {[ "status" := Text "awaiting_confirmation" ]}), (step w).
  6: exists (<[ "completed_at" := Instant (browser_clock w (tick w)) ]>
               {[ "status" := Text "completed_success" ]}), (step w).
  7: exists (<[ "completed_at" := Instant (browser_clock w (tick w)) ]>
               {[ "status" := Text "completed_failed" ]}), (step w).
  all: (split; [first [apply only_time_passed_refl | apply only_time_passed_step]|]);
    (split; [reflexivity|]); (split; [reflexivity|]); (split; [reflexivity|]);
    unfold updateMatchStatus; rewrite Hid; run_check;
    match goal with
    | |- context [has STATUS_SET ?s] => change (has STATUS_SET s) with true
    end;
    run_check;
    match goal with
    | |- context [timestampFields !! ?s] =>
        let field := eval vm_compute in (timestampFields !! s) in
        change (timestampFields !! s) with field
    end;
    cbn [String.eqb Ascii.eqb Bool.eqb orb];
    repeat (rewrite bind_run; cbn [new_Date mret Async_ret]);
    reflexivity.
Qed.

Lemma acceptMatchRequest_known matchId w :
  Js.present matchId = true →
  acceptMatchRequest matchId w
  = (res ← update_match_single (accept_patch (browser_clock w (tick w))) (the matchId);
     _ ← throw_if_error res; mret (data res)) (step w).
Proof.
  intros Hid. unfold acceptMatchRequest. rewrite Hid. run_check.
  rewrite bind_run. reflexivity.
Qed.

(** X16: updateMatchStatus asks for the match id first: without one it fails
    with "matchId is required" whatever the status, and nothing is asked of
    the backend.  With an id that does not name exactly one request, a
    status of STATUS_SET and a backend that answers, it fails with the
    client's error PGRST116 and nothing is written. *)
Theorem updateMatchStatus_errors matchId status w :
  (Js.present matchId = false →
   updateMatchStatus matchId status w = (Rejected (new_Error "matchId is required"), w))
  ∧ (Js.present matchId = true → has STATUS_SET status = true →
     reliable_from (tick w) w →
     (∀ r, matches_with_id (the matchId) w ≠ [r]) →
     ∃ w', updateMatchStatus matchId status w = (Rejected (Postgrest PGRST116), w')
           ∧ only_time_passed w w').
Proof.
  split.
  - intros Hid. unfold updateMatchStatus. rewrite Hid. reflexivity.
  - intros Hid Hknown Hreliable Hnone.
    destruct (updateMatchStatus_known _ _ w Hid Hknown)
      as (patch & w0 & Hp & _ & _ & _ & Hrun).
    rewrite Hrun.
    destruct ((res ← update_match_single patch (the matchId);
               _ ← throw_if_error res; mret (data res)) w0) as [c w'] eqn:H.
    assert (Hrows : matches_with_id (the matchId) w0 = matches_with_id (the matchId) w).
    { unfold matches_with_id. destruct Hp as (_ & -> & _). reflexivity. }
    apply update_match_single_cases in H
      as [(e & Hrefused & _) | [(_ & r & Hr & _) | (_ & _ & -> & ->)]].
    + destruct Hp as (_ & _ & _ & _ & _ & _ & _ & Hsame & Htick).
      rewrite Hsame, (Hreliable _ Htick) in Hrefused. discriminate Hrefused.
    + rewrite Hrows in Hr. elim (Hnone _ Hr).
    + eexists. split; [reflexivity|].
      exact (only_time_passed_trans _ _ _ Hp (only_time_passed_step _)).
Qed.

(** Ann declines a request that is not there. *)
Lemma updateMatchStatus_errors_witness :
  updateMatchStatus None "bogus" (Sample.world "user-ann" [])
  = (Rejected (new_Error "matchId is required"), Sample.world "user-ann" [])
  ∧ ∃ w',
      updateMatchStatus (Some "match-9") "declined"
        (Sample.world "user-ann" [Sample.request Sample.rex Sample.luna "pending"])
      = (Rejected (Postgrest PGRST116), w')
      ∧ dog_match_requests w' = [Sample.request Sample.rex Sample.luna "pending"].
Proof.
  split.
  - destruct (updateMatchStatus_errors None "bogus" (Sample.world "user-ann" []))
      as [H _].
    apply H. reflexivity.
  - destruct (updateMatchStatus_errors (Some "match-9") "declined"
                (Sample.world "user-ann" [Sample.request Sample.rex Sample.luna "pending"]))
      as [_ H].
    destruct H as (w' & Hrun & (_ & Hrows & _)).
    + reflexivity.
    + reflexivity.
    + intros k _. reflexivity.
    + intros r. discriminate.
    + exists w'. split; [exact Hrun | exact Hrows].
Defined.

(** X17: whatever its arguments and however it ends, updateMatchStatus
    leaves the dogs and the outcomes alone, and in the requests it changes
    at most the status and the instants of the row with the given id: no
    other row, no id, chat, user, dog or notes column, and never
    requested_at.  Rejected, it has written nothing.  Fulfilled, the id
    named one request, which is stored with the new status and with its
    last_status_changed_at as it was. *)
Theorem updateMatchStatus_writes matchId status w c w' :
  updateMatchStatus matchId status w = (c, w') →
  dogs w' = dogs w
  ∧ dog_match_outcomes w' = dog_match_outcomes w
  ∧ only_updated (the matchId) (dog_match_requests w) (dog_match_requests w')
  ∧ match c with
    | Rejected _ => dog_match_requests w' = dog_match_requests w
    | Fulfilled r =>
        ∃ before after,
          r = Some after
          ∧ matches_with_id (the matchId) w = [before]
          ∧ In after (dog_match_requests w')
          ∧ Match.status after = status
          ∧ same_request before after
          ∧ Match.last_status_changed_at after = Match.last_status_changed_at before
    end.
Proof.
  intros H. destruct (Js.present matchId) eqn:Hid.
  2: { unfold updateMatchStatus in H. rewrite Hid in H. injection H as <- <-.
       auto using only_updated_refl. }
  destruct (has STATUS_SET status) eqn:Hknown.
  2: { unfold updateMatchStatus in H. rewrite Hid, Hknown in H. injection H as <- <-.
       auto using only_updated_refl. }
  destruct (updateMatchStatus_known _ _ w Hid Hknown)
    as (patch & w0 & (Hdogs & Hreq & Hout & _) & Hstatus & Hat & Hlast & Hrun).
  rewrite Hrun in H.
  assert (Hrows : matches_with_id (the matchId) w0 = matches_with_id (the matchId) w)
    by (unfold matches_with_id; rewrite Hreq; reflexivity).
  apply update_match_single_cases in H
    as [(e & _ & -> & ->) | [(_ & r & Hr & -> & ->) | (_ & _ & -> & ->)]]; cbn.
  - rewrite Hreq. auto using only_updated_refl.
  - split; [exact Hdogs|]. split; [exact Hout|]. split.
    + rewrite <- Hreq. apply patched_requests_only_updated. exact Hat.
    + exists r, (apply_patch patch r). split; [reflexivity|].
      split; [rewrite <- Hrows; exact Hr|].
      split; [apply (patched_requests_In _ _ _ _ Hr)|].
      unfold same_request. cbn. unfold set_text, set_instant.
      rewrite Hstatus, Hat, Hlast. repeat split.
  - rewrite Hreq. auto using only_updated_refl.
Qed.

(** Of two requests, the one that is declined changes and the other does
    not. *)
Lemma updateMatchStatus_writes_witness :
  let run :=
    updateMatchStatus (Some "match-a") "declined"
      (Sample.world "user-ann"
         [Sample.request_at "match-a" "pending" 1000;
          Sample.request_at "match-b" "accepted" 2000]) in
  ∃ after,
    fst run = Fulfilled (Some after)
    ∧ Match.status after = "declined"
    ∧ Match.requested_at after = Some 1000%Z
    ∧ dog_match_requests (snd run) = [after; Sample.request_at "match-b" "accepted" 2000].
Proof.
  intros run.
  destruct (updateMatchStatus_writes _ _ _ _ _ (surjective_pairing run))
    as (_ & _ & _ & before & after & Hafter & Hbefore & _ & Hstatus & Hsame & _).
  exists after. split; [rewrite <- Hafter; reflexivity|]. split; [exact Hstatus|].
  injection Hbefore as <-. destruct Hsame as (_ & _ & _ & _ & _ & _ & Hat & _).
  split; [exact Hat|]. injection Hafter as <-. reflexivity.
Defined.

(** X18: however it ends, acceptMatchRequest leaves the dogs and the
    outcomes alone and changes at most the status and the instants of the
    row with the given id.  Rejected, it has written nothing: without a
    match id the error is "matchId is required" and the backend is not
    asked; with an id that a served update finds on no single row it is
    PGRST116.  Fulfilled, the id named one request, whatever its status
    was, and that request is stored awaiting confirmation. *)
Theorem acceptMatchRequest_writes matchId w c w' :
  acceptMatchRequest matchId w = (c, w') →
  dogs w' = dogs w
  ∧ dog_match_outcomes w' = dog_match_outcomes w
  ∧ only_updated (the matchId) (dog_match_requests w) (dog_match_requests w')
  ∧ match c with
    | Rejected e =>
        dog_match_requests w' = dog_match_requests w
        ∧ (Js.present matchId = false → e = new_Error "matchId is required" ∧ w' = w)
        ∧ (Js.present matchId = true → refused w (S (tick w)) = None →
           e = Postgrest PGRST116 ∧ ∀ r, matches_with_id (the matchId) w ≠ [r])
    | Fulfilled r =>
        ∃ before after,
          r = Some after
          ∧ matches_with_id (the matchId) w = [before]
          ∧ In after (dog_match_requests w')
          ∧ Match.status after = "awaiting_confirmation"
          ∧ same_request before after
    end.
Proof.
  intros H. destruct (Js.present matchId) eqn:Hid.
  2: { unfold acceptMatchRequest in H. rewrite Hid in H. injection H as <- <-.
       repeat split; auto using only_updated_refl; discriminate. }
  rewrite (acceptMatchRequest_known _ _ Hid) in H.
  apply update_match_single_cases in H
    as [(e & Hrefused & -> & ->) | [(_ & r & Hr & -> & ->) | (_ & Hnone & -> & ->)]]; cbn.
  - split; [reflexivity|]. split; [reflexivity|].
    split; [apply only_updated_refl|]. split; [reflexivity|].
    split; [intros Hno; congruence|].
    intros _ Hserved. cbn in Hrefused. congruence.
  - split; [reflexivity|]. split; [reflexivity|]. split.
    + apply (patched_requests_only_updated _ _ (step w)). reflexivity.
    + exists r, (apply_patch (accept_patch (browser_clock w (tick w))) r).
      split; [reflexivity|]. split; [exact Hr|].
      split; [apply (patched_requests_In _ _ (step w) _ Hr)|].
      split; [reflexivity|]. unfold same_request. repeat split.
  - split; [reflexivity|]. split; [reflexivity|].
    split; [apply only_updated_refl|]. split; [reflexivity|].
    split; [intros Hno; congruence|].
    intros _ _. split; [reflexivity | exact Hnone].
Qed.

(** Ann accepts a request that is not there; then Bob's cancelled one. *)
Lemma acceptMatchRequest_writes_witness :
  acceptMatchRequest (Some "match-9")
    (Sample.world "user-ann" [Sample.request Sample.rex Sample.luna "pending"])
  = (Rejected (Postgrest PGRST116),
     step (step (Sample.world "user-ann" [Sample.request Sample.rex Sample.luna "pending"])))
  ∧ let run :=
      acceptMatchRequest (Some "match-1")
        (Sample.world "user-ann" [Sample.request Sample.rex Sample.luna "cancelled"]) in
    ∃ after,
      fst run = Fulfilled (Some after)
      ∧ dog_match_requests (snd run) = [after]
      ∧ Match.status after = "awaiting_confirmation"
      ∧ Match.requester_dog_id after = "dog-rex".
Proof.
  split.
  - destruct (acceptMatchRequest_writes (Some "match-9")
                (Sample.world "user-ann" [Sample.request Sample.rex Sample.luna "pending"])
                _ _ eq_refl) as (_ & _ & _ & _ & _ & H).
    destruct (H eq_refl eq_refl) as [He _]. reflexivity.
  - intros run.
    destruct (acceptMatchRequest_writes _ _ _ _ (surjective_pairing run))
      as (_ & _ & _ & before & after & Hafter & Hbefore & _ & Hstatus & Hsame).
    exists after. split; [rewrite <- Hafter; reflexivity|].
    split; [injection Hafter as <-; reflexivity|]. split; [exact Hstatus|].
    injection Hbefore as <-. destruct Hsame as (_ & _ & _ & _ & Hdog & _). exact Hdog.
Defined.

(** X19: the two statuses of STATUS_SET that close or confirm nothing,
    accepted and pending.  On accepted,
    updateMatchStatus sets accepted_at to the reading of the clock and no
    other instant; on pending it reads no clock and sets no instant at all:
    a request sent back to pending keeps the stamps of what it went
    through. *)
Theorem updateMatchStatus_accepted_pending matchId w r :
  Js.present matchId = true →
  matches_with_id (the matchId) w = [r] →
  (refused w (S (tick w)) = None →
   ∃ r' w',
     updateMatchStatus matchId "accepted" w = (Fulfilled (Some r'), w')
     ∧ In r' (dog_match_requests w')
     ∧ Match.status r' = "accepted"
     ∧ Match.accepted_at r' = Some (browser_clock w (tick w))
     ∧ ∀ other, other ≠ "accepted_at" →
         timestamp_column other r' = timestamp_column other r)
  ∧ (refused w (tick w) = None →
     ∃ r' w',
       updateMatchStatus matchId "pending" w = (Fulfilled (Some r'), w')
       ∧ In r' (dog_match_requests w')
       ∧ tick w' = S (tick w)
       ∧ Match.status r' = "pending"
       ∧ ∀ column, timestamp_column column r' = timestamp_column column r).
Proof.
  intros Hid Hrow. split; intros Hserved.
  - assert (Hrun : updateMatchStatus matchId "accepted" w
                   = (res ← update_match_single
                              (<[ "accepted_at" := Instant (browser_clock w (tick w)) ]>
                                 {[ "status" := Text "accepted" ]}) (the matchId);
                      _ ← throw_if_error res; mret (data res)) (step w)).
    { unfold updateMatchStatus. rewrite Hid. run_check.
      change (has STATUS_SET "accepted") with true. run_check.
      change (timestampFields !! "accepted") with (Some "accepted_at").
      cbn [String.eqb Ascii.eqb Bool.eqb orb].
      do 3 (rewrite bind_run; cbn [new_Date mret Async_ret]). reflexivity. }
    rewrite Hrun, (update_match_single_served _ _ (step w) r Hserved Hrow).
    eexists. eexists. split; [reflexivity|].
    split; [apply (patched_requests_In _ _ (step w) _ Hrow)|].
    split; [reflexivity|]. split; [reflexivity|].
    intros other Hother. unfold timestamp_column.
    (destruct (String.eqb_spec other "requested_at") as [-> | _]; [reflexivity|]);
    (destruct (String.eqb_spec other "accepted_at") as [-> | _]; [contradiction|]);
    (destruct (String.eqb_spec other "declined_at") as [-> | _]; [reflexivity|]);
    (destruct (String.eqb_spec other "cancelled_at") as [-> | _]; [reflexivity|]);
    (destruct (String.eqb_spec other "awaiting_confirmation_at") as [-> | _];
       [reflexivity|]);
    (destruct (String.eqb_spec other "completed_at") as [-> | _]; [reflexivity|]);
    (destruct (String.eqb_spec other "last_status_changed_at") as [-> | _];
       [reflexivity|]);
    reflexivity.
  - assert (Hrun : updateMatchStatus matchId "pending" w
                   = (res ← update_match_single {[ "status" := Text "pending" ]}
                              (the matchId);
                      _ ← throw_if_error res; mret (data res)) w).
    { unfold updateMatchStatus. rewrite Hid. run_check.
      change (has STATUS_SET "pending") with true. run_check.
      change (timestampFields !! "pending") with (@None string).
      cbn [String.eqb Ascii.eqb Bool.eqb orb].
      do 2 (rewrite bind_run; cbn [new_Date mret Async_ret]). reflexivity. }
    rewrite Hrun, (update_match_single_served _ _ w r Hserved Hrow).
    eexists. eexists. split; [reflexivity|].
    split; [apply (patched_requests_In _ _ w _ Hrow)|].
    split; [reflexivity|]. split; [reflexivity|].
    intros column. unfold timestamp_column.
    (destruct (String.eqb_spec column "requested_at") as [-> | _]; [reflexivity|]);
    (destruct (String.eqb_spec column "accepted_at") as [-> | _]; [reflexivity|]);
    (destruct (String.eqb_spec column "declined_at") as [-> | _]; [reflexivity|]);
    (destruct (String.eqb_spec column "cancelled_at") as [-> | _]; [reflexivity|]);
    (destruct (String.eqb_spec column "awaiting_confirmation_at") as [-> | _];
       [reflexivity|]);
    (destruct (String.eqb_spec column "completed_at") as [-> | _]; [reflexivity|]);
    (destruct (String.eqb_spec column "last_status_changed_at") as [-> | _];
       [reflexivity|]);
    reflexivity.
Qed.

(** A request declined at 4000 goes back to pending and keeps its
    declined_at. *)
Lemma updateMatchStatus_accepted_pending_witness :
  ∃ r' w',
    updateMatchStatus (Some "match-1") "pending"
      (Sample.world "user-ann" [Sample.declined_at_4000])
    = (Fulfilled (Some r'), w')
    ∧ Match.status r' = "pending"
    ∧ Match.declined_at r' = Some 4000%Z.
Proof.
  destruct (updateMatchStatus_accepted_pending (Some "match-1")
              (Sample.world "user-ann" [Sample.declined_at_4000])
              Sample.declined_at_4000 eq_refl eq_refl) as [_ H].
  destruct (H eq_refl) as (r' & w' & Hrun & _ & _ & Hstatus & Hcolumns).
  exists r', w'. split; [exact Hrun|]. split; [exact Hstatus|].
  apply (Hcolumns "declined_at").
Defined.

(* ===================================================================== *)
(** ** A chat is free again once its request is closed *)
(* ===================================================================== *)

(** A well-formed proposal in a chat without active request, with an owner
    for the requested dog and a backend that answers, is fulfilled. *)
Lemma createMatchRequest_creates a w :
  well_formed a →
  active_requests (the (Create.contactId a)) w = [] →
  owner_known a w →
  reliable_from (tick w) w →
  ∃ record w',
    createMatchRequest a w = (Fulfilled (Some record), w')
    ∧ dog_match_requests w' = (dog_match_requests w ++ [Match.columns record])%list
    ∧ Match.status (Match.columns record) = "pending".
Proof.
  intros Hwf Hnone Howner Hreliable.
  rewrite (createMatchRequest_no_conflict _ _ Hwf Hnone (Hreliable _ (le_n _))).
  destruct (Js.present (Create.requestedUserId a)) eqn:Hgiven.
  - run_check. rewrite Hgiven. run_check.
    rewrite (insert_request_served _ (step w)).
    + eexists. eexists. split; [reflexivity|]. split; reflexivity.
    + apply (Hreliable (S (tick w))). lia.
  - destruct Howner as [Hgiven' | (dog & Hdog & Hpresent)]; [congruence|].
    destruct Hwf as (_ & _ & Hd2 & _).
    rewrite bind_run, (lookupDogOwnerId_served _ dog (step w) Hd2).
    + cbv beta iota.
      assert (Ht : truthy_or_null (Dog.user_id dog) = Dog.user_id dog)
        by (unfold truthy_or_null; rewrite Hpresent; reflexivity).
      rewrite Ht, bind_run, Hpresent. cbn [unless_throw mret Async_ret].
      rewrite (insert_request_served _ (step (step w))).
      * eexists. eexists. split; [reflexivity|]. split; reflexivity.
      * apply (Hreliable (S (S (tick w)))). lia.
    + apply (Hreliable (S (tick w))). lia.
    + exact Hdog.
Qed.

Lemma filter_none {A} (P : A → bool) (l : list A) :
  (∀ x, In x l → P x = false) → List.filter P l = [].
Proof.
  induction l as [|x l IH]; intros H; cbn; [reflexivity|].
  rewrite (H x (or_introl eq_refl)). apply IH. intros y Hy. apply H. right. exact Hy.
Qed.

(** X20: closing a request frees its chat.  When updateMatchStatus has moved
    a request to a status outside ACTIVE_STATUS_LIST (declined, cancelled
    or completed), and that request was the only active one of the chat, a
    well-formed proposal in the chat is no longer refused: it is fulfilled
    with a new pending request. *)
Theorem createMatchRequest_after_closing a matchId status w r w1 :
  updateMatchStatus matchId status w = (Fulfilled r, w1) →
  ¬ In status ACTIVE_STATUS_LIST →
  (∀ m, In m (active_requests (the (Create.contactId a)) w) → Match.id m = the matchId) →
  well_formed a →
  owner_known a w →
  reliable_from (tick w1) w1 →
  active_requests (the (Create.contactId a)) w1 = []
  ∧ ∃ record w2,
      createMatchRequest a w1 = (Fulfilled (Some record), w2)
      ∧ dog_match_requests w2 = (dog_match_requests w1 ++ [Match.columns record])%list
      ∧ Match.status (Match.columns record) = "pending".
Proof.
  intros H Hclosed Honly Hwf Howner Hreliable.
  assert (Hid : Js.present matchId = true).
  { destruct (Js.present matchId) eqn:Hid; [reflexivity|].
    unfold updateMatchStatus in H. rewrite Hid in H. discriminate H. }
  assert (Hknown : has STATUS_SET status = true).
  { destruct (has STATUS_SET status) eqn:Hknown; [reflexivity|].
    unfold updateMatchStatus in H. rewrite Hid, Hknown in H. discriminate H. }
  destruct (updateMatchStatus_known _ _ w Hid Hknown)
    as (patch & w0 & (Hdogs & Hreq & _) & Hstatus & _ & _ & Hrun).
  rewrite Hrun in H.
  apply update_match_single_cases in H
    as [(e & _ & [=] & _) | [(_ & before & _ & _ & ->) | (_ & _ & [=] & _)]].
  assert (Hfree : active_requests (the (Create.contactId a))
                    (with_requests (patched_requests patch (the matchId) w0) (step w0))
                  = []).
  { unfold active_requests. apply filter_none. intros m' Hin.
    cbn [with_requests dog_match_requests] in Hin. unfold patched_requests in Hin.
    rewrite Hreq in Hin. apply in_map_iff in Hin as (m & <- & Hin).
    destruct (String.eqb_spec (Match.id m) (the matchId)) as [Hsame | Hother].
    - apply andb_false_iff. right.
      destruct (status_in ACTIVE_STATUS_LIST (apply_patch patch m)) eqn:Hactive;
        [|reflexivity].
      apply status_in_In in Hactive. cbn in Hactive. unfold set_text in Hactive.
      rewrite Hstatus in Hactive. contradiction.
    - destruct (_ && _) eqn:Hactive; [|reflexivity].
      elim Hother. apply Honly. apply active_requests_In.
      apply andb_true_iff in Hactive as [Hc Hs].
      apply String.eqb_eq in Hc. apply status_in_In in Hs. auto. }
  split; [exact Hfree|].
  apply createMatchRequest_creates; try assumption.
  destruct Howner as [Hgiven | (dog & Hdog & Hpresent)]; [left; exact Hgiven|].
  right. exists dog. split; [|exact Hpresent].
  unfold dogs_with_id in *.
  cbn [with_requests dogs step]. rewrite Hdogs. exact Hdog.
Qed.

(** Ann declines Bob's pending request in "chat-1"; Bob proposes again. *)
Lemma createMatchRequest_after_closing_witness :
  let closed :=
    updateMatchStatus (Some "match-1") "declined"
      (Sample.world "user-ann" [Sample.request Sample.rex Sample.luna "pending"]) in
  ∃ record w2,
    createMatchRequest (Sample.proposal "chat-1" Sample.rex Sample.luna) (snd closed)
    = (Fulfilled (Some record), w2)
    ∧ Match.status (Match.columns record) = "pending".
Proof.
  intros closed.
  destruct (createMatchRequest_after_closing
              (Sample.proposal "chat-1" Sample.rex Sample.luna)
              (Some "match-1") "declined"
              (Sample.world "user-ann" [Sample.request Sample.rex Sample.luna "pending"])
              (Some (apply_patch
                       (<[ "declined_at" := Instant 5000%Z ]>
                          {[ "status" := Text "declined" ]})
                       (Sample.request Sample.rex Sample.luna "pending")))
              (snd closed))
    as (_ & record & w2 & Hrun & _ & Hstatus).
  - reflexivity.
  - intros [H | [H | [H | []]]]; discriminate H.
  - intros m [<- | []]. reflexivity.
  - repeat split; discriminate.
  - right. exists Sample.luna. split; reflexivity.
  - intros k _. reflexivity.
  - exists record, w2. split; [exact Hrun | exact Hstatus].
Defined.

(* ===================================================================== *)
(** ** submitMatchOutcome: errors, writes, success *)
(* ===================================================================== *)

(** The two ways the insert that ends submitMatchOutcome goes. *)
Lemma record_cases p w c w' :
  (r ← insert_outcome_single p; _ ← throw_if_error r; mret (data r)) w = (c, w') →
  (∃ e, refused w (tick w) = Some e ∧ c = Rejected (Postgrest e) ∧ w' = step w)
  ∨ (refused w (tick w) = None
     ∧ c = Fulfilled (Some (stored_outcome w p)) ∧ w' = after_outcome w p).
Proof.
  destruct (refused w (tick w)) as [e|] eqn:Hserved; intros H.
  - left. exists e. rewrite bind_run in H. unfold insert_outcome_single in H.
    rewrite (request_refused _ _ _ Hserved) in H. injection H as <- <-. auto.
  - right. rewrite (record_served _ _ Hserved) in H. injection H as <- <-. auto.
Qed.

Section SubmitMatchOutcomeWrites.
Variable StringToNumber : string → Js.number.

(** Step 4 and the insert: rejected with nothing written, or fulfilled
    with one row stored. *)
Lemma normalizeAndRecord_cases a user_id w c w' :
  normalizeAndRecord StringToNumber a user_id w = (c, w') →
  (only_time_passed w w' ∧ ∃ e, c = Rejected e)
  ∨ (∃ size,
       c = Fulfilled (Some (stored_outcome w
                              (outcome_payload a user_id size (trimmedNotes a))))
       ∧ w' = after_outcome w (outcome_payload a user_id size (trimmedNotes a))).
Proof.
  intros H. unfold normalizeAndRecord in H. cbv zeta in H.
  apply bind_cases in H as [(e & H & ->) | (size & w1 & Hsize & H)].
  - left. split; [|eauto]. revert H. read_only.
  - assert (Hw1 : w1 = w).
    { revert Hsize.
      destruct (Submit.outcome a =? "success").
      - intros Hsize. apply bind_fulfilled_inv in Hsize as (? & ? & H1 & Hsize).
        apply throw_when_inv in H1 as [_ ->].
        apply bind_fulfilled_inv in Hsize as (? & ? & H2 & Hsize).
        apply unless_throw_inv in H2 as [_ ->]. injection Hsize as _ <-. reflexivity.
      - destruct (Submit.outcome a =? "failed"); [intros [= _ <-]; reflexivity|].
        destruct (Submit.outcome a =? "no_show"); [|intros [= _ <-]; reflexivity].
        intros Hsize. apply bind_fulfilled_inv in Hsize as (? & ? & H2 & Hsize).
        apply unless_throw_inv in H2 as [_ ->]. injection Hsize as _ <-. reflexivity. }
    subst w1.
    apply record_cases in H as [(e & _ & -> & ->) | (_ & -> & ->)].
    + left. split; [apply only_time_passed_step | eauto].
    + right. exists size. auto.
Qed.

(** X21: however it ends, submitMatchOutcome leaves the dogs and the match
    requests as they were: it records the outcome and does not move the
    request to a completed status.  Rejected, it has written nothing.
    Fulfilled, it has appended one row to the outcomes, for the match, the
    dog and the outcome given, verified by the owner of the dog, who is the
    signed-in user. *)
Theorem submitMatchOutcome_writes a w c w' :
  submitMatchOutcome StringToNumber a w = (c, w') →
  dogs w' = dogs w
  ∧ dog_match_requests w' = dog_match_requests w
  ∧ match c with
    | Rejected _ => dog_match_outcomes w' = dog_match_outcomes w
    | Fulfilled r =>
        ∃ row dog,
          r = Some row
          ∧ dog_match_outcomes w' = (dog_match_outcomes w ++ [row])%list
          ∧ Outcome.match_id row = the (Submit.matchId a)
          ∧ Outcome.verified_by_dog_id row = the (Submit.verifiedDogId a)
          ∧ Outcome.outcome row = Submit.outcome a
          ∧ In dog (dogs w)
          ∧ Dog.id dog = the (Submit.verifiedDogId a)
          ∧ Js.String_ (Dog.user_id dog) = Outcome.verified_by_user_id row
          ∧ (user (session w) ≫= uid) = Some (Outcome.verified_by_user_id row)
    end.
Proof.
  intros H. unfold submitMatchOutcome in H.
  apply bind_cases in H as [(e & H & ->) | ([[user_id dog] match_] & w1 & Hchecks & H)].
  - destruct (read_only_ensureOwnDogInMatch _ _ _ _ H) as (? & ? & ? & _). auto.
  - destruct (read_only_ensureOwnDogInMatch _ _ _ _ Hchecks) as (Hd & Hr & Ho & _).
    assert (Hcaller : (user (session w) ≫= uid) = Some user_id).
    { clear H. unfold ensureOwnDogInMatch in Hchecks.
      await Hchecks. await Hchecks. await Hchecks.
      apply bind_fulfilled_inv in Hchecks as (auth & ? & Hauth & Hchecks).
      injection Hauth as <- <-.
      apply bind_fulfilled_inv in Hchecks as (? & ? & _ & Hchecks).
      await Hchecks as Hpresent. cbv zeta in Hchecks.
      apply bind_fulfilled_inv in Hchecks as (rd & ? & _ & Hchecks).
      await Hchecks.
      destruct (data rd) as [d|]; [|discriminate Hchecks].
      await Hchecks.
      apply bind_fulfilled_inv in Hchecks as (rm & ? & _ & Hchecks).
      await Hchecks.
      destruct (data rm) as [m|]; [|discriminate Hchecks].
      await Hchecks. injection Hchecks as <- _ _ _.
      revert Hpresent. destruct (user (session w)) as [[[u|]]|]; cbn;
        [reflexivity | discriminate | discriminate]. }
    pose proof (ensureOwnDogInMatch_inv _ _ _ _ _ _ Hchecks)
      as (_ & _ & _ & Hin & Hid & Howner & _).
    apply bind_cases in H as [(e & H & ->) | (? & w2 & Hgate & H)].
    + destruct (gate_closed a dog); injection H as _ <-; auto.
    + apply throw_when_inv in Hgate as [_ ->].
      apply normalizeAndRecord_cases in H
        as [((Hd' & Hr' & Ho' & _) & e & ->) | (size & -> & ->)].
      * repeat split; congruence.
      * split; [exact Hd|]. split; [exact Hr|].
        eexists. exists dog. split; [reflexivity|]. cbn. rewrite Ho. repeat split; auto.
Qed.
End SubmitMatchOutcomeWrites.

(** Ann's report of a failure adds one outcome and leaves the request
    awaiting confirmation. *)
Lemma submitMatchOutcome_writes_witness :
  let run :=
    submitMatchOutcome Sample.StringToNumber
      (Sample.submission Sample.luna "failed" Js.Null None) (Sample.awaiting "user-ann") in
  dog_match_requests (snd run) = [Sample.request Sample.rex Sample.luna "awaiting_confirmation"]
  ∧ ∃ row,
      fst run = Fulfilled (Some row)
      ∧ dog_match_outcomes (snd run) = [row]
      ∧ Outcome.verified_by_user_id row = "user-ann".
Proof.
  intros run.
  destruct (submitMatchOutcome_writes Sample.StringToNumber _ _ _ _ (surjective_pairing run))
    as (_ & Hrequests & row & dog & Hrow & Houtcomes & _ & _ & _ & _ & _ & _ & Hcaller).
  split; [exact Hrequests|]. exists row.
  split; [rewrite <- Hrow; reflexivity|]. split; [exact Houtcomes|].
  injection Hcaller as <-. reflexivity.
Defined.

Section SubmitMatchOutcomeErrors.
Variable StringToNumber : string → Js.number.
Implicit Types (a : Submit.args) (w : World).

Local Abbreviation submit := (submitMatchOutcome StringToNumber).

Lemma submitMatchOutcome_rejected_checks a w e w1 :
  ensureOwnDogInMatch a w = (Rejected e, w1) → submit a w = (Rejected e, w1).
Proof. intros H. unfold submitMatchOutcome. rewrite bind_run, H. reflexivity. Qed.

(** X22: the checks on the arguments, in their order, fail before anything
    is asked of the backend: a missing match id, then a missing dog id,
    then an outcome that is none of success, failed, no_show.  After them
    comes the session: an error of the authentication is thrown as it
    came, and a session without user id fails with "Not authenticated". *)
Theorem submitMatchOutcome_argument_errors a w :
  (Js.present (Submit.matchId a) = false →
   submit a w = (Rejected (new_Error "matchId is required"), w))
  ∧ (Js.present (Submit.matchId a) = true →
     Js.present (Submit.verifiedDogId a) = false →
     submit a w = (Rejected (new_Error "verifiedDogId is required"), w))
  ∧ (Js.present (Submit.matchId a) = true →
     Js.present (Submit.verifiedDogId a) = true →
     includes OUTCOMES (Submit.outcome a) = false →
     submit a w = (Rejected (new_Error "Invalid outcome"), w))
  ∧ (Js.present (Submit.matchId a) = true →
     Js.present (Submit.verifiedDogId a) = true →
     includes OUTCOMES (Submit.outcome a) = true →
     (∀ e, auth_error (session w) = Some e →
        submit a w = (Rejected (Auth e), step w))
     ∧ (auth_error (session w) = None →
        Js.present (user (session w) ≫= uid) = false →
        submit a w = (Rejected (new_Error "Not authenticated"), step w))).
Proof.
  split; [|split; [|split; [|intros Hm Hd Ho; split]]].
  - intros Hm. apply submitMatchOutcome_rejected_checks.
    unfold ensureOwnDogInMatch. rewrite Hm. reflexivity.
  - intros Hm Hd. apply submitMatchOutcome_rejected_checks.
    unfold ensureOwnDogInMatch. rewrite Hm, Hd. reflexivity.
  - intros Hm Hd Ho. apply submitMatchOutcome_rejected_checks.
    unfold ensureOwnDogInMatch. rewrite Hm, Hd, Ho. reflexivity.
  - intros e He. apply submitMatchOutcome_rejected_checks.
    unfold ensureOwnDogInMatch. rewrite Hm, Hd, Ho. do 3 run_check.
    rewrite bind_run. cbn [auth_getUser]. rewrite He. reflexivity.
  - intros He Hu. apply submitMatchOutcome_rejected_checks.
    unfold ensureOwnDogInMatch. rewrite Hm, Hd, Ho. do 3 run_check.
    rewrite bind_run. cbn [auth_getUser]. rewrite He. run_check.
    rewrite Hu. reflexivity.
Qed.

(** X23: the verifying dog and the match are fetched with [.single()]: an id
    that names no dog is the client's error PGRST116; a dog of another
    owner is "You can only submit outcomes for your own dog"; and, the dog
    being the caller's, a match that involves another two dogs is
    "Selected dog is not part of this match".  In each case nothing is
    written. *)
Theorem submitMatchOutcome_ownership_errors a w caller :
  Js.present (Submit.matchId a) = true →
  Js.present (Submit.verifiedDogId a) = true →
  includes OUTCOMES (Submit.outcome a) = true →
  session w = {| user := Some {| uid := Some caller |}; auth_error := None |} →
  Js.nonempty caller = true →
  reliable_from (tick w) w →
  (dogs_with_id (the (Submit.verifiedDogId a)) w = [] →
   submit a w = (Rejected (Postgrest PGRST116), step (step w)))
  ∧ (∀ dog, dogs_with_id (the (Submit.verifiedDogId a)) w = [dog] →
       (Js.String_ (Dog.user_id dog) ≠ caller →
        submit a w
        = (Rejected (new_Error "You can only submit outcomes for your own dog"),
           step (step w)))
       ∧ (Js.String_ (Dog.user_id dog) = caller →
          ∀ match_, matches_with_id (the (Submit.matchId a)) w = [match_] →
            Match.requester_dog_id match_ ≠ the (Submit.verifiedDogId a) →
            Match.requested_dog_id match_ ≠ the (Submit.verifiedDogId a) →
            submit a w
            = (Rejected (new_Error "Selected dog is not part of this match"),
               step (step (step w))))).
Proof.
  intros Hm Hd Ho Hsession Hcaller Hreliable.
  assert (Hrun : ∀ k : Dog.row → Async (Id * Dog.row * Match.row),
            ensureOwnDogInMatch a w
            = (r ← select_dog_single (the (Submit.verifiedDogId a));
               _ ← throw_if_error r;
               match data r with
               | None => throw (new_Error "Dog not found")
               | Some dog =>
                   _ ← throw_when
                         (negb (Js.String_ (Dog.user_id dog) =? Js.String_ (Some caller)))
                         (new_Error "You can only submit outcomes for your own dog");
                   r ← select_match_single (the (Submit.matchId a));
                   _ ← throw_if_error r;
                   match data r with
                   | None => throw (new_Error "Match not found")
                   | Some match_ =>
                       _ ← throw_when
                             (negb (Js.String_ (Some (Match.requester_dog_id match_))
                                    =? Js.String_ (Submit.verifiedDogId a))
                              && negb (Js.String_ (Some (Match.requested_dog_id match_))
                                       =? Js.String_ (Submit.verifiedDogId a)))
                             (new_Error "Selected dog is not part of this match");
                       mret (caller, dog, match_)
                   end
               end) (step w)).
  { intros _. unfold ensureOwnDogInMatch. rewrite Hm, Hd, Ho. do 3 run_check.
    rewrite bind_run. cbn [auth_getUser]. rewrite Hsession. cbn [auth_error user].
    run_check. cbn [mbind option_bind uid Js.present]. rewrite Hcaller. run_check.
    reflexivity. }
  specialize (Hrun (λ _, throw (new_Error ""))).
  assert (Hserved1 : refused (step w) (tick (step w)) = None)
    by (apply (Hreliable (S (tick w))); lia).
  assert (Hserved2 : refused (step (step w)) (tick (step (step w))) = None)
    by (apply (Hreliable (S (S (tick w)))); lia).
  split.
  - intros Hnone. apply submitMatchOutcome_rejected_checks. rewrite Hrun.
    rewrite bind_run. unfold select_dog_single. rewrite (request_served _ _ Hserved1).
    cbn [fst snd].
    change (dogs_with_id _ (step (step w)))
      with (dogs_with_id (the (Submit.verifiedDogId a)) w).
    rewrite Hnone. reflexivity.
  - intros dog Hdog.
    assert (Hfetched : ∀ B (k : Response Dog.row → Async B),
              (select_dog_single (the (Submit.verifiedDogId a)) ≫= k) (step w)
              = k (answer dog) (step (step w))).
    { intros B k. rewrite bind_run. unfold select_dog_single.
      rewrite (request_served _ _ Hserved1). cbn [fst snd].
      change (dogs_with_id _ (step (step w)))
        with (dogs_with_id (the (Submit.verifiedDogId a)) w).
      rewrite Hdog. reflexivity. }
    split.
    + intros Hother. apply submitMatchOutcome_rejected_checks. rewrite Hrun, Hfetched.
      run_check. cbn [throw_if_error error data answer mret Async_ret Js.String_].
      apply String.eqb_neq in Hother. rewrite Hother. reflexivity.
    + intros Hown match_ Hmatch Hne1 Hne2.
      apply submitMatchOutcome_rejected_checks. rewrite Hrun, Hfetched.
      run_check. cbn [throw_if_error error data answer mret Async_ret Js.String_].
      rewrite Hown, String.eqb_refl. run_check.
      rewrite bind_run. unfold select_match_single. rewrite (request_served _ _ Hserved2).
      cbn [fst snd].
      change (matches_with_id _ (step (step (step w))))
        with (matches_with_id (the (Submit.matchId a)) w).
      rewrite Hmatch. cbn [single answer]. run_check.
      cbn [throw_if_error error data answer mret Async_ret Js.String_].
      rewrite (String_the _ Hd).
      apply String.eqb_neq in Hne1, Hne2. rewrite Hne1, Hne2. reflexivity.
Qed.

(** X24: when a submission succeeds.  The arguments are there, the caller
    is signed in and owns the one dog with the given id, that dog is one of
    the two of the one match with the given id (in whatever status that
    match is: the status is not looked at), the gate is open, the backend
    answers, and: for success, the litter size parses to a finite number at
    least 1 and the notes are not blank; for no_show, the notes are not
    blank; for failed, nothing more.  Then the call is fulfilled and has
    stored one row with the normalized litter size and the trimmed notes. *)
Theorem submitMatchOutcome_succeeds a w caller dog match_ :
  Js.present (Submit.matchId a) = true →
  Js.present (Submit.verifiedDogId a) = true →
  session w = {| user := Some {| uid := Some caller |}; auth_error := None |} →
  Js.nonempty caller = true →
  reliable_from (tick w) w →
  dogs_with_id (the (Submit.verifiedDogId a)) w = [dog] →
  Js.String_ (Dog.user_id dog) = caller →
  matches_with_id (the (Submit.matchId a)) w = [match_] →
  Match.requester_dog_id match_ = the (Submit.verifiedDogId a)
  ∨ Match.requested_dog_id match_ = the (Submit.verifiedDogId a) →
  gate_closed a dog = false →
  (Submit.outcome a = "success"
   ∧ Js.isFinite (parsedLitterSize StringToNumber a) = true
   ∧ Js.le Js.one (parsedLitterSize StringToNumber a) = true
   ∧ trimmedNotes a ≠ "")
  ∨ Submit.outcome a = "failed"
  ∨ (Submit.outcome a = "no_show" ∧ trimmedNotes a ≠ "") →
  ∃ row w',
    submit a w = (Fulfilled (Some row), w')
    ∧ dog_match_outcomes w' = (dog_match_outcomes w ++ [row])%list
    ∧ Outcome.outcome row = Submit.outcome a
    ∧ Outcome.verified_by_user_id row = caller
    ∧ Outcome.notes row = Js.or_null (trimmedNotes a)
    ∧ Outcome.litter_size row
      = Some (if Submit.outcome a =? "success"
              then parsedLitterSize StringToNumber a else Js.zero).
Proof.
  intros Hm Hd Hsession Hcaller Hreliable Hdog Howner Hmatch Hpart Hgate Hvalid.
  assert (Ho : includes OUTCOMES (Submit.outcome a) = true).
  { apply includes_OUTCOMES. destruct Hvalid as [(-> & _) | [-> | (-> & _)]]; auto. }
  pose proof (ensureOwnDogInMatch_passes _ _ _ _ _ Hm Hd Ho Hsession Hcaller Hreliable
                Hdog Howner Hmatch Hpart) as Hchecks.
  rewrite (submitMatchOutcome_after_checks _ _ _ _ _ _ _ Hchecks), Hgate.
  assert (Hserved : refused (step (step (step w))) (tick (step (step (step w)))) = None)
    by (apply (Hreliable (S (S (S (tick w))))); lia).
  destruct Hvalid as [(Hs & Hfin & Hle & Hnotes) | [Hf | (Hn & Hnotes)]].
  - rewrite (normalizeAndRecord_success _ _ _ _ Hs).
    assert (Hguard : negb (Js.isFinite (parsedLitterSize StringToNumber a))
                     || Js.lt (parsedLitterSize StringToNumber a) Js.one = false)
      by (apply litter_guard; auto).
    rewrite Hguard. apply nonempty_true in Hnotes. rewrite Hnotes.
    rewrite (record_served _ _ Hserved).
    eexists. eexists. split; [reflexivity|].
    repeat split; unfold stored_outcome, new_outcome, outcome_payload;
      cbn [Outcome.outcome Outcome.p_outcome Outcome.litter_size Outcome.p_litter_size];
      rewrite ?Hs; reflexivity.
  - rewrite (normalizeAndRecord_failed _ _ _ _ Hf), (record_served _ _ Hserved).
    eexists. eexists. split; [reflexivity|].
    repeat split; unfold stored_outcome, new_outcome, outcome_payload;
      cbn [Outcome.outcome Outcome.p_outcome Outcome.litter_size Outcome.p_litter_size];
      rewrite ?Hf; reflexivity.
  - rewrite (normalizeAndRecord_no_show _ _ _ _ Hn).
    apply nonempty_true in Hnotes. rewrite Hnotes, (record_served _ _ Hserved).
    eexists. eexists. split; [reflexivity|].
    repeat split; unfold stored_outcome, new_outcome, outcome_payload;
      cbn [Outcome.outcome Outcome.p_outcome Outcome.litter_size Outcome.p_litter_size];
      rewrite ?Hn; reflexivity.
Qed.
End SubmitMatchOutcomeErrors.

(** Ann sends an outcome the service does not know: rejected, and nothing
    was asked.  Then nobody is signed in: "Not authenticated", after the
    one request to the authentication. *)
Lemma submitMatchOutcome_argument_errors_witness :
  submitMatchOutcome Sample.StringToNumber
    (Sample.submission Sample.luna "maybe" Js.Null None) (Sample.awaiting "user-ann")
  = (Rejected (new_Error "Invalid outcome"), Sample.awaiting "user-ann")
  ∧ submitMatchOutcome Sample.StringToNumber
      (Sample.submission Sample.luna "failed" Js.Null None) (Sample.awaiting "")
    = (Rejected (new_Error "Not authenticated"), step (Sample.awaiting "")).
Proof.
  split.
  - destruct (submitMatchOutcome_argument_errors Sample.StringToNumber
                (Sample.submission Sample.luna "maybe" Js.Null None)
                (Sample.awaiting "user-ann")) as (_ & _ & H & _).
    apply H; reflexivity.
  - destruct (submitMatchOutcome_argument_errors Sample.StringToNumber
                (Sample.submission Sample.luna "failed" Js.Null None)
                (Sample.awaiting "")) as (_ & _ & _ & H).
    destruct (H eq_refl eq_refl eq_refl) as [_ Hnobody].
    apply Hnobody; reflexivity.
Defined.

(** Ann reports for Rex, who is Bob's; then for Pixie, who is hers and is
    not one of the two dogs of the match. *)
Lemma submitMatchOutcome_ownership_errors_witness :
  submitMatchOutcome Sample.StringToNumber
    (Sample.submission Sample.rex "failed" Js.Null None) (Sample.awaiting "user-ann")
  = (Rejected (new_Error "You can only submit outcomes for your own dog"),
     step (step (Sample.awaiting "user-ann")))
  ∧ submitMatchOutcome Sample.StringToNumber
      (Sample.submission Sample.pixie "failed" Js.Null None) (Sample.awaiting "user-ann")
    = (Rejected (new_Error "Selected dog is not part of this match"),
       Sample.checked (Sample.awaiting "user-ann")).
Proof.
  split.
  - destruct (submitMatchOutcome_ownership_errors Sample.StringToNumber
                (Sample.submission Sample.rex "failed" Js.Null None)
                (Sample.awaiting "user-ann") "user-ann")
      as [_ Hdog]; [reflexivity .. | intros k _; reflexivity |].
    destruct (Hdog Sample.rex eq_refl) as [Hother _].
    apply Hother. discriminate.
  - destruct (submitMatchOutcome_ownership_errors Sample.StringToNumber
                (Sample.submission Sample.pixie "failed" Js.Null None)
                (Sample.awaiting "user-ann") "user-ann")
      as [_ Hdog]; [reflexivity .. | intros k _; reflexivity |].
    destruct (Hdog Sample.pixie eq_refl) as [_ Hown].
    apply (Hown eq_refl (Sample.request Sample.rex Sample.luna "awaiting_confirmation"));
      [reflexivity | discriminate | discriminate].
Defined.

(** Ann reports a success of four puppies for Luna, with notes. *)
Lemma submitMatchOutcome_succeeds_witness :
  ∃ row w',
    submitMatchOutcome Sample.StringToNumber
      (Sample.submission Sample.luna "success" (Js.Str "4") (Some " went well "))
      (Sample.awaiting "user-ann")
    = (Fulfilled (Some row), w')
    ∧ dog_match_outcomes w' = [row]
    ∧ Outcome.notes row = Some "went well"
    ∧ Outcome.litter_size row = Some Sample.four.
Proof.
  destruct (submitMatchOutcome_succeeds Sample.StringToNumber
              (Sample.submission Sample.luna "success" (Js.Str "4") (Some " went well "))
              (Sample.awaiting "user-ann") "user-ann" Sample.luna
              (Sample.request Sample.rex Sample.luna "awaiting_confirmation"))
    as (row & w' & Hrun & Hrows & _ & _ & Hnotes & Hsize);
    [reflexivity | reflexivity | reflexivity | reflexivity | intros k _; reflexivity
    | reflexivity | reflexivity | reflexivity | right; reflexivity | reflexivity
    | left; repeat split; discriminate |].
  exists row, w'. repeat split; assumption.
Defined.

(* ===================================================================== *)
(** ** submitMatchOutcome: the errors it ends with *)
(* ===================================================================== *)

Lemma unless_throw_rejected (b : bool) e w e' w' :
  unless_throw b e w = (Rejected e', w') → b = false ∧ e' = e ∧ w' = w.
Proof. destruct b; intros [= <- <-]; auto. Qed.

Lemma throw_when_rejected (b : bool) e w e' w' :
  throw_when b e w = (Rejected e', w') → b = true ∧ e' = e ∧ w' = w.
Proof. destruct b; intros [= <- <-]; auto. Qed.

Lemma throw_if_error_rejected {A} (r : Response A) w e w' :
  throw_if_error r w = (Rejected e, w') → ∃ pe, error r = Some pe ∧ e = Postgrest pe.
Proof.
  unfold throw_if_error. destruct (error r) as [pe|]; intros [= <- <-]; eauto.
Qed.

Lemma request_fulfils {A} (serve : World → Response A * World) w e w' :
  request serve w ≠ (Rejected e, w').
Proof.
  unfold request. destruct (refused w (tick w)); [discriminate|].
  destruct (serve (step w)). discriminate.
Qed.

(** A response without error to a [.single()] query carries a row. *)
Lemma request_single_data {A} (rows : World → list A) w r w' :
  request (λ w, (single (rows w), w)) w = (Fulfilled r, w') →
  error r = None → ∃ row, data r = Some row.
Proof.
  unfold request. destruct (refused w (tick w)).
  - intros [= <- _]. discriminate.
  - intros [= <- _]. destruct (rows (step w)) as [|row [|]]; cbn; try discriminate. eauto.
Qed.

(** The errors the checks up to step 2 end with.  The two tests for a
    missing row, after [.single()], never fire. *)
Lemma ensureOwnDogInMatch_rejected a w e w' :
  ensureOwnDogInMatch a w = (Rejected e, w') →
  (∃ pe, e = Postgrest pe)
  ∨ (∃ ae, e = Auth ae ∧ auth_error (session w) = Some ae)
  ∨ In e [ new_Error "matchId is required";
           new_Error "verifiedDogId is required";
           new_Error "Invalid outcome";
           new_Error "Not authenticated";
           new_Error "You can only submit outcomes for your own dog";
           new_Error "Selected dog is not part of this match" ].
Proof.
  intros H. unfold ensureOwnDogInMatch in H.
  apply bind_cases in H as [(e1 & H & [= <-]) | (? & w1 & H1 & H)].
  { apply unless_throw_rejected in H as (_ & -> & _). right. right. cbn. auto. }
  apply bind_cases in H as [(e1 & H & [= <-]) | (? & w2 & H2 & H)].
  { apply unless_throw_rejected in H as (_ & -> & _). right. right. cbn. auto. }
  apply bind_cases in H as [(e1 & H & [= <-]) | (? & w3 & H3 & H)].
  { apply unless_throw_rejected in H as (_ & -> & _). right. right. cbn. auto. }
  apply unless_throw_inv in H1 as [_ ->].
  apply unless_throw_inv in H2 as [_ ->].
  apply unless_throw_inv in H3 as [_ ->].
  apply bind_cases in H as [(e1 & H & _) | (auth & w4 & H4 & H)]; [discriminate H|].
  injection H4 as <- <-.
  apply bind_cases in H as [(e1 & H & [= <-]) | (? & w5 & H5 & H)].
  { destruct (auth_error (session w)) as [ae|] eqn:Hae; [|discriminate H].
    injection H as <- _. right. left. eauto. }
  apply bind_cases in H as [(e1 & H & [= <-]) | (? & w6 & H6 & H)].
  { apply unless_throw_rejected in H as (_ & -> & _). right. right. cbn. auto. }
  cbv zeta in H.
  apply bind_cases in H as [(e1 & H & _) | (rd & w7 & H7 & H)].
  { exfalso. exact (request_fulfils _ _ _ _ H). }
  apply bind_cases in H as [(e1 & H & [= <-]) | (? & w8 & H8 & H)].
  { apply throw_if_error_rejected in H as (pe & _ & ->). left. eauto. }
  assert (Hnone : error rd = None).
  { unfold throw_if_error in H8. destruct (error rd); [discriminate H8 | reflexivity]. }
  destruct (request_single_data _ _ _ _ H7 Hnone) as (dog & Hdog). rewrite Hdog in H.
  apply bind_cases in H as [(e1 & H & [= <-]) | (? & w9 & H9 & H)].
  { apply throw_when_rejected in H as (_ & -> & _). right. right. cbn. auto 10. }
  apply bind_cases in H as [(e1 & H & _) | (rm & w10 & H10 & H)].
  { exfalso. exact (request_fulfils _ _ _ _ H). }
  apply bind_cases in H as [(e1 & H & [= <-]) | (? & w11 & H11 & H)].
  { apply throw_if_error_rejected in H as (pe & _ & ->). left. eauto. }
  assert (Hnone' : error rm = None).
  { unfold throw_if_error in H11. destruct (error rm); [discriminate H11 | reflexivity]. }
  destruct (request_single_data _ _ _ _ H10 Hnone') as (match_ & Hmatch). rewrite Hmatch in H.
  apply bind_cases in H as [(e1 & H & [= <-]) | (? & w12 & H12 & H)].
  { apply throw_when_rejected in H as (_ & -> & _). right. right. cbn. auto 10. }
  discriminate H.
Qed.

Section SubmitMatchOutcomeRejections.
Variable StringToNumber : string → Js.number.
Implicit Types (a : Submit.args) (w : World).

Local Abbreviation submit := (submitMatchOutcome StringToNumber).
Local Abbreviation n a := (parsedLitterSize StringToNumber a).

(** The errors of step 4 and of the insert, each with its cause. *)
Lemma normalizeAndRecord_rejected a user_id w e w' :
  normalizeAndRecord StringToNumber a user_id w = (Rejected e, w') →
  (∃ pe, e = Postgrest pe)
  ∨ (e = InvalidLitterSize ∧ Submit.outcome a = "success"
     ∧ (Js.isFinite (n a) = false ∨ Js.lt (n a) Js.one = true))
  ∨ (e = NotesRequired_success ∧ Submit.outcome a = "success" ∧ trimmedNotes a = "")
  ∨ (e = NotesRequired_no_show ∧ Submit.outcome a = "no_show" ∧ trimmedNotes a = "").
Proof.
  intros H. unfold normalizeAndRecord in H. cbv zeta in H.
  apply bind_cases in H as [(e1 & H & [= <-]) | (size & w1 & _ & H)].
  - destruct (Submit.outcome a =? "success") eqn:Hs.
    + apply String.eqb_eq in Hs.
      apply bind_cases in H as [(e1 & H & [= <-]) | (? & w1 & _ & H)].
      * apply throw_when_rejected in H as (Hguard & -> & _).
        right. left. split; [reflexivity|]. split; [exact Hs|].
        apply orb_true_iff in Hguard as [Hfin | Hlt]; [left | right; exact Hlt].
        apply negb_true_iff. exact Hfin.
      * apply bind_cases in H as [(e1 & H & [= <-]) | (? & w2 & _ & H)]; [|discriminate H].
        apply unless_throw_rejected in H as (Hnotes & -> & _).
        right. right. left. split; [reflexivity|]. split; [exact Hs|].
        apply nonempty_false. exact Hnotes.
    + destruct (Submit.outcome a =? "failed"); [discriminate H|].
      destruct (Submit.outcome a =? "no_show") eqn:Hn; [|discriminate H].
      apply String.eqb_eq in Hn.
      apply bind_cases in H as [(e1 & H & [= <-]) | (? & w2 & _ & H)]; [|discriminate H].
      apply unless_throw_rejected in H as (Hnotes & -> & _).
      right. right. right. split; [reflexivity|]. split; [exact Hn|].
      apply nonempty_false. exact Hnotes.
  - apply record_cases in H as [(pe & _ & [= ->] & _) | (_ & Hc & _)]; [|discriminate Hc].
    left. eauto.
Qed.

(** Where a rejection of submitMatchOutcome comes from. *)
Lemma submitMatchOutcome_rejected_cases a w e w' :
  submit a w = (Rejected e, w') →
  ensureOwnDogInMatch a w = (Rejected e, w')
  ∨ ∃ user_id dog match_ w1,
      ensureOwnDogInMatch a w = (Fulfilled (user_id, dog, match_), w1)
      ∧ ((gate_closed a dog = true ∧ e = ForbiddenOutcome)
         ∨ (gate_closed a dog = false
            ∧ normalizeAndRecord StringToNumber a user_id w1 = (Rejected e, w'))).
Proof.
  intros H. unfold submitMatchOutcome in H.
  apply bind_cases in H as [(e1 & H & [= <-]) | ([[user_id dog] match_] & w1 & Hc & H)].
  - left. exact H.
  - right. exists user_id, dog, match_, w1. split; [exact Hc|].
    rewrite bind_run in H.
    change (gate_closed a dog) with
      ((Js.toLowerCase (Js.or_else (Dog.gender dog) "") =? "male")
       && negb (Submit.outcome a =? "no_show")) in *.
    destruct (_ && _) eqn:Hgate.
    + injection H as <- _. left. auto.
    + right. auto.
Qed.

(** X25: the errors submitMatchOutcome ends with.  A rejection is an error
    of the backend (a refusal, or PGRST116 of [.single()]), the error of
    the authentication, or one of ten errors of the function's own; the two
    tests [!dog] and [!match] after [.single()] never fire, so that "Dog
    not found" and "Match not found" are never the answer.  The errors of
    step 4 have the causes their messages name: the litter size of a
    success is not a finite number or is below 1; the notes of a success,
    or of a no-show, are blank. *)
Theorem submitMatchOutcome_rejections a w e w' :
  submit a w = (Rejected e, w') →
  ((∃ pe, e = Postgrest pe)
   ∨ (∃ ae, e = Auth ae ∧ auth_error (session w) = Some ae)
   ∨ In e submitMatchOutcome_errors)
  ∧ e ≠ new_Error "Dog not found"
  ∧ e ≠ new_Error "Match not found"
  ∧ (e = InvalidLitterSize →
     Submit.outcome a = "success"
     ∧ (Js.isFinite (n a) = false ∨ Js.lt (n a) Js.one = true))
  ∧ (e = NotesRequired_success → Submit.outcome a = "success" ∧ trimmedNotes a = "")
  ∧ (e = NotesRequired_no_show → Submit.outcome a = "no_show" ∧ trimmedNotes a = "").
Proof.
  intros H.
  apply submitMatchOutcome_rejected_cases in H
    as [H | (user_id & dog & match_ & w1 & _ & [[_ ->] | [_ H]])].
  - apply ensureOwnDogInMatch_rejected in H as [[pe ->] | [(ae & -> & Hae) | Hin]].
    + split; [left; eauto|]. repeat split; discriminate.
    + split; [right; left; eauto|]. repeat split; discriminate.
    + split; [right; right|].
      * unfold submitMatchOutcome_errors. cbn in Hin |- *.
        destruct Hin as [<- | [<- | [<- | [<- | [<- | [<- | []]]]]]]; auto 12.
      * cbn in Hin.
        destruct Hin as [<- | [<- | [<- | [<- | [<- | [<- | []]]]]]];
          repeat split; discriminate.
  - split; [right; right; unfold submitMatchOutcome_errors; cbn; auto 12|].
    repeat split; discriminate.
  - apply normalizeAndRecord_rejected in H
      as [[pe ->] | [(-> & Hs & Hsize) | [(-> & Hs & Hnotes) | (-> & Hn & Hnotes)]]].
    + split; [left; eauto|]. repeat split; discriminate.
    + split; [right; right; unfold submitMatchOutcome_errors; cbn; auto 12|].
      repeat split; try discriminate; auto.
    + split; [right; right; unfold submitMatchOutcome_errors; cbn; auto 12|].
      repeat split; try discriminate; auto.
    + split; [right; right; unfold submitMatchOutcome_errors; cbn; auto 12|].
      repeat split; try discriminate; auto.
Qed.
End SubmitMatchOutcomeRejections.

(** Ann reports a success with a litter of 0: the error is one of the ten,
    and its cause is the litter size. *)
Lemma submitMatchOutcome_rejections_witness :
  submitMatchOutcome Sample.StringToNumber
    (Sample.submission Sample.luna "success" (Js.Str "0") (Some "went well"))
    (Sample.awaiting "user-ann")
  = (Rejected InvalidLitterSize, Sample.checked (Sample.awaiting "user-ann"))
  ∧ In InvalidLitterSize submitMatchOutcome_errors
  ∧ Js.lt (Sample.StringToNumber "0") Js.one = true.
Proof.
  assert (Hrun : submitMatchOutcome Sample.StringToNumber
                   (Sample.submission Sample.luna "success" (Js.Str "0") (Some "went well"))
                   (Sample.awaiting "user-ann")
                 = (Rejected InvalidLitterSize, Sample.checked (Sample.awaiting "user-ann")))
    by reflexivity.
  destruct (submitMatchOutcome_rejections _ _ _ _ _ Hrun)
    as ([[pe Hpe] | [(ae & Hae & _) | Hin]] & _ & _ & Hcause & _);
    [discriminate Hpe | discriminate Hae |].
  split; [exact Hrun|]. split; [exact Hin|].
  destruct (Hcause eq_refl) as [_ [Hfin | Hlt]]; [discriminate Hfin | exact Hlt].
Defined.

(* ===================================================================== *)
(** ** The outcome modal and the service *)
(* ===================================================================== *)

(** *** Trimming twice *)

Lemma trimEnd_idempotent s : Js.trimEnd (Js.trimEnd s) = Js.trimEnd s.
Proof.
  induction s as [|c r IH]; [reflexivity|].
  cbn [Js.trimEnd]. destruct (Js.trimEnd r) as [|c' r'] eqn:Hr.
  - destruct (Js.is_white_space c) eqn:Hc; [reflexivity|].
    cbn [Js.trimEnd]. rewrite Hc. reflexivity.
  - change (Js.trimEnd (String c (String c' r')))
      with (match Js.trimEnd (String c' r') with
            | EmptyString =>
                if Js.is_white_space c then EmptyString else String c EmptyString
            | r'' => String c r''
            end).
    rewrite IH. reflexivity.
Qed.

(** What [trimStart] leaves is empty or starts with a character that is
    not white space. *)
Lemma trimStart_head s :
  Js.trimStart s = ""
  ∨ ∃ c r, Js.trimStart s = String c r ∧ Js.is_white_space c = false.
Proof.
  induction s as [|c r IH]; [left; reflexivity|].
  cbn [Js.trimStart]. destruct (Js.is_white_space c) eqn:Hc; [exact IH|].
  right. eauto.
Qed.

Lemma trimEnd_head c r :
  Js.is_white_space c = false → ∃ r', Js.trimEnd (String c r) = String c r'.
Proof.
  intros Hc. cbn [Js.trimEnd]. destruct (Js.trimEnd r); [|eauto].
  rewrite Hc. eauto.
Qed.

Lemma trim_idempotent s : Js.trim (Js.trim s) = Js.trim s.
Proof.
  unfold Js.trim at 2 3.
  destruct (trimStart_head s) as [-> | (c & r & -> & Hc)]; [reflexivity|].
  destruct (trimEnd_head c r Hc) as [r' Hr'].
  unfold Js.trim. rewrite Hr' at 1. cbn [Js.trimStart]. rewrite Hc, <- Hr'.
  apply trimEnd_idempotent.
Qed.

Lemma trim_empty : Js.trim "" = "".
Proof. reflexivity. Qed.

(** [!notes || notes.trim().length === 0] says that the trimmed notes are
    empty. *)
Lemma blank_trim notes : Modal.blank notes = negb (Js.nonempty (Js.trim notes)).
Proof.
  unfold Modal.blank, Js.nonempty.
  destruct notes as [|c r]; [reflexivity|].
  cbn [String.eqb negb orb]. rewrite negb_involutive.
  destruct (Js.trim (String c r)); reflexivity.
Qed.

(** [x || ""] is [x]. *)
Lemma or_else_empty x : Js.or_else (Some x) "" = x.
Proof.
  unfold Js.or_else. destruct (Js.nonempty x) eqn:H; [reflexivity|].
  apply nonempty_false in H. auto.
Qed.

Section OutcomeModal.
Variable StringToNumber : string → Js.number.
Implicit Types (s : Modal.state) (a : Submit.args) (w : World).

Local Abbreviation submit := (submitMatchOutcome StringToNumber).
Local Abbreviation Number_ v := (Js.Number StringToNumber (Js.Str v)).

(** The effect on the outcome changes the litter size only. *)
Lemma onOutcome_keeps s :
  Modal.outcome (Modal.onOutcome StringToNumber s) = Modal.outcome s
  ∧ Modal.notes (Modal.onOutcome StringToNumber s) = Modal.notes s.
Proof.
  unfold Modal.onOutcome. cbv zeta.
  repeat match goal with
         | |- context [if ?b then _ else _] => destruct b
         end; auto.
Qed.

(** What passes the validation of handleSubmit, and what is submitted. *)
Lemma validate_inr match_ s a :
  Modal.validate StringToNumber match_ s = inr a →
  a = {| Submit.matchId := Some (Match.id (Match.columns (View.row match_)));
         Submit.outcome := Modal.outcome s;
         Submit.verifiedDogId := Dog.id <$> View.myDog match_;
         Submit.litterSize :=
           Js.Num (if Modal.outcome s =? "no_show" then Js.zero
                   else if Modal.outcome s =? "failed" then Js.zero
                   else Number_ (Modal.litterSize s));
         Submit.notes := Some (Js.trim (Modal.notes s)) |}
  ∧ (Modal.outcome s = "success" →
     Modal.litterSize s ≠ "" ∧ Js.lt (Number_ (Modal.litterSize s)) Js.one = false
     ∧ Js.trim (Modal.notes s) ≠ "")
  ∧ (Modal.outcome s = "no_show" → Js.trim (Modal.notes s) ≠ "").
Proof.
  unfold Modal.validate. rewrite !blank_trim, or_else_empty.
  destruct (Modal.outcome s =? "success") eqn:Hs.
  - apply String.eqb_eq in Hs. rewrite Hs. cbn [andb String.eqb Ascii.eqb Bool.eqb].
    destruct (Modal.litterSize s =? "") eqn:Hl; [discriminate|].
    destruct (Js.lt _ _) eqn:Hlt; [discriminate|]. cbn [orb].
    destruct (Js.nonempty _) eqn:Hnotes; [|discriminate]. cbn [negb].
    intros [= <-]. split; [reflexivity|]. split; [|discriminate].
    intros _. apply String.eqb_neq in Hl. apply nonempty_true in Hnotes. auto.
  - cbn [andb]. destruct (Modal.outcome s =? "no_show") eqn:Hn.
    + destruct (Js.nonempty _) eqn:Hnotes; [|discriminate]. cbn [negb andb].
      intros [= <-]. split; [reflexivity|]. apply String.eqb_neq in Hs.
      split; [intros; contradiction|]. intros _. apply nonempty_true. exact Hnotes.
    + cbn [andb]. intros [= <-]. split; [reflexivity|].
      apply String.eqb_neq in Hs, Hn. split; intros; contradiction.
Qed.

(** X26: the submit button and the validation of handleSubmit agree: the
    button is disabled exactly when a submission is under way, or the
    viewer has no dog in the match, or handleSubmit would answer with a
    warning instead of submitting.  A form that was just opened is
    disabled, for its notes are empty and its outcome, success or no_show,
    asks for notes. *)
Theorem submitDisabled_validate (match_ : View.t) s :
  Modal.submitDisabled StringToNumber match_ s
  = Modal.busy s
    || negb (Js.present (Dog.id <$> View.myDog match_))
    || match Modal.validate StringToNumber match_ s with
       | inl _ => true
       | inr _ => false
       end
  ∧ ∀ viewed,
      Modal.submitDisabled StringToNumber match_
        (Modal.onOutcome StringToNumber (Modal.onOpen true viewed s)) = true.
Proof.
  split.
  - unfold Modal.submitDisabled, Modal.validate.
    destruct (Modal.busy s); [reflexivity|].
    destruct (negb (Js.present _)); [reflexivity|]. cbn [orb].
    destruct (Modal.outcome s =? "success") eqn:Hs.
    + apply String.eqb_eq in Hs. rewrite Hs. cbn [andb String.eqb Ascii.eqb Bool.eqb orb].
      destruct (Modal.litterSize s =? ""); [reflexivity|].
      destruct (Js.lt _ _); [reflexivity|]. cbn [orb].
      destruct (Modal.blank _); reflexivity.
    + cbn [andb orb]. destruct (Modal.outcome s =? "no_show"); [|reflexivity].
      cbn [andb]. destruct (Modal.blank _); reflexivity.
  - intros viewed.
    destruct (onOutcome_keeps (Modal.onOpen true viewed s)) as [Ho Hn].
    unfold Modal.submitDisabled. rewrite Ho, Hn. unfold Modal.onOpen.
    destruct (from_option View.isMaleDogOwner false viewed);
      cbn [Modal.outcome Modal.notes String.eqb Ascii.eqb Bool.eqb andb orb];
      change (Modal.blank "") with true; rewrite ?andb_true_r, !orb_true_r; reflexivity.
Qed.

(** X27: the form offers the outcomes the gate of submitMatchOutcome
    admits.  For a view made by mapMatchRecord in which the viewer has a
    dog, an outcome is among the radio buttons exactly when it is one of
    success, failed, no_show and the gate of step 3 is open for that dog;
    and the outcome preselected on opening is one of the buttons. *)
Theorem options_agree_with_gate (row : Match.record) (userId : option Id)
    (v : View.t) (dog : Dog.row) :
  mapMatchRecord (Some row) userId = Some v →
  View.myDog v = Some dog →
  (∀ a, In (Submit.outcome a) (Modal.options v)
        ↔ includes OUTCOMES (Submit.outcome a) = true ∧ gate_closed a dog = false)
  ∧ ∀ s, In (Modal.outcome (Modal.onOpen true (Some v) s)) (Modal.options v).
Proof.
  intros Hv Hdog.
  assert (Hflag : View.isMaleDogOwner v
                  = (Js.toLowerCase (Js.or_else (Dog.gender dog) "") =? "male")).
  { injection Hv as <-. cbn [View.isMaleDogOwner View.myDog] in *. rewrite Hdog.
    reflexivity. }
  split.
  - intros a. unfold Modal.options, gate_closed. cbv zeta. rewrite Hflag, includes_OUTCOMES.
    destruct (_ =? "male"); cbn [andb In].
    + rewrite negb_false_iff, String.eqb_eq. split.
      * intros [<- | []]. auto.
      * intros [_ ->]. auto.
    + split.
      * intros [<- | [<- | [<- | []]]]; auto.
      * intros [[-> | [-> | ->]] _]; auto.
  - intros s. unfold Modal.onOpen, Modal.options. cbn [from_option].
    destruct (View.isMaleDogOwner v); cbn; auto.
Qed.

(** What submitMatchOutcome does to the table of outcomes. *)
Lemma submitMatchOutcome_stores a w c w' :
  submit a w = (c, w') →
  match c with
  | Rejected _ => dog_match_outcomes w' = dog_match_outcomes w
  | Fulfilled r =>
      ∃ row, r = Some row ∧ dog_match_outcomes w' = (dog_match_outcomes w ++ [row])%list
  end.
Proof.
  intros H. unfold submitMatchOutcome in H.
  apply bind_cases in H as [(e & H & ->) | ([[user_id dog] match_] & w1 & Hchecks & H)].
  - destruct (read_only_ensureOwnDogInMatch _ _ _ _ H) as (? & ? & ? & _). auto.
  - destruct (read_only_ensureOwnDogInMatch _ _ _ _ Hchecks) as (_ & _ & Ho & _).
    apply bind_cases in H as [(e & H & ->) | (? & w2 & Hgate & H)].
    + destruct (gate_closed a dog); injection H as _ <-; auto.
    + apply throw_when_inv in Hgate as [_ ->].
      apply normalizeAndRecord_cases in H
        as [((_ & _ & Ho' & _) & e & ->) | (size & -> & ->)].
      * congruence.
      * eexists. split; [reflexivity|]. cbn. rewrite Ho. reflexivity.
Qed.

(** X28: what the modal submits meets the service.  The notes the service
    trims are the notes of the form, trimmed: trimming twice changes
    nothing.  A submission that passed the validation of handleSubmit is
    never answered with one of the two errors on missing notes, and is
    answered with the error on the litter size only when the outcome is
    success and the text of the field converts to NaN or to an infinity,
    which [Number(litterSize) < 1] lets through.  When the service fulfils
    it, the row stored has the trimmed notes (null when empty) and, as
    litter size, the number of the field for a success and 0 otherwise. *)
Theorem validate_meets_service (match_ : View.t) s a :
  Modal.validate StringToNumber match_ s = inr a →
  Submit.outcome a = Modal.outcome s
  ∧ trimmedNotes a = Js.trim (Modal.notes s)
  ∧ (∀ w e w', submit a w = (Rejected e, w') →
       e ≠ NotesRequired_success ∧ e ≠ NotesRequired_no_show
       ∧ (e = InvalidLitterSize →
          Modal.outcome s = "success"
          ∧ Js.isFinite (Number_ (Modal.litterSize s)) = false))
  ∧ (∀ w r w', submit a w = (Fulfilled r, w') →
       ∃ row, r = Some row
         ∧ Outcome.notes row = Js.or_null (Js.trim (Modal.notes s))
         ∧ Outcome.litter_size row
           = Some (if Modal.outcome s =? "success"
                   then Number_ (Modal.litterSize s) else Js.zero)).
Proof.
  intros Hvalid. apply validate_inr in Hvalid as (-> & Hsuccess & Hno_show).
  assert (Hnotes : ∀ x y z u, trimmedNotes
            {| Submit.matchId := x; Submit.outcome := y; Submit.verifiedDogId := z;
               Submit.litterSize := u; Submit.notes := Some (Js.trim (Modal.notes s)) |}
          = Js.trim (Modal.notes s)).
  { intros. unfold trimmedNotes. cbn [Submit.notes].
    rewrite or_else_empty. apply trim_idempotent. }
  split; [reflexivity|]. split; [apply Hnotes|]. split.
  - intros w e w' H.
    apply submitMatchOutcome_rejected_cases in H
      as [H | (user_id & dog & match' & w1 & _ & [[_ ->] | [_ H]])].
    + apply ensureOwnDogInMatch_rejected in H as [[pe ->] | [(ae & -> & _) | Hin]].
      * repeat split; discriminate.
      * repeat split; discriminate.
      * cbn in Hin. destruct Hin as [<- | [<- | [<- | [<- | [<- | [<- | []]]]]]];
          repeat split; discriminate.
    + repeat split; discriminate.
    + apply normalizeAndRecord_rejected in H
        as [[pe ->] | [(-> & Hs & Hsize) | [(-> & Hs & Hblank) | (-> & Hn & Hblank)]]].
      * repeat split; discriminate.
      * cbn [Submit.outcome] in Hs. split; [discriminate|]. split; [discriminate|].
        intros _. split; [exact Hs|].
        destruct (Hsuccess Hs) as (_ & Hlt & _).
        unfold parsedLitterSize in Hsize. cbn [Submit.litterSize Submit.defaulted Js.Number] in Hsize.
        rewrite Hs in Hsize. cbn [String.eqb Ascii.eqb Bool.eqb] in Hsize.
        cbn [Js.Number] in Hlt.
        destruct Hsize as [Hfin | Hlt']; [exact Hfin | congruence].
      * cbn [Submit.outcome] in Hs. rewrite Hnotes in Hblank.
        destruct (Hsuccess Hs) as (_ & _ & Hfilled). contradiction.
      * cbn [Submit.outcome] in Hn. rewrite Hnotes in Hblank.
        specialize (Hno_show Hn). contradiction.
  - intros w r w' H.
    apply submitMatchOutcome_inv in H
      as (user_id & dog & match' & w1 & size & _ & _ & -> & _ & Hsize).
    eexists. split; [reflexivity|].
    cbn [stored_outcome new_outcome outcome_payload Outcome.notes Outcome.p_notes
           Outcome.litter_size Outcome.p_litter_size].
    rewrite Hnotes. split; [reflexivity|]. f_equal.
    cbn [Submit.outcome] in Hsize.
    destruct Hsize as [(Hs & -> & _) | [(Hf & ->) | (Hn & -> & _)]].
    + rewrite Hs. reflexivity.
    + rewrite Hf. reflexivity.
    + rewrite Hn. reflexivity.
Qed.

(** X29: one run of handleSubmit with submitMatchOutcome as [onSubmit].
    While a submission is under way it does nothing.  Otherwise it ends
    with [busy] false and one toast, however it went.  The modal is closed
    exactly when one more outcome is in the table, with the outcome of the
    form and its notes trimmed, and the toast then says so; when the modal
    stays open the table is as it was, and a warning of the validation is
    shown without the backend being asked. *)
Theorem handleSubmit_closes_on_record (match_ : View.t) s w h w' :
  Modal.handleSubmit StringToNumber submit match_ s w = (h, w') →
  (Modal.busy s = true →
   h = {| Modal.toasts := []; Modal.closed := false; Modal.after := s |} ∧ w' = w)
  ∧ (Modal.busy s = false →
     Modal.busy (Modal.after h) = false ∧ length (Modal.toasts h) = 1)
  ∧ (∀ toast, Modal.busy s = false →
       Modal.validate StringToNumber match_ s = inl toast →
       Modal.toasts h = [toast] ∧ Modal.closed h = false ∧ w' = w)
  ∧ if Modal.closed h
    then Modal.toasts h
         = [{| Modal.message := "Outcome recorded"; Modal.type := "success" |}]
         ∧ ∃ row, dog_match_outcomes w' = (dog_match_outcomes w ++ [row])%list
                  ∧ Outcome.outcome row = Modal.outcome s
                  ∧ Outcome.notes row = Js.or_null (Js.trim (Modal.notes s))
    else dog_match_outcomes w' = dog_match_outcomes w.
Proof.
  unfold Modal.handleSubmit. intros H.
  destruct (Modal.busy s).
  { injection H as <- <-. repeat split; try discriminate; auto. }
  destruct (Modal.validate StringToNumber match_ s) as [toast | a] eqn:Hvalid.
  { injection H as <- <-. cbn. split; [discriminate|]. split; [auto|].
    split; [|reflexivity]. intros ? _ [= <-]. auto. }
  destruct (submit a w) as [[r | err] w1] eqn:Hrun; injection H as <- <-; cbn.
  - split; [discriminate|]. split; [auto|]. split; [discriminate|].
    split; [reflexivity|].
    pose proof (submitMatchOutcome_stores _ _ _ _ Hrun) as (row & -> & Hrows).
    exists row. split; [exact Hrows|].
    apply validate_inr in Hvalid as (Ha & _).
    apply submitMatchOutcome_inv in Hrun
      as (user_id & dog & match' & w2 & size & _ & _ & [= ->] & _ & _).
    cbn. rewrite Ha. cbn [Submit.outcome]. split; [reflexivity|].
    unfold trimmedNotes. cbn [Submit.notes]. rewrite or_else_empty, trim_idempotent.
    reflexivity.
  - split; [discriminate|]. split; [auto|]. split; [discriminate|].
    exact (submitMatchOutcome_stores _ _ _ _ Hrun).
Qed.

(** X30: once the outcome is success, the handlers keep the litter size a
    text that passes handleSubmit: after the effect on the outcome, and
    after every change of the field, the text is not empty and converts to
    a finite number that is not below 1, so that the warning on the litter
    size is not the answer of handleSubmit.  The conversion is the
    built-in's on the two texts the handlers rely on: the empty text is 0
    and "1" is 1. *)
Theorem litterSize_stays_valid s (val : string) :
  StringToNumber "" = Js.zero →
  StringToNumber "1" = Js.one →
  Modal.outcome s = "success" →
  ∀ s', s' = Modal.onOutcome StringToNumber s
        ∨ s' = Modal.onLitterSizeChange StringToNumber val s →
    Modal.outcome s' = "success"
    ∧ Modal.litterSize s' ≠ ""
    ∧ Js.isFinite (Number_ (Modal.litterSize s')) = true
    ∧ Js.lt (Number_ (Modal.litterSize s')) Js.one = false
    ∧ ∀ match_ : View.t,
        Modal.validate StringToNumber match_ s'
        ≠ inl (Modal.warning "For success, litter size must be at least 1").
Proof.
  intros Hempty Hone Hs s' Hs'.
  assert (Hkept : Modal.outcome s' = "success"
                  ∧ Modal.litterSize s' ≠ ""
                  ∧ Js.isFinite (Number_ (Modal.litterSize s')) = true
                  ∧ Js.lt (Number_ (Modal.litterSize s')) Js.one = false).
  { destruct Hs' as [-> | ->].
    - unfold Modal.onOutcome. rewrite Hs. cbn [String.eqb Ascii.eqb Bool.eqb]. cbv zeta.
      destruct (Js.nonempty (Modal.litterSize s)) eqn:Hv; cbn [negb orb].
      + destruct (Js.isFinite _) eqn:Hfin; cbn [negb orb].
        * destruct (Js.lt _ _) eqn:Hlt; cbn [Modal.setLitterSize Modal.outcome Modal.litterSize].
          -- cbn [Js.Number]. rewrite Hone. repeat split; [exact Hs | discriminate].
          -- apply nonempty_true in Hv. auto.
        * cbn [Modal.setLitterSize Modal.outcome Modal.litterSize Js.Number].
          rewrite Hone. repeat split; [exact Hs | discriminate].
      + cbn [Modal.setLitterSize Modal.outcome Modal.litterSize Js.Number].
        rewrite Hone. repeat split; [exact Hs | discriminate].
    - unfold Modal.onLitterSizeChange. rewrite Hs. cbn [String.eqb Ascii.eqb Bool.eqb].
      cbv zeta.
      destruct (Js.isFinite (Number_ val)) eqn:Hfin; cbn [negb orb].
      + destruct (Js.lt (Number_ val) Js.one) eqn:Hlt;
          cbn [Modal.setLitterSize Modal.outcome Modal.litterSize].
        * cbn [Js.Number]. rewrite Hone. repeat split; [exact Hs | discriminate].
        * repeat split; auto. intros ->. cbn [Js.Number] in Hlt.
          rewrite Hempty in Hlt. discriminate Hlt.
      + cbn [Modal.setLitterSize Modal.outcome Modal.litterSize Js.Number].
        rewrite Hone. repeat split; [exact Hs | discriminate]. }
  destruct Hkept as (Ho & Hne & Hfin & Hlt). repeat split; auto.
  intros match_. unfold Modal.validate. rewrite Ho. cbn [String.eqb Ascii.eqb Bool.eqb andb].
  apply String.eqb_neq in Hne. rewrite Hne, Hlt. cbn [orb].
  destruct (Modal.blank _); discriminate.
Qed.
End OutcomeModal.

(** Bob's dog Duke is "MALE": the form offers him no_show only, and the
    gate is closed for the success it does not offer. *)
Lemma options_agree_with_gate_witness :
  ∃ v,
    mapMatchRecord (Some (Sample.record Sample.duke Sample.pixie "awaiting_confirmation"))
      (Some "user-bob") = Some v
    ∧ In "no_show" (Modal.options v)
    ∧ ¬ In "success" (Modal.options v).
Proof.
  eexists. split; [reflexivity|].
  destruct (options_agree_with_gate
              (Sample.record Sample.duke Sample.pixie "awaiting_confirmation")
              (Some "user-bob") _ Sample.duke eq_refl eq_refl) as [Hgate _].
  split.
  - apply (Hgate (Sample.submission Sample.duke "no_show" Js.Null None)).
    split; reflexivity.
  - intros Hin.
    apply (Hgate (Sample.submission Sample.duke "success" Js.Null None)) in Hin
      as [_ Hopen].
    discriminate Hopen.
Defined.

(** Ann fills the form: a success, four puppies, notes with blanks around
    them.  The service stores the notes trimmed and a litter of 4. *)
Lemma validate_meets_service_witness :
  ∃ v a row w',
    mapMatchRecord (Some (Sample.record Sample.rex Sample.luna "awaiting_confirmation"))
      (Some "user-ann") = Some v
    ∧ Modal.validate Sample.StringToNumber v
        {| Modal.outcome := "success"; Modal.litterSize := "4";
           Modal.notes := " went well "; Modal.busy := false |} = inr a
    ∧ trimmedNotes a = "went well"
    ∧ submitMatchOutcome Sample.StringToNumber a (Sample.awaiting "user-ann")
      = (Fulfilled (Some row), w')
    ∧ Outcome.notes row = Some "went well"
    ∧ Outcome.litter_size row = Some Sample.four.
Proof.
  eexists. eexists. eexists. eexists.
  split; [reflexivity|]. split; [reflexivity|].
  match goal with
  | |- trimmedNotes ?a = _ ∧ _ =>
      destruct (validate_meets_service Sample.StringToNumber _
                  {| Modal.outcome := "success"; Modal.litterSize := "4";
                     Modal.notes := " went well "; Modal.busy := false |} a eq_refl)
        as (_ & Hnotes & _ & Hstored)
  end.
  split; [exact Hnotes|]. split; [reflexivity|].
  match goal with
  | |- Outcome.notes ?row = _ ∧ _ =>
      destruct (Hstored (Sample.awaiting "user-ann") (Some row) _ eq_refl)
        as (row' & [= <-] & Hn & Hl)
  end.
  split; [exact Hn | exact Hl].
Defined.

(** Ann submits that form: the modal closes, and the table of outcomes
    has its first row. *)
Lemma handleSubmit_closes_on_record_witness :
  ∃ v,
    mapMatchRecord (Some (Sample.record Sample.rex Sample.luna "awaiting_confirmation"))
      (Some "user-ann") = Some v
    ∧ let run :=
        Modal.handleSubmit Sample.StringToNumber
          (submitMatchOutcome Sample.StringToNumber) v
          {| Modal.outcome := "success"; Modal.litterSize := "4";
             Modal.notes := " went well "; Modal.busy := false |}
          (Sample.awaiting "user-ann") in
      Modal.closed (fst run) = true
      ∧ Modal.busy (Modal.after (fst run)) = false
      ∧ ∃ row, dog_match_outcomes (snd run) = [row]
               ∧ Outcome.notes row = Some "went well".
Proof.
  eexists. split; [reflexivity|]. intros run.
  destruct (handleSubmit_closes_on_record Sample.StringToNumber _ _ _ _ _
              (surjective_pairing run)) as (_ & Hbusy & _ & Hclosed).
  assert (Hc : Modal.closed (fst run) = true) by reflexivity.
  rewrite Hc in Hclosed. destruct Hclosed as (_ & row & Hrows & _ & Hnotes).
  split; [exact Hc|]. split; [apply Hbusy; reflexivity|].
  exists row. split; [exact Hrows | exact Hnotes].
Defined.

(** The outcome is success and the field holds 4; Ann types 0: the field
    is set to 1. *)
Lemma litterSize_stays_valid_witness :
  let StringToNumber := λ s, if s =? "" then Js.zero else Sample.StringToNumber s in
  let s := {| Modal.outcome := "success"; Modal.litterSize := "4";
              Modal.notes := ""; Modal.busy := false |} in
  Modal.litterSize (Modal.onLitterSizeChange StringToNumber "0" s) = "1"
  ∧ Js.lt (StringToNumber (Modal.litterSize (Modal.onLitterSizeChange StringToNumber "0" s)))
      Js.one = false.
Proof.
  intros StringToNumber s.
  destruct (litterSize_stays_valid StringToNumber s "0" eq_refl eq_refl eq_refl
              (Modal.onLitterSizeChange StringToNumber "0" s) (or_intror eq_refl))
    as (_ & _ & _ & Hlt & _).
  split; [reflexivity | exact Hlt].
Defined.
